(** * SatShor: the coverage optimisation engine and the product selection
      strategies, as a shallow embedding of the Python sources

    Files embedded:
    - [src/image_collector/coverage_optimizer.py]: [sample_points_in_polygon],
      [build_coverage_matrix], [greedy_set_cover], [optimal_set_cover_milp],
      [select_covering_products];
    - [src/image_collector/collection_core.py]: [calculate_quality_score],
      [auto_select_products];
    - [src/image_collector/config_schema.py]: [AutoSelectConfig.__post_init__],
      [ScheduleConfig.__post_init__], [SchedulerConfig.__post_init__];
    - [src/image_collector/scheduler.py]: [setup_jobs], [_create_trigger] and
      the four trigger constructors;
    - [src/image_collector/collection_core.py]: [run_collection], up to its
      query;
    - [src/image_collector/collector.py]: the signature of
      [build_odata_query], and [get_utm_crs].

    Conventions of the embedding.
    - Python [float] values are exact rationals ([Q]), with the comparisons
      and the arithmetic of the rationals. Rounding is modelled where it
      decides what the code does at ordinary inputs: the length of
      [np.arange] is computed on doubles ([arange_length]), and the
      constructor of [AutoSelectConfig] is also given with its two tolerance
      tests on doubles ([post_init_double]).
    - A Python exception is a value [Raise e] of the type [result];
      [try ... except Exception] is a match on it.
    - Python sets of integers are [gset nat], lists are lists, a product
      dictionary is a record with one optional field per key the code reads.
    - Shapely, OR-Tools, [math.sqrt] and [datetime.fromisoformat] are
      interfaces (a type class and a record of library functions); nothing is
      assumed about them. [np.arange] and [datetime.isocalendar] are modelled
      by their arithmetic. *)

From Stdlib Require Import QArith Qround Qabs ZArith List Sorted Lia Lqa String Ascii.
From Stdlib Require SpecFloat.
From stdpp Require Import gmap strings list pretty.
From Equations Require Import Equations.
Import ListNotations.

Local Open Scope Q_scope.
#[local] Set Warnings "-clear-no-such-hyp".

(** ** Python results and exceptions *)

Inductive exn : Type :=
| ValueError (msg : string)
| IndexError
| KeyError
| ZeroDivisionError.

Inductive result (A : Type) : Type :=
| Ok (a : A)
| Raise (e : exn).
Arguments Ok {A} a.
Arguments Raise {A} e.

#[global] Instance result_ret : MRet result := fun A a => Ok a.
#[global] Instance result_bind : MBind result := fun A B k r =>
  match r with
  | Ok a => k a
  | Raise e => Raise e
  end.

(** [l[i]] for a non-negative [i]: [IndexError] out of range. *)
Definition py_index {A : Type} (l : list A) (i : nat) : result A :=
  match l !! i with
  | Some a => Ok a
  | None => Raise IndexError
  end.

(** A list comprehension whose body may raise. *)
Fixpoint py_comprehension {A B : Type} (f : A -> result B) (l : list A)
  : result (list B) :=
  match l with
  | [] => Ok []
  | a :: l' => b ← f a; bs ← py_comprehension f l'; Ok (b :: bs)
  end.

(** The value of an expression together with the equation that it is that
    value, for the termination proof of a loop that tests it. *)
Definition inspect {A : Type} (a : A) : {b : A | a = b} := exist _ a eq_refl.

(** ** Python numbers *)

(** [a > b] on floats. *)
Definition Qgtb (a b : Q) : bool := negb (Qle_bool a b).
(** [a < b] on floats. *)
Definition Qltb (a b : Q) : bool := negb (Qle_bool b a).

(** [max(a, b)]: the first argument unless the second is strictly larger. *)
Definition py_max (a b : Q) : Q := if Qgtb b a then b else a.
(** [min(a, b)]: the first argument unless the second is strictly smaller. *)
Definition py_min (a b : Q) : Q := if Qltb b a then b else a.

(** [int(x)]: truncation towards zero. *)
Definition py_int (x : Q) : Z := Z.quot (Qnum x) (Zpos (Qden x)).

(** [a / b]: true division, [ZeroDivisionError] on a zero divisor. *)
Definition py_truediv (a b : Q) : result Q :=
  if Qeq_bool b 0 then Raise ZeroDivisionError else Ok (a / b).

(** A non-negative Python [int] ([len(l)], [len(s)], a grid index) as a float
    operand. *)
Definition Qlen (n : nat) : Q := inject_Z (Z.of_nat n).

(** ** Doubles

    A Python [float] is an IEEE 754 binary64 number. Where rounding decides
    what the code does, the arithmetic is done on doubles, with the
    operations of the standard library's [SpecFloat] at precision 53 and
    exponent bound 1024 (rounding to nearest, ties to even). *)
Definition double : Type := SpecFloat.spec_float.

(** The double nearest to an integer. *)
Definition double_of_Z (z : Z) : double :=
  SpecFloat.binary_normalize 53 1024 z 0 false.

(** [a + b], [a - b], [a / b], [abs(a)] and [a > b] on doubles. *)
Definition double_add (a b : double) : double := SpecFloat.SFadd 53 1024 a b.
Definition double_sub (a b : double) : double := SpecFloat.SFsub 53 1024 a b.
Definition double_div (a b : double) : double := SpecFloat.SFdiv 53 1024 a b.
Definition double_abs (a : double) : double := SpecFloat.SFabs a.
Definition double_gtb (a b : double) : bool := SpecFloat.SFltb b a.

(** The double a rational of the model stands for: the double nearest to it
    (numerator and denominator below [2^53] convert exactly, and the division
    rounds once); a rational that is a double is that double. *)
Definition double_of_Q (q : Q) : double :=
  double_div (double_of_Z (Qnum q)) (double_of_Z (Zpos (Qden q))).

(** [ceil(x)] of a finite double [x = (-1)^s * m * 2^e]; [None] for an
    infinity and for NaN. *)
Definition double_ceil (x : double) : option Z :=
  match x with
  | SpecFloat.S754_zero _ => Some 0%Z
  | SpecFloat.S754_finite s m e =>
      let v := if s then Z.neg m else Z.pos m in
      Some (if (0 <=? e)%Z then v * 2 ^ e else - ((- v) / 2 ^ (- e)))%Z
  | _ => None
  end.

(** [set(range(n))]. *)
Definition set_range (n : nat) : gset nat := list_to_set (seq 0 n).

(** A point of the projected plane, [shapely.geometry.Point(x, y)]. *)
Definition Point : Type := (Q * Q)%type.

(** ** Shapely, as far as the code uses it *)

Inductive GeomType : Type := Polygon | MultiPolygon | OtherGeom.

Class Shapely (G : Type) : Type := {
  (** the class [isinstance] tests *)
  geom_type : G -> GeomType;
  (** [g.bounds], as [(minx, miny, maxx, maxy)] *)
  bounds : G -> Q * Q * Q * Q;
  (** [prep(g).covers(p)]: closed containment *)
  covers : G -> Point -> bool;
  (** [g.is_empty]; the truth value of a geometry is its negation *)
  is_empty : G -> bool;
  (** [shapely.ops.unary_union] *)
  unary_union : G -> G
}.

(** ** OR-Tools, as far as the code uses it *)

(** [pywraplp.Solver] result statuses. *)
Inductive ResultStatus : Type :=
| OPTIMAL | FEASIBLE | INFEASIBLE | UNBOUNDED | ABNORMAL | MODEL_INVALID | NOT_SOLVED.

(** The constraint the code adds for sample point [i]. *)
Inductive PointConstraint : Type :=
| CoveredIfSelected (i : nat) (covering_candidates : list nat)
    (* point_covered[i] <= sum(x[j] for j in covering_candidates) *)
| NeverCovered (i : nat).
    (* point_covered[i] == 0 *)

(** The program handed to the solver: Boolean variables [x_0 .. x_(N-1)] and
    [p_0 .. p_(M-1)], the point constraints, the coverage constraint
    [sum p_i >= min_covered], and the objective
    [minimise sum(cost_j * x_j) + epsilon * sum(x_j)]. *)
Record MilpModel : Type := mkModel {
  time_limit_ms : Z;
  num_x : nat;
  num_p : nat;
  point_constraints : list PointConstraint;
  min_covered : Z;
  costs : list Q;
  epsilon : Q
}.

(** ** The process and its libraries *)

(** A calendar date, the part of a [datetime] the code reads. *)
Record Date : Type := mkDate { year : Z; month : Z; day : Z }.

(** What the process finds installed, and the library functions the code
    calls whose results it cannot control. *)
Record Libraries : Type := mkLibraries {
  (** [from ortools.linear_solver import pywraplp] succeeded *)
  ORTOOLS_AVAILABLE : bool;
  (** [pywraplp.Solver.CreateSolver('CBC')] returned a solver *)
  cbc_created : bool;
  (** [solver.Solve()] and then [x[j].solution_value()] *)
  cbc_solve : MilpModel -> ResultStatus * (nat -> Q);
  (** [math.sqrt] *)
  math_sqrt : Q -> result Q;
  (** [from coverage_optimizer import ...] succeeded *)
  COVERAGE_OPTIMIZER_AVAILABLE : bool;
  (** [import ortools] succeeds *)
  ortools_importable : bool;
  (** [datetime.fromisoformat], read for its calendar date; [None] is the
      [ValueError] of a string that does not parse *)
  fromisoformat : string -> option Date
}.

(** ** Dates

    [datetime.isocalendar], after CPython's [_pydatetime.py]: ordinals count
    days from 0001-01-01 = 1, which is a Monday. *)
Definition is_leap (y : Z) : bool :=
  ((y mod 4 =? 0) && (negb (y mod 100 =? 0) || (y mod 400 =? 0)))%Z.

Definition days_before_year (y : Z) : Z :=
  (let y := y - 1 in y * 365 + y / 4 - y / 100 + y / 400)%Z.

Definition days_before_month (y m : Z) : Z :=
  (nth (Z.to_nat m) [0; 0; 31; 59; 90; 120; 151; 181; 212; 243; 273; 304; 334] 0
   + (if (2 <? m) && is_leap y then 1 else 0))%Z.

Definition ymd2ord (y m d : Z) : Z :=
  (days_before_year y + days_before_month y m + d)%Z.

Definition isoweek1monday (y : Z) : Z :=
  (let THURSDAY := 3 in
   let firstday := ymd2ord y 1 1 in
   let firstweekday := (firstday + 6) mod 7 in
   let week1monday := firstday - firstweekday in
   if THURSDAY <? firstweekday then week1monday + 7 else week1monday)%Z.

(** [(ISO year, ISO week, ISO weekday)]. *)
Definition isocalendar (d : Date) : Z * Z * Z :=
  (let y := year d in
   let week1monday := isoweek1monday y in
   let today := ymd2ord (year d) (month d) (day d) in
   let week := (today - week1monday) / 7 in
   let wday := (today - week1monday) mod 7 in
   if week <? 0 then
     let y := y - 1 in
     let week1monday := isoweek1monday y in
     (y, (today - week1monday) / 7 + 1, (today - week1monday) mod 7 + 1)
   else if (52 <=? week) && (isoweek1monday (y + 1) <=? today) then
     (y + 1, 1, wday + 1)
   else (y, week + 1, wday + 1))%Z.

(** [s.replace('Z', '+00:00')]. *)
Fixpoint replace_Z (s : string) : string :=
  match s with
  | EmptyString => EmptyString
  | String c rest =>
      if Ascii.eqb c "Z" then "+00:00" +:+ replace_Z rest
      else String c (replace_Z rest)
  end.

(** [f"{n:02d}"] for a non-negative [n]. *)
Definition format_02d (n : Z) : string :=
  if (n <? 10)%Z then "0" +:+ pretty n else pretty n.

(** [l[:n]]: a negative [n] counts from the end. *)
Definition py_slice_to {A : Type} (l : list A) (n : Z) : list A :=
  if (n <? 0)%Z then take (Z.to_nat (Z.of_nat (length l) + n)) l
  else take (Z.to_nat n) l.

(** [sorted(l, key=key, reverse=True)] and [l.sort(key=key, reverse=True)]:
    descending by key, elements of equal key in their original order. The
    element put in front of a sorted tail goes before the first element whose
    key is not larger. *)
Fixpoint insert_desc {A : Type} (key : A -> Q) (x : A) (l : list A) : list A :=
  match l with
  | [] => [x]
  | y :: l' => if Qltb (key x) (key y) then y :: insert_desc key x l'
               else x :: y :: l'
  end.

Definition sorted_reverse {A : Type} (key : A -> Q) (l : list A) : list A :=
  foldr (insert_desc key) [] l.

(** [max(x, *rest)] over an iterable and [max(x, *rest, key=key)]: the first
    of the largest elements. *)
Definition py_max_by {A : Type} (key : A -> Q) (x : A) (rest : list A) : A :=
  fold_left (fun best y => if Qgtb (key y) (key best) then y else best) rest x.

(** ** The set-cover data ([coverage_optimizer.py], lines 34-56) *)

Section Coverage.

Context {G : Type} `{Shapely G}.

Record CoverageCandidate : Type := mkCandidate {
  index : nat;                (* index in the original product list *)
  footprint : G;
  cloud_cover : Q;            (* percent, 0-100 *)
  date : string;
  quality_score : Q;          (* 0-1 *)
  covered_points : gset nat
}.

(** [solver_time_seconds] is wall-clock time and is left out. *)
Record CoverageResult : Type := mkResult {
  selected_indices : list nat;
  coverage_fraction : Q;
  uncovered_area_m2 : Q;
  num_candidates : nat;
  num_selected : nat;
  solver_type : string;
  optimal : option bool
}.

(** The cost both solvers give a candidate (lines 195-198 and 326-329). *)
Definition candidate_cost (cloud_weight quality_weight : Q)
    (candidate : CoverageCandidate) : Q :=
  let cloud_penalty := cloud_cover candidate / 100 in
  let quality_penalty := 1 - quality_score candidate in
  let cost := cloud_weight * cloud_penalty + quality_weight * quality_penalty in
  py_max cost (1 # 100).

(** ** [greedy_set_cover] (lines 140-240) *)

Section Greedy.

Variable candidates : list CoverageCandidate.
Variable coverage_sets : list (gset nat).
Variable sample_points : list Point.
Variable aoi_area_m2 : Q.
Variable min_coverage_fraction : Q.
Variable cloud_weight quality_weight : Q.

Definition total_points : nat := length sample_points.
Definition target_points : Z := py_int (Qlen total_points * min_coverage_fraction).

(** The universe of the instance: the points some coverage set holds. *)
Definition universe : gset nat := ⋃ coverage_sets.

(** The variables the while loop updates. *)
Record LoopState : Type := mkLoop {
  uncovered_points : gset nat;
  picked : list nat;          (* the local list [selected_indices] *)
  iteration : nat
}.

(** The three [best_*] variables of one pass. *)
Record Best : Type := mkBest {
  best_candidate_idx : option nat;
  best_gain_per_cost : Q;
  best_gain : nat
}.

Definition no_best : Best := mkBest None 0 0.

(** The state before the first pass: every point uncovered, nothing selected. *)
Definition initial_state : LoopState :=
  mkLoop (set_range (length sample_points)) [] 0.

(** The inner [for j, candidate in enumerate(candidates)] loop, from
    position [j] on. *)
Fixpoint best_candidate_scan (st : LoopState) (j : nat)
    (cs : list CoverageCandidate) (b : Best) : result Best :=
  match cs with
  | [] => Ok b
  | candidate :: rest =>
      if bool_decide (j ∈ picked st) then best_candidate_scan st (S j) rest b
      else
        cov ← py_index coverage_sets j;
        let marginal_gain := size (cov ∩ uncovered_points st) in
        if (marginal_gain =? 0)%nat then best_candidate_scan st (S j) rest b
        else
          let cost := candidate_cost cloud_weight quality_weight candidate in
          let gain_per_cost := Qlen marginal_gain / cost in
          if Qgtb gain_per_cost (best_gain_per_cost b)
          then best_candidate_scan st (S j) rest
                 (mkBest (Some j) gain_per_cost marginal_gain)
          else best_candidate_scan st (S j) rest b
  end.

(** The loop test, [len(uncovered_points) > total_points - target_points]. *)
Definition loop_test (st : LoopState) : bool :=
  (Z.of_nat total_points - target_points <? Z.of_nat (size (uncovered_points st)))%Z.

(** One pass of the while loop: [Ok None] when the loop is left (the test
    fails, or no candidate improves coverage and the code breaks),
    [Ok (Some st')] when a candidate was selected. *)
Definition greedy_pass (st : LoopState) : result (option LoopState) :=
  if loop_test st then
    b ← best_candidate_scan st 0 candidates no_best;
    match best_candidate_idx b with
    | None => Ok None
    | Some j =>
        cov ← py_index coverage_sets j;
        Ok (Some (mkLoop (uncovered_points st ∖ cov) (picked st ++ [j])
                         (S (iteration st))))
    end
  else Ok None.

(** Termination of the while loop: a pass that selects a candidate removes
    at least one point from [uncovered_points]. *)

(** What the scan guarantees of the candidate position it settles on. *)
Definition improves (st : LoopState) (j : nat) : Prop :=
  (j ∉ picked st) /\
  exists cov, coverage_sets !! j = Some cov /\
              size (cov ∩ uncovered_points st) <> 0%nat.

Lemma best_candidate_scan_some st cs : forall j b b' k,
  best_candidate_scan st j cs b = Ok b' ->
  best_candidate_idx b' = Some k ->
  best_candidate_idx b = Some k \/
  ((j <= k < j + length cs)%nat /\ improves st k).
Proof.
  induction cs as [|c rest IH]; intros j b b' k Hscan Hk; simpl in Hscan.
  - inversion Hscan; subst. now left.
  - assert (Hshift : forall b0, best_candidate_scan st (S j) rest b0 = Ok b' ->
              best_candidate_idx b0 = Some k \/
              ((j <= k < j + S (length rest))%nat /\ improves st k)).
    { intros b0 H0. destruct (IH _ _ _ _ H0 Hk) as [Hb|[Hr Hi]];
        [now left | right; split; [lia | exact Hi]]. }
    simpl. case_bool_decide as Hin; [now apply Hshift|].
    unfold py_index in Hscan.
    destruct (coverage_sets !! j) as [cov|] eqn:Hcov; simpl in Hscan; [|discriminate].
    destruct (Nat.eqb_spec (size (cov ∩ uncovered_points st)) 0) as [Hz|Hnz];
      [now apply Hshift|].
    destruct (Qgtb _ _); [|now apply Hshift].
    destruct (Hshift _ Hscan) as [Hb|Hr]; [|now right].
    simpl in Hb. injection Hb as <-. right. split; [lia|].
    split; [exact Hin|]. exists cov. now split.
Qed.

Lemma greedy_pass_progress st st' :
  greedy_pass st = Ok (Some st') ->
  (size (uncovered_points st') < size (uncovered_points st))%nat.
Proof.
  unfold greedy_pass. destruct (loop_test st); [|discriminate].
  destruct (best_candidate_scan st 0 candidates no_best) as [b|e] eqn:Hscan;
    simpl; [|discriminate].
  destruct (best_candidate_idx b) as [j|] eqn:Hj; [|discriminate].
  destruct (best_candidate_scan_some _ _ _ _ _ _ Hscan Hj) as [Hb|[_ [_ (cov & Hcov & Hgain)]]];
    [discriminate|].
  unfold py_index. rewrite Hcov. simpl. intros [= <-]. simpl.
  apply subset_size.
  assert (Hpos : (0 < size (cov ∩ uncovered_points st))%nat) by lia.
  apply size_pos_elem_of in Hpos. destruct Hpos as [x Hx].
  set_solver.
Qed.

(** The while loop (lines 178-220). *)
Equations? greedy_while (st : LoopState) : result LoopState
  by wf (size (uncovered_points st)) lt :=
greedy_while st with inspect (greedy_pass st) := {
  | exist _ (Ok (Some st')) Hpass => greedy_while st'
  | exist _ (Ok None) _ => Ok st
  | exist _ (Raise e) _ => Raise e }.
Proof. now apply greedy_pass_progress. Qed.

(** The number of times the body of the while loop is executed from state
    [st] on: once for every pass that selects a candidate, and once more when
    the loop is left by [break], a pass whose test holds and whose scan finds
    no candidate. Leaving the loop because the test fails executes nothing. *)
Equations? greedy_while_iterations (st : LoopState) : result nat
  by wf (size (uncovered_points st)) lt :=
greedy_while_iterations st with inspect (greedy_pass st) := {
  | exist _ (Ok (Some st')) Hpass =>
      executed ← greedy_while_iterations st'; Ok (S executed)
  | exist _ (Ok None) _ => Ok (if loop_test st then 1%nat else 0%nat)
  | exist _ (Raise e) _ => Raise e }.
Proof. now apply greedy_pass_progress. Qed.

(** The function: initial state, loop, final statistics. *)
Definition greedy_set_cover : result CoverageResult :=
  st ← greedy_while initial_state;
  uncovered_share ← py_truediv (Qlen (size (uncovered_points st))) (Qlen total_points);
  let coverage_fraction := 1 - uncovered_share in
  let uncovered_area_m2 := uncovered_share * aoi_area_m2 in
  indices ← py_comprehension (fun i => c ← py_index candidates i; Ok (index c)) (picked st);
  Ok (mkResult indices coverage_fraction uncovered_area_m2
        (length candidates) (length (picked st)) "greedy" (Some false)).

End Greedy.

(** ** [sample_points_in_polygon] (lines 58-94) *)

(** The length of [np.arange(start, stop, step)] on floats: numpy takes
    [ceil((stop - start) / step)], with the subtraction and the division of
    doubles. numpy refuses a length beyond the index range, and with it a
    quotient that is not a finite double; the model has no bound on the size
    of an array, and takes the exact ceiling for such a quotient. *)
Definition arange_length (start stop step : Q) : Z :=
  match
    double_ceil (double_div (double_sub (double_of_Q stop) (double_of_Q start))
                            (double_of_Q step))
  with
  | Some n => n
  | None => Qceiling ((stop - start) / step)
  end.

(** [np.arange(start, stop, step)] on floats: [arange_length] values
    [start + i * step] (none when that number is not positive); the division
    raises when [step] is zero. *)
Definition np_arange (start stop step : Q) : result (list Q) :=
  if Qeq_bool step 0 then Raise ZeroDivisionError
  else
    let n := Z.to_nat (arange_length start stop step) in
    Ok (map (fun i => start + Qlen i * step) (seq 0 n)).

(** The coordinate reference system is passed around and never inspected. *)
Definition CRS : Type := string.

Definition sample_points_in_polygon (aoi_polygon : G)
    (grid_spacing_meters : Q) (crs : CRS) : result (list Point) :=
  let '(minx, miny, maxx, maxy) := bounds aoi_polygon in
  x_coords ← np_arange minx maxx grid_spacing_meters;
  y_coords ← np_arange miny maxy grid_spacing_meters;
  Ok (flat_map (fun x =>
        flat_map (fun y => if covers aoi_polygon (x, y) then [(x, y)] else [])
                 y_coords)
        x_coords).

(** ** [build_coverage_matrix] (lines 97-137) *)

(** The scan of the sample points for one footprint, from position [i] on. *)
Fixpoint points_covered (footprint : G) (i : nat) (points : list Point)
    (covered : gset nat) : gset nat :=
  match points with
  | [] => covered
  | point :: rest =>
      let '(minx, miny, maxx, maxy) := bounds footprint in
      let in_bbox :=
        Qle_bool minx (fst point) && Qle_bool (fst point) maxx &&
        Qle_bool miny (snd point) && Qle_bool (snd point) maxy in
      if in_bbox && covers footprint point
      then points_covered footprint (S i) rest (covered ∪ {[i]})
      else points_covered footprint (S i) rest covered
  end.

Definition build_coverage_matrix (sample_points : list Point)
    (candidate_footprints : list G) (crs : CRS) : list (gset nat) :=
  map (fun footprint => points_covered footprint 0 sample_points ∅)
      candidate_footprints.

(** ** [optimal_set_cover_milp] (lines 243-377) *)

Section Milp.

Variable lib : Libraries.
Variable candidates : list CoverageCandidate.
Variable coverage_sets : list (gset nat).
Variable sample_points : list Point.
Variable aoi_area_m2 : Q.
Variable min_coverage_fraction : Q.
Variable cloud_weight quality_weight : Q.
Variable time_limit_seconds : Z.

(** [[j for j, cov_set in enumerate(coverage_sets) if i in cov_set]]. *)
Fixpoint covering_candidates_from (i j : nat) (sets : list (gset nat)) : list nat :=
  match sets with
  | [] => []
  | cov_set :: rest =>
      if bool_decide (i ∈ cov_set) then j :: covering_candidates_from i (S j) rest
      else covering_candidates_from i (S j) rest
  end.

(** The constraint of point [i]; [x[j]] is a [KeyError] for a [j] that is not
    a candidate position. *)
Definition point_constraint (i : nat) : result PointConstraint :=
  let covering_candidates := covering_candidates_from i 0 coverage_sets in
  match covering_candidates with
  | [] => Ok (NeverCovered i)
  | _ =>
      if forallb (fun j => j <? length candidates)%nat covering_candidates
      then Ok (CoveredIfSelected i covering_candidates)
      else Raise KeyError
  end.

Definition build_milp : result MilpModel :=
  let total_points := length sample_points in
  let target_points := py_int (Qlen total_points * min_coverage_fraction) in
  constraints ← py_comprehension point_constraint (seq 0 total_points);
  Ok (mkModel (time_limit_seconds * 1000) (length candidates) total_points
        constraints target_points
        (map (candidate_cost cloud_weight quality_weight) candidates)
        (1 # 1000000)).

(** The extraction loop [for j in range(len(candidates))], from position [j]. *)
Fixpoint extract_solution (solution_value : nat -> Q) (j : nat)
    (cs : list CoverageCandidate) (selected : list nat)
    (covered_points_set : gset nat) : result (list nat * gset nat) :=
  match cs with
  | [] => Ok (selected, covered_points_set)
  | candidate :: rest =>
      if Qgtb (solution_value j) (1 # 2) then
        cov ← py_index coverage_sets j;
        extract_solution solution_value (S j) rest
          (selected ++ [index candidate]) (covered_points_set ∪ cov)
      else extract_solution solution_value (S j) rest selected covered_points_set
  end.

(** [Ok None] is the Python [None]. *)
Definition optimal_set_cover_milp : result (option CoverageResult) :=
  if negb (ORTOOLS_AVAILABLE lib) then Ok None
  else if negb (cbc_created lib) then Ok None
  else
    model ← build_milp;
    let '(status, solution_value) := cbc_solve lib model in
    match
      match status with
      | OPTIMAL => Some true
      | FEASIBLE => Some false
      | _ => None
      end
    with
    | None => Ok None
    | Some is_optimal =>
        '(selected, covered_points_set) ←
          extract_solution solution_value 0 candidates [] ∅;
        coverage_fraction ←
          py_truediv (Qlen (size covered_points_set)) (Qlen (length sample_points));
        let uncovered_area_m2 := (1 - coverage_fraction) * aoi_area_m2 in
        Ok (Some (mkResult selected coverage_fraction uncovered_area_m2
                    (length candidates) (length selected) "milp" (Some is_optimal)))
    end.

End Milp.

(** ** Processed products

    A product dictionary, with the keys the selection code reads; a key that
    is absent (or holds [None]) is [None] here. *)
Record Product : Type := mkProduct {
  p_Name : string;
  p_cloud_cover_float : option Q;
  p_cloud_cover : option Q;
  p_aoi_coverage_pct : option Q;
  p_date_diff_days : option Q;
  p_sensing_date : option string;
  p_footprint_geom_proj : option G;
  p_date : option string;
  p_quality_score : option Q
}.

(** [d.get(key, default)]. *)
Definition get_default {A : Type} (field : option A) (default : A) : A :=
  match field with
  | Some a => a
  | None => default
  end.

(** ** [select_covering_products] (lines 380-536) *)

(** The candidate extraction loop (lines 434-464), from product position [i]. *)
Fixpoint extract_candidates (i : nat) (products : list Product)
    : list CoverageCandidate :=
  match products with
  | [] => []
  | product :: rest =>
      match p_footprint_geom_proj product with
      | None => extract_candidates (S i) rest
      | Some footprint =>
          match geom_type footprint with
          | OtherGeom => extract_candidates (S i) rest
          | _ =>
              let cloud_cover :=
                match p_cloud_cover_float product with
                | Some c => c
                | None => get_default (p_cloud_cover product) 0
                end in
              let cloud_cover := py_max 0 (py_min 100 cloud_cover) in
              mkCandidate i footprint cloud_cover
                (get_default (p_date product) "unknown")
                (get_default (p_quality_score product) 0) ∅
              :: extract_candidates (S i) rest
          end
      end
  end.

(** A product the candidate loop keeps (lines 437-446): it has a footprint,
    and the footprint is a [Polygon] or a [MultiPolygon]. *)
Definition has_polygon_footprint (product : Product) : bool :=
  match p_footprint_geom_proj product with
  | Some footprint =>
      match geom_type footprint with
      | OtherGeom => false
      | _ => true
      end
  | None => false
  end.

(** [candidate.covered_points = coverage_sets[i]] for every candidate. *)
Fixpoint attach_coverage (candidates : list CoverageCandidate)
    (coverage_sets : list (gset nat)) : result (list CoverageCandidate) :=
  match candidates with
  | [] => Ok []
  | c :: cs =>
      match coverage_sets with
      | [] => Raise IndexError
      | cov :: covs =>
          cs' ← attach_coverage cs covs;
          Ok (mkCandidate (index c) (footprint c) (cloud_cover c) (date c)
                (quality_score c) cov :: cs')
      end
  end.

(** The set-cover instance of a call: lines 416-494, everything the function
    does before it runs a solver. *)
Definition coverage_instance (lib : Libraries)
    (processed_products : list Product) (aoi_geom : G) (aoi_area_m2 : Q)
    (target_crs : CRS) (min_coverage_fraction : Q)
    (grid_spacing_meters : option Q)
    : result (list CoverageCandidate * list (gset nat) * list Point) :=
  match processed_products with
  | [] => Raise (ValueError "No products provided for coverage optimization")
  | _ =>
  match geom_type aoi_geom with
  | OtherGeom => Raise (ValueError "AOI geometry must be a Polygon or MultiPolygon")
  | kind =>
  let aoi_geom :=
    match kind with
    | MultiPolygon => unary_union aoi_geom
    | _ => aoi_geom
    end in
  grid_spacing_meters ←
    match grid_spacing_meters with
    | Some s => Ok s
    | None =>
        root ← math_sqrt lib aoi_area_m2;
        Ok (py_max 50 (py_min 200 (root / 100)))
    end;
  let candidates := extract_candidates 0 processed_products in
  let candidate_footprints := map footprint candidates in
  match candidates with
  | [] => Raise (ValueError "No valid candidates with footprint geometries")
  | _ =>
  sample_points ← sample_points_in_polygon aoi_geom grid_spacing_meters target_crs;
  match sample_points with
  | [] => Raise (ValueError "Failed to sample points in AOI")
  | _ =>
  let coverage_sets :=
    build_coverage_matrix sample_points candidate_footprints target_crs in
  candidates ← attach_coverage candidates coverage_sets;
  let all_covered_points := foldl (fun acc cov_set => acc ∪ cov_set) ∅ coverage_sets in
  max_possible_coverage ←
    py_truediv (Qlen (size all_covered_points)) (Qlen (length sample_points));
  Ok (candidates, coverage_sets, sample_points)
  end end end end.

(** The function: the instance, then the solver the strategy names
    (lines 496-536). *)
Definition select_covering_products (lib : Libraries)
    (processed_products : list Product) (aoi_geom : G) (aoi_area_m2 : Q)
    (target_crs : CRS) (strategy : string) (min_coverage_fraction : Q)
    (grid_spacing_meters : option Q) (solver_timeout : Z)
    (cloud_weight quality_weight : Q) : result CoverageResult :=
  '(candidates, coverage_sets, sample_points) ←
    coverage_instance lib processed_products aoi_geom aoi_area_m2 target_crs
      min_coverage_fraction grid_spacing_meters;
  if String.eqb strategy "coverage_greedy" then
    greedy_set_cover candidates coverage_sets sample_points aoi_area_m2
      min_coverage_fraction cloud_weight quality_weight
  else if String.eqb strategy "coverage_optimal" then
    result ← optimal_set_cover_milp lib candidates coverage_sets sample_points
               aoi_area_m2 min_coverage_fraction cloud_weight quality_weight
               solver_timeout;
    match result with
    | Some r => Ok r
    | None =>
        greedy_set_cover candidates coverage_sets sample_points aoi_area_m2
          min_coverage_fraction cloud_weight quality_weight
    end
  else Raise (ValueError "Unknown coverage strategy").

End Coverage.

(** ** [collection_core.py]: scoring and strategies *)

(** What [auto_select_products] leaves in the log and whether it called the
    coverage optimiser. *)
Inductive Event : Type :=
| LogError (msg : string)
| LogWarning (msg : string)
| CallSelectCoveringProducts.

Section Selection.

Context {G : Type} `{Shapely G}.
Variable lib : Libraries.

(** [calculate_quality_score] (lines 45-90). *)
Definition calculate_quality_score (product : Product (G:=G))
    (aoi_coverage_pct cloud_cover_pct date_diff_days max_date_diff_days : Q)
    (aoi_weight cloud_weight recency_weight : Q) : Q :=
  let aoi_score := aoi_coverage_pct / 100 in
  let cloud_score := 1 - cloud_cover_pct / 100 in
  let recency_score :=
    if Qgtb max_date_diff_days 0 then 1 - date_diff_days / max_date_diff_days
    else 1 in
  let quality_score :=
    aoi_weight * aoi_score + cloud_weight * cloud_score
    + recency_weight * recency_score in
  py_max 0 (py_min 1 quality_score).

(** [product["quality_score"] = quality_score]; the dictionary is updated in
    place, so every later reader of the product sees the score. *)
Definition set_quality_score (product : Product (G:=G)) (q : Q) : Product :=
  mkProduct (p_Name product) (p_cloud_cover_float product)
    (p_cloud_cover product) (p_aoi_coverage_pct product)
    (p_date_diff_days product) (p_sensing_date product)
    (p_footprint_geom_proj product) (p_date product) (Some q).

(** The key of the sorts, [lambda p: p.get("quality_score", 0)]. *)
Definition score_key (p : Product (G:=G)) : Q := get_default (p_quality_score p) 0.

(** The scoring loop (lines 129-142). *)
Definition score_products (aoi_weight cloud_weight recency_weight : Q)
    (first : Product) (rest : list Product) : list Product :=
  let date_diff p := get_default (p_date_diff_days p) 0 in
  let max_date_diff := py_max_by (fun x => x) (date_diff first) (map date_diff rest) in
  map (fun product =>
         set_quality_score product
           (calculate_quality_score product
              (get_default (p_aoi_coverage_pct product) 0)
              (get_default (p_cloud_cover_float product) 0)
              (date_diff product) max_date_diff
              aoi_weight cloud_weight recency_weight))
      (first :: rest).

(** The week key, [f"{sensing_date.year}-W{sensing_date.isocalendar()[1]:02d}"]. *)
Definition week_key (sensing_date : Date) : string :=
  pretty (year sensing_date) +:+ "-W"
  +:+ format_02d (snd (fst (isocalendar sensing_date))).

(** [weekly_products[week_key].append(product)] on a [defaultdict(list)];
    the dictionary keeps its keys in insertion order and no list in it is
    empty, so a group is its first product and the later ones. *)
Fixpoint weekly_append (weekly_products : list (string * (Product * list Product)))
    (key : string) (product : Product (G:=G))
    : list (string * (Product * list Product)) :=
  match weekly_products with
  | [] => [(key, (product, []))]
  | (k, (p0, ps)) :: others =>
      if String.eqb k key then (k, (p0, ps ++ [product])) :: others
      else (k, (p0, ps)) :: weekly_append others key product
  end.

(** The grouping loop (lines 164-173). *)
Definition group_by_week (sorted_products : list Product)
    : list (string * (Product * list Product)) :=
  fold_left (fun weekly_products product =>
    match p_sensing_date product with
    | None => weekly_products
    | Some "" => weekly_products
    | Some sensing_date_str =>
        match fromisoformat lib (replace_Z sensing_date_str) with
        | None => weekly_products
        | Some sensing_date =>
            weekly_append weekly_products (week_key sensing_date) product
        end
    end) sorted_products [].

(** [any(p.get("footprint_geom_proj") for p in processed_products)]. *)
Definition any_footprint (products : list (Product (G:=G))) : bool :=
  existsb (fun p => match p_footprint_geom_proj p with
                    | Some g => negb (is_empty g)
                    | None => false
                    end) products.

(** [auto_select_products] (lines 93-230): the selected products and the
    events of the call, in order. *)
Definition auto_select_products (processed_products : list Product)
    (strategy : string) (max_products : Z) (quality_threshold : Q)
    (aoi_weight cloud_weight recency_weight : Q)
    (aoi_geom : option G) (aoi_area_m2 : option Q) (target_crs : option CRS)
    (min_coverage_fraction : Q) (grid_spacing_meters : option Q)
    (solver_timeout : Z) (coverage_cloud_weight coverage_quality_weight : Q)
    : list Product * list Event :=
  match processed_products with
  | [] => ([], [])
  | first :: rest =>
  let processed_products :=
    score_products aoi_weight cloud_weight recency_weight first rest in
  let sorted_products := sorted_reverse score_key processed_products in
  if String.eqb strategy "best_n" then
    (py_slice_to sorted_products max_products, [])
  else if String.eqb strategy "all_above_threshold" then
    (List.filter (fun p => Qle_bool quality_threshold (score_key p)) sorted_products, [])
  else if String.eqb strategy "best_per_week" then
    let weekly_products := group_by_week sorted_products in
    let selected :=
      map (fun '(week, (p0, ps)) => py_max_by score_key p0 ps) weekly_products in
    (sorted_reverse score_key selected, [])
  else if String.eqb strategy "coverage_greedy"
          || String.eqb strategy "coverage_optimal" then
    if negb (COVERAGE_OPTIMIZER_AVAILABLE lib) then
      (py_slice_to sorted_products max_products,
       [LogError "Coverage optimizer not available. Falling back to best_n strategy."])
    else
    match aoi_geom, aoi_area_m2, target_crs with
    | Some aoi_geom, Some aoi_area_m2, Some target_crs =>
        if negb (any_footprint processed_products) then
          (py_slice_to sorted_products max_products,
           [LogError "Coverage strategies require footprint geometries. Falling back to best_n."])
        else
          let attempt :=
            coverage_result ←
              select_covering_products lib processed_products aoi_geom
                aoi_area_m2 target_crs strategy min_coverage_fraction
                grid_spacing_meters solver_timeout
                coverage_cloud_weight coverage_quality_weight;
            py_comprehension (py_index processed_products)
              (selected_indices coverage_result) in
          match attempt with
          | Ok selected => (selected, [CallSelectCoveringProducts])
          | Raise e =>
              (py_slice_to sorted_products max_products,
               [CallSelectCoveringProducts;
                LogError "Coverage optimization failed";
                LogWarning "Falling back to best_n strategy"])
          end
    | _, _, _ =>
        (py_slice_to sorted_products max_products,
         [LogError "Coverage strategies require AOI geometry, area, and CRS. Falling back to best_n."])
    end
  else (py_slice_to sorted_products max_products, [])
  end.

End Selection.

(** ** [config_schema.py]: [AutoSelectConfig] (lines 159-226) *)

Module ConfigSchema.

Record AutoSelectConfig : Type := mkAutoSelectConfig {
  strategy : string;
  max_products : Z;
  quality_threshold : Q;
  aoi_coverage_weight : Q;
  cloud_cover_weight : Q;
  recency_weight : Q;
  min_coverage_fraction : Q;
  grid_spacing_meters : option Q;
  solver_timeout_seconds : Z;
  coverage_cloud_weight : Q;
  coverage_quality_weight : Q
}.

(** A failed check raises [ValueError] and the later checks do not run. *)
Definition check (ok : bool) (msg : string) : result unit :=
  if ok then Ok tt else Raise (ValueError msg).

(** [__post_init__]: the dataclass is constructed exactly when this returns
    [Ok tt]. The checks are those of the rationals. *)
Definition post_init (lib : Libraries) (self : AutoSelectConfig) : result unit :=
  _ ← check (negb (max_products self <=? 0)%Z) "max_products must be positive";
  _ ← check (Qle_bool 0 (quality_threshold self) && Qle_bool (quality_threshold self) 1)
        "quality_threshold must be 0-1";
  let total_weight :=
    aoi_coverage_weight self + cloud_cover_weight self + recency_weight self in
  _ ← check (negb (Qgtb (Qabs (total_weight - 1)) (1 # 100)))
        "Quality score weights must sum to 1.0";
  _ ← check (negb (existsb (fun w => Qltb w 0)
                     [aoi_coverage_weight self; cloud_cover_weight self;
                      recency_weight self]))
        "All quality score weights must be non-negative";
  _ ← check (Qle_bool (1 # 2) (min_coverage_fraction self)
             && Qle_bool (min_coverage_fraction self) 1)
        "min_coverage_fraction must be 0.5-1.0";
  _ ← check (match grid_spacing_meters self with
             | Some s => negb (Qle_bool s 0)
             | None => true
             end)
        "grid_spacing_meters must be positive";
  _ ← check (negb (solver_timeout_seconds self <=? 0)%Z)
        "solver_timeout_seconds must be positive";
  let coverage_weight_sum := coverage_cloud_weight self + coverage_quality_weight self in
  _ ← check (negb (Qgtb (Qabs (coverage_weight_sum - 1)) (1 # 100)))
        "Coverage weights must sum to 1.0";
  _ ← check (negb (Qltb (coverage_cloud_weight self) 0
                   || Qltb (coverage_quality_weight self) 0))
        "Coverage weights must be non-negative";
  if String.eqb (strategy self) "coverage_optimal" then
    check (ortools_importable lib) "coverage_optimal strategy requires OR-Tools"
  else Ok tt.

(** The two tolerance tests as the interpreter evaluates them, on doubles:
    the sum from left to right, the subtraction, the absolute value, and the
    comparison with the double nearest to 0.01.

    [abs(total_weight - 1.0) > 0.01], lines 195-196. *)
Definition weights_off_double
    (aoi_coverage_weight cloud_cover_weight recency_weight : Q) : bool :=
  let total_weight :=
    double_add (double_add (double_of_Q aoi_coverage_weight)
                           (double_of_Q cloud_cover_weight))
               (double_of_Q recency_weight) in
  double_gtb (double_abs (double_sub total_weight (double_of_Q 1)))
             (double_of_Q (1 # 100)).

(** [abs(coverage_weight_sum - 1.0) > 0.01], lines 215-216. *)
Definition coverage_weights_off_double
    (coverage_cloud_weight coverage_quality_weight : Q) : bool :=
  let coverage_weight_sum :=
    double_add (double_of_Q coverage_cloud_weight)
               (double_of_Q coverage_quality_weight) in
  double_gtb (double_abs (double_sub coverage_weight_sum (double_of_Q 1)))
             (double_of_Q (1 # 100)).

(** [__post_init__] with the two tolerance tests on doubles. The other
    checks compare a field with 0, 0.5 or 1, which are doubles: they are the
    comparisons of the rationals. *)
Definition post_init_double (lib : Libraries) (self : AutoSelectConfig)
    : result unit :=
  _ ← check (negb (max_products self <=? 0)%Z) "max_products must be positive";
  _ ← check (Qle_bool 0 (quality_threshold self) && Qle_bool (quality_threshold self) 1)
        "quality_threshold must be 0-1";
  _ ← check (negb (weights_off_double (aoi_coverage_weight self)
                     (cloud_cover_weight self) (recency_weight self)))
        "Quality score weights must sum to 1.0";
  _ ← check (negb (existsb (fun w => Qltb w 0)
                     [aoi_coverage_weight self; cloud_cover_weight self;
                      recency_weight self]))
        "All quality score weights must be non-negative";
  _ ← check (Qle_bool (1 # 2) (min_coverage_fraction self)
             && Qle_bool (min_coverage_fraction self) 1)
        "min_coverage_fraction must be 0.5-1.0";
  _ ← check (match grid_spacing_meters self with
             | Some s => negb (Qle_bool s 0)
             | None => true
             end)
        "grid_spacing_meters must be positive";
  _ ← check (negb (solver_timeout_seconds self <=? 0)%Z)
        "solver_timeout_seconds must be positive";
  _ ← check (negb (coverage_weights_off_double (coverage_cloud_weight self)
                     (coverage_quality_weight self)))
        "Coverage weights must sum to 1.0";
  _ ← check (negb (Qltb (coverage_cloud_weight self) 0
                   || Qltb (coverage_quality_weight self) 0))
        "Coverage weights must be non-negative";
  if String.eqb (strategy self) "coverage_optimal" then
    check (ortools_importable lib) "coverage_optimal strategy requires OR-Tools"
  else Ok tt.

End ConfigSchema.

(** ** Instances for the examples *)

(** Axis-parallel rectangles [[x0, x1] x [y0, y1]] as polygons, with closed
    containment. *)
Record Rect : Type := mkRect { rx0 : Q; ry0 : Q; rx1 : Q; ry1 : Q }.

#[global] Instance Rect_shapely : Shapely Rect := {|
  geom_type := fun _ => Polygon;
  bounds := fun r => (rx0 r, ry0 r, rx1 r, ry1 r);
  covers := fun r p =>
    Qle_bool (rx0 r) (fst p) && Qle_bool (fst p) (rx1 r) &&
    Qle_bool (ry0 r) (snd p) && Qle_bool (snd p) (ry1 r);
  is_empty := fun _ => false;
  unary_union := fun r => r
|}.

(** A date reader for strings that start [YYYY-MM-DD]; what follows the date
    is not looked at. *)
Definition digit (c : ascii) : option Z :=
  let n := Z.of_nat (nat_of_ascii c) in
  if ((48 <=? n) && (n <=? 57))%Z then Some (n - 48)%Z else None.

Definition days_in_month (y m : Z) : Z :=
  (if (m =? 2) && is_leap y then 29
   else nth (Z.to_nat m) [0; 31; 28; 31; 30; 31; 30; 31; 31; 30; 31; 30; 31] 0)%Z.

Definition iso_date_prefix (s : string) : option Date :=
  match s with
  | String y1 (String y2 (String y3 (String y4 (String "-"
      (String m1 (String m2 (String "-" (String d1 (String d2 _))))))))) =>
      match digit y1, digit y2, digit y3, digit y4,
            digit m1, digit m2, digit d1, digit d2 with
      | Some a, Some b, Some c, Some d, Some e, Some f, Some g, Some h =>
          let y := (a * 1000 + b * 100 + c * 10 + d)%Z in
          let m := (e * 10 + f)%Z in
          let dd := (g * 10 + h)%Z in
          if ((1 <=? y) && (1 <=? m) && (m <=? 12) && (1 <=? dd)
              && (dd <=? days_in_month y m))%Z
          then Some (mkDate y m dd) else None
      | _, _, _, _, _, _, _, _ => None
      end
  | _ => None
  end.

(** A process without OR-Tools. *)
Definition lib_without_ortools : Libraries :=
  mkLibraries false false (fun _ => (NOT_SOLVED, fun _ => 0))
    (fun x => Ok (inject_Z (Z.sqrt (Qfloor x)))) true false iso_date_prefix.

(** A process whose solver reports every program infeasible. *)
Definition lib_infeasible : Libraries :=
  mkLibraries true true (fun _ => (INFEASIBLE, fun _ => 0))
    (fun x => Ok (inject_Z (Z.sqrt (Qfloor x)))) true true iso_date_prefix.

(** A process whose solver selects every candidate and calls that optimal. *)
Definition lib_select_all : Libraries :=
  mkLibraries true true (fun _ => (OPTIMAL, fun _ => 1))
    (fun x => Ok (inject_Z (Z.sqrt (Qfloor x)))) true true iso_date_prefix.

(** Three sample points and three candidates of equal cost, one point each. *)
Definition three_points : list Point := [(0, 0); (0, 5); (5, 0)].
Definition three_candidates : list (CoverageCandidate (G:=Rect)) :=
  [mkCandidate 0 (mkRect 0 0 1 1) 0 "2024-01-01" 1 ∅;
   mkCandidate 1 (mkRect 0 0 1 1) 0 "2024-01-02" 1 ∅;
   mkCandidate 2 (mkRect 0 0 1 1) 0 "2024-01-03" 1 ∅].
Definition three_sets : list (gset nat) := [{[0%nat]}; {[1%nat]}; {[2%nat]}].

(** One candidate that covers the first of two sample points. *)
Definition two_points : list Point := [(0, 0); (0, 5)].
Definition one_candidate : list (CoverageCandidate (G:=Rect)) :=
  [mkCandidate 0 (mkRect 0 0 1 1) 0 "2024-01-01" 1 ∅].
Definition one_set : list (gset nat) := [{[0%nat]}].

(** A product with the fields of a processed product. *)
Definition product (name : string) (cloud aoi : Q) (sensing_date : string)
    (footprint : option Rect) : Product :=
  mkProduct name (Some cloud) None (Some aoi) (Some 0) (Some sensing_date)
    footprint None None.

(** The square of side 10 at the origin. *)
Definition square10 : Rect := mkRect 0 0 10 10.

(** Three products of equal quality score under the default weights
    (0.4, 0.4, 0.2): the first has no footprint, lower AOI coverage and no
    clouds; the other two cover the square. Their sensing dates are Monday
    2024-01-01, Monday 2024-12-30 and Wednesday 2025-01-01. *)
Definition product_january : Product :=
  product "S2A_MSIL2A_20240101" 0 50 "2024-01-01T10:00:00.000Z" None.
Definition product_december : Product :=
  product "S2B_MSIL2A_20241230" 50 100 "2024-12-30T10:00:00.000Z" (Some square10).
Definition product_new_year : Product :=
  product "S2A_MSIL2A_20250101" 50 100 "2025-01-01T10:00:00.000Z" (Some square10).


(** ** [config_schema.py]: [ScheduleConfig] (lines 17-88) and
    [SchedulerConfig] (lines 264-285); [scheduler.py]: [setup_jobs] and the
    triggers (lines 79-204) *)

(** Exceptions beyond the ones the selection code raises. [SystemExit] is
    not an [Exception]: an [except Exception] clause lets it pass. *)
Inductive py_error : Type :=
| Builtin (e : exn)
| AttributeError
| TypeError (msg : string)
| SystemExit (code : Z)
| OtherException (msg : string).

Definition is_exception (e : py_error) : bool :=
  match e with
  | SystemExit _ => false
  | _ => true
  end.

Inductive attempt (A : Type) : Type :=
| Fine (a : A)
| Fails (e : py_error).
Arguments Fine {A} a.
Arguments Fails {A} e.

#[global] Instance attempt_ret : MRet attempt := fun A a => Fine a.
#[global] Instance attempt_bind : MBind attempt := fun A B k r =>
  match r with
  | Fine a => k a
  | Fails e => Fails e
  end.

(** A call that raises only the exceptions of [exn]. *)
Definition of_result {A : Type} (r : result A) : attempt A :=
  match r with
  | Ok a => Fine a
  | Raise e => Fails (Builtin e)
  end.

(** The string methods the code calls whose results depend on Python's
    Unicode tables and number syntax. *)
Record Strings : Type := mkStrings {
  (** [s.lower()] *)
  str_lower : string -> string;
  (** [int(s)]; it raises [ValueError] on a string that is no integer *)
  str_int : string -> result Z;
  (** [s.split()] *)
  str_split : string -> list string
}.

(** [s.split(sep)] for a separator of one character. *)
Fixpoint py_split_char (sep : ascii) (s : string) : list string :=
  match s with
  | EmptyString => [EmptyString]
  | String c rest =>
      if Ascii.eqb c sep then EmptyString :: py_split_char sep rest
      else match py_split_char sep rest with
           | part :: parts => String c part :: parts
           | [] => [String c EmptyString]
           end
  end.

(** The character class [[lo-hi]]. *)
Definition in_class (lo hi c : ascii) : bool :=
  (nat_of_ascii lo <=? nat_of_ascii c)%nat && (nat_of_ascii c <=? nat_of_ascii hi)%nat.

Definition newline : string := String (ascii_of_nat 10) EmptyString.

Module Scheduling.

(** [re.match(r'^([0-1][0-9]|2[0-3]):[0-5][0-9]$', time_str)]: [$] matches at
    the end of the string and before a newline that ends the string. *)
Definition time_format_matches (time_str : string) : bool :=
  match time_str with
  | String h1 (String h2 (String colon (String m1 (String m2 rest)))) =>
      ((in_class "0" "1" h1 && in_class "0" "9" h2)
       || (Ascii.eqb h1 "2" && in_class "0" "3" h2))
      && Ascii.eqb colon ":"
      && in_class "0" "5" m1 && in_class "0" "9" m2
      && (String.eqb rest EmptyString || String.eqb rest newline)
  | _ => false
  end.

(** [day_of_week] is a day name or a number, as a string or as an integer. *)
Inductive DayOfWeek : Type :=
| DayStr (s : string)
| DayInt (n : Z).

Record ScheduleConfig : Type := mkScheduleConfig {
  type : string;
  month : option Z;
  day : option Z;
  day_of_week : option DayOfWeek;
  time : string;
  cron : option string
}.

Definition valid_days : list string :=
  ["monday"; "tuesday"; "wednesday"; "thursday"; "friday"; "saturday"; "sunday"].

Definition check (ok : bool) (msg : string) : result unit :=
  if ok then Ok tt else Raise (ValueError msg).

Section WithStrings.

Variable strs : Strings.

Definition validate_time_format (time_str : string) : result unit :=
  check (time_format_matches time_str)
    ("Invalid time format '" +:+ time_str +:+ "', expected HH:MM (24-hour)").

Definition validate_cron (cron_expr : string) : result unit :=
  let parts := str_split strs cron_expr in
  check (length parts =? 5)%nat
    ("Cron expression must have 5 parts, got " +:+ pretty (length parts)
     +:+ ": " +:+ cron_expr).

Definition check_day (d : Z) : result unit :=
  check ((1 <=? d) && (d <=? 31))%Z ("Day must be 1-31, got " +:+ pretty d).

(** [ScheduleConfig.__post_init__]. In the weekly branch the [ValueError] of
    an out-of-range number is raised inside the [try] and replaced, like that
    of [int], by the one of the [except] clause. *)
Definition post_init (self : ScheduleConfig) : result unit :=
  _ ← (if String.eqb (type self) "yearly" then
         match month self, day self with
         | Some m, Some d =>
             _ ← check ((1 <=? m) && (m <=? 12))%Z
                   ("Month must be 1-12, got " +:+ pretty m);
             check_day d
         | _, _ => Raise (ValueError "Yearly schedule requires 'month' and 'day'")
         end
       else if String.eqb (type self) "monthly" then
         match day self with
         | Some d => check_day d
         | None => Raise (ValueError "Monthly schedule requires 'day'")
         end
       else if String.eqb (type self) "weekly" then
         match day_of_week self with
         | None => Raise (ValueError "Weekly schedule requires 'day_of_week'")
         | Some (DayStr s) =>
             if bool_decide (str_lower strs s ∈ valid_days) then Ok tt
             else
               match str_int strs s with
               | Ok day_num =>
                   if ((0 <=? day_num) && (day_num <=? 6))%Z then Ok tt
                   else Raise (ValueError ("Invalid day_of_week: " +:+ s))
               | Raise (ValueError _) =>
                   Raise (ValueError ("Invalid day_of_week: " +:+ s))
               | Raise e => Raise e
               end
         | Some (DayInt _) => Ok tt
         end
       else if String.eqb (type self) "custom" then
         match cron self with
         | Some c => validate_cron c
         | None => Raise (ValueError "Custom schedule requires 'cron' expression")
         end
       else Ok tt);
  validate_time_format (time self).

(** The keyword arguments of a [CronTrigger(...)] call; an argument that is
    not passed is [None]. *)
Inductive CronValue : Type :=
| CronInt (n : Z)
| CronExpr (s : string).

Record CronArgs : Type := mkCronArgs {
  cron_month : option CronValue;
  cron_day : option CronValue;
  cron_day_of_week : option CronValue;
  cron_hour : option CronValue;
  cron_minute : option CronValue
}.

(** APScheduler's [CronTrigger(...)]: the trigger it builds from the
    arguments, or what it raises. *)
Variable Trigger : Type.
Variable cron_trigger : CronArgs -> attempt Trigger.

(** [hour, minute = map(int, schedule.time.split(':'))]: the parts are
    converted one by one while they are unpacked, and a third part is
    converted before the unpacking fails on it. *)
Definition unpack_hour_minute (time_str : string) : result (Z * Z) :=
  match py_split_char ":" time_str with
  | [] => Raise (ValueError "not enough values to unpack (expected 2, got 0)")
  | [h] =>
      _ ← str_int strs h;
      Raise (ValueError "not enough values to unpack (expected 2, got 1)")
  | h :: m :: rest =>
      hour ← str_int strs h;
      minute ← str_int strs m;
      match rest with
      | [] => Ok (hour, minute)
      | third :: _ =>
          _ ← str_int strs third;
          Raise (ValueError "too many values to unpack (expected 2)")
      end
  end.

Definition create_yearly_trigger (month day : option Z) (hour minute : Z)
    : attempt Trigger :=
  cron_trigger
    (mkCronArgs (CronInt <$> month) (CronInt <$> day) None
       (Some (CronInt hour)) (Some (CronInt minute))).

Definition create_monthly_trigger (day : option Z) (hour minute : Z)
    : attempt Trigger :=
  cron_trigger
    (mkCronArgs None (CronInt <$> day) None
       (Some (CronInt hour)) (Some (CronInt minute))).

Definition day_map : list (string * Z) :=
  [("monday", 0); ("tuesday", 1); ("wednesday", 2); ("thursday", 3);
   ("friday", 4); ("saturday", 5); ("sunday", 6)]%Z.

(** [day_map[key]] for a key that is in the dictionary. *)
Definition day_map_get (key : string) : option Z :=
  snd <$> List.find (fun entry => String.eqb (fst entry) key) day_map.

(** The day number of [_create_weekly_trigger]. *)
Definition weekly_day_num (day_of_week : option DayOfWeek)
    : result (option CronValue) :=
  match day_of_week with
  | Some (DayStr s) =>
      match day_map_get (str_lower strs s) with
      | Some n => Ok (Some (CronInt n))
      | None =>
          match str_int strs s with
          | Ok n => Ok (Some (CronInt n))
          | Raise (ValueError _) =>
              Raise (ValueError ("Invalid day_of_week: " +:+ s))
          | Raise e => Raise e
          end
      end
  | Some (DayInt n) => Ok (Some (CronInt n))
  | None => Ok None
  end.

Definition create_weekly_trigger (day_of_week : option DayOfWeek)
    (hour minute : Z) : attempt Trigger :=
  day_num ← of_result (weekly_day_num day_of_week);
  cron_trigger
    (mkCronArgs None None day_num (Some (CronInt hour)) (Some (CronInt minute))).

Definition create_custom_trigger (cron_expr : string) : attempt Trigger :=
  match str_split strs cron_expr with
  | [minute; hour; day; month; day_of_week] =>
      cron_trigger
        (mkCronArgs (Some (CronExpr month)) (Some (CronExpr day))
           (Some (CronExpr day_of_week)) (Some (CronExpr hour))
           (Some (CronExpr minute)))
  | _ => Fails (Builtin (ValueError ("Invalid cron expression: " +:+ cron_expr)))
  end.

(** [_create_trigger], on the schedule of the job. A custom schedule without
    a cron expression calls [None.split()]. *)
Definition create_trigger (schedule : ScheduleConfig) : attempt Trigger :=
  '(hour, minute) ← of_result (unpack_hour_minute (time schedule));
  if String.eqb (type schedule) "yearly" then
    create_yearly_trigger (month schedule) (day schedule) hour minute
  else if String.eqb (type schedule) "monthly" then
    create_monthly_trigger (day schedule) hour minute
  else if String.eqb (type schedule) "weekly" then
    create_weekly_trigger (day_of_week schedule) hour minute
  else if String.eqb (type schedule) "custom" then
    match cron schedule with
    | Some cron_expr => create_custom_trigger cron_expr
    | None => Fails AttributeError
    end
  else Fails (Builtin (ValueError ("Unknown schedule type: " +:+ type schedule))).

(** A [CollectionJobConfig], with the fields the scheduler reads when it
    sets the jobs up. *)
Record CollectionJobConfig : Type := mkCollectionJobConfig {
  name : string;
  schedule : ScheduleConfig;
  enabled : bool
}.

Record SchedulerConfig : Type := mkSchedulerConfig {
  jobs : list CollectionJobConfig;
  max_concurrent_jobs : Z;
  job_coalesce : bool;
  job_max_instances : Z
}.

(** [SchedulerConfig.__post_init__]; the message of the duplicate check
    goes on with the list of the duplicates. *)
Definition scheduler_post_init (self : SchedulerConfig) : result unit :=
  _ ← check (negb (bool_decide (jobs self = [])))
        "At least one job must be configured";
  let names := name <$> jobs self in
  _ ← check (length names =? size (list_to_set names : gset string))%nat
        "Duplicate job names found";
  _ ← check (negb (max_concurrent_jobs self <=? 0)%Z)
        ("max_concurrent_jobs must be positive, got "
         +:+ pretty (max_concurrent_jobs self));
  check (negb (job_max_instances self <=? 0)%Z)
    ("job_max_instances must be positive, got " +:+ pretty (job_max_instances self)).

(** What [setup_jobs] does for the jobs, in order. *)
Inductive SetupEvent : Type :=
| AddJob (id : string) (trigger : Trigger)
| LogInfo (msg : string)
| LogFailure (msg : string).

(** The loop of [setup_jobs] (lines 103-120), from the first job that is
    left. An error that is no [Exception] ends the loop and the function. *)
Fixpoint setup_jobs_loop (jobs : list CollectionJobConfig)
    : list SetupEvent * option py_error :=
  match jobs with
  | [] => ([], None)
  | job_config :: rest =>
      if negb (enabled job_config) then
        let '(events, err) := setup_jobs_loop rest in
        (LogInfo ("Skipping disabled job: " +:+ name job_config) :: events, err)
      else
        match create_trigger (schedule job_config) with
        | Fine trigger =>
            let '(events, err) := setup_jobs_loop rest in
            (AddJob (name job_config) trigger
             :: LogInfo ("Added job: " +:+ name job_config +:+ " with schedule: "
                         +:+ type (schedule job_config))
             :: events, err)
        | Fails e =>
            if is_exception e then
              let '(events, err) := setup_jobs_loop rest in
              (LogFailure ("Failed to add job " +:+ name job_config) :: events, err)
            else ([], Some e)
        end
  end.

Definition setup_jobs (config : SchedulerConfig) : list SetupEvent * option py_error :=
  setup_jobs_loop (jobs config).

End WithStrings.

End Scheduling.

(** Strings as far as the examples need them: ASCII lower case, decimal
    numbers of one or two digits with an optional final newline, and
    splitting at single spaces. *)
Definition ascii_lower (c : ascii) : ascii :=
  let n := nat_of_ascii c in
  if ((65 <=? n) && (n <=? 90))%nat then ascii_of_nat (n + 32) else c.

Fixpoint string_lower (s : string) : string :=
  match s with
  | EmptyString => EmptyString
  | String c rest => String (ascii_lower c) (string_lower rest)
  end.

Definition short_int (s : string) : result Z :=
  let invalid := Raise (ValueError "invalid literal for int() with base 10") in
  match s with
  | String a rest =>
      match digit a with
      | None => invalid
      | Some x =>
          if String.eqb rest EmptyString || String.eqb rest newline then Ok x
          else
            match rest with
            | String b rest' =>
                match digit b with
                | Some y =>
                    if String.eqb rest' EmptyString || String.eqb rest' newline
                    then Ok (10 * x + y)%Z else invalid
                | None => invalid
                end
            | EmptyString => invalid
            end
      end
  | EmptyString => invalid
  end.

Definition ascii_strings : Strings :=
  mkStrings string_lower short_int
    (fun s => List.filter (fun part => negb (String.eqb part EmptyString))
                (py_split_char " " s)).

(** ** [collection_core.py]: [run_collection] (lines 262-581) *)

(** What a call into the network, the file system or another module can
    do: return, raise an [Exception] [e], given by [str(e)], or leave the
    process with [sys.exit]. *)
Inductive external (A : Type) : Type :=
| Returns (a : A)
| RaisesException (text : string)
| Exits (code : Z).
Arguments Returns {A} a.
Arguments RaisesException {A} text.
Arguments Exits {A} code.

#[global] Instance external_ret : MRet external := fun A a => Returns a.
#[global] Instance external_bind : MBind external := fun A B k r =>
  match r with
  | Returns a => k a
  | RaisesException text => RaisesException text
  | Exits code => Exits code
  end.

(** The parameters of a function defined without [*args] and [**kwargs]:
    their names in order, and whether they have a default. *)
Definition Signature : Type := list (string * bool).

(** Python's binding of the arguments of a call [f(a, ..., k=v, ...)] to the
    parameters, for the number of positional arguments and the keywords of
    the call: [TypeError] for too many positional arguments, for a keyword
    that is no parameter, for a parameter given twice and for a parameter
    without default that is not given. The [TypeError] is given by its
    text; the texts of too many and of missing arguments are cut short. *)
Definition bind_arguments (function_name : string) (signature : Signature)
    (positional : nat) (keywords : list string) : external unit :=
  let names := fst <$> signature in
  if (length names <? positional)%nat then
    RaisesException (function_name +:+ "() takes " +:+ pretty (length names)
                     +:+ " positional arguments but " +:+ pretty positional
                     +:+ " were given")
  else
    match List.find (fun k => negb (bool_decide (k ∈ names))) keywords with
    | Some k =>
        RaisesException (function_name +:+ "() got an unexpected keyword argument '"
                         +:+ k +:+ "'")
    | None =>
        match List.find (fun k => bool_decide (k ∈ take positional names)) keywords with
        | Some k =>
            RaisesException (function_name +:+ "() got multiple values for argument '"
                             +:+ k +:+ "'")
        | None =>
            match List.filter
                    (fun '(p, has_default) =>
                       negb has_default && negb (bool_decide (p ∈ keywords)))
                    (drop positional signature) with
            | [] => Returns tt
            | _ =>
                RaisesException (function_name
                                 +:+ "() missing required positional arguments")
            end
        end
    end.

(** [collector.build_odata_query] (collector.py, lines 193-200). *)
Definition build_odata_query_signature : Signature :=
  [("aoi_wkt", false); ("start_date_str", false); ("end_date_str", false);
   ("max_cloud_cover", true); ("product_level", true); ("satellite", true)].

Record CollectionResult : Type := mkCollectionResult {
  success : bool;
  downloaded_products : list string;
  errors : list string;
  message : string;
  total_products_found : nat;
  total_products_filtered : nat
}.

Section RunCollection.

(** An access token, the WKT of an AOI and its [GeoDataFrame]. *)
Variables Token Wkt Gdf : Type.

(** The functions of [collector.py] that [run_collection] calls before the
    query. [load_aoi_data] returns a pair, of [None]s when it fails. *)
Variable get_access_token : external Token.
Variable load_aoi_data : string -> external (option Wkt * option Gdf).

(** [build_odata_query] once its arguments are bound, and the lines of the
    [try] block after the query (339-568): the result they return or what
    they raise, and the products downloaded when they raise. *)
Variable build_odata_query : Wkt -> string -> string -> string -> external string.
Variable after_query :
  Token -> Gdf -> string -> list string * external CollectionResult.

(** [run_collection]: the [try] block, then the [except Exception] clause.
    The selection and download parameters are read after the query only. *)
Definition run_collection (aoi_path start_date end_date product_level : string)
    : external CollectionResult :=
  let try_block : list string * external CollectionResult :=
    match get_access_token with
    | Returns access_token =>
        match load_aoi_data aoi_path with
        | Returns (Some aoi_wkt, Some aoi_gdf) =>
            match
              _ ← bind_arguments "build_odata_query" build_odata_query_signature 0
                    ["aoi_wkt"; "start_date"; "end_date"; "product_level"];
              build_odata_query aoi_wkt start_date end_date product_level
            with
            | Returns odata_query => after_query access_token aoi_gdf odata_query
            | RaisesException text => ([], RaisesException text)
            | Exits code => ([], Exits code)
            end
        | Returns (_, _) =>
            ([], Returns (mkCollectionResult false [] ["Failed to load AOI data"]
                            ("Failed to load AOI from " +:+ aoi_path) 0 0))
        | RaisesException text => ([], RaisesException text)
        | Exits code => ([], Exits code)
        end
    | RaisesException text => ([], RaisesException text)
    | Exits code => ([], Exits code)
    end in
  match try_block with
  | (_, Returns result) => Returns result
  | (downloaded_products, RaisesException text) =>
      let error_msg := "Collection failed: " +:+ text in
      Returns (mkCollectionResult false downloaded_products [error_msg] error_msg 0 0)
  | (_, Exits code) => Exits code
  end.

End RunCollection.

(** ** [collector.py]: [get_utm_crs] (lines 283-305) *)

Fixpoint zeros (n : nat) : string :=
  match n with
  | O => EmptyString
  | Datatypes.S n' => String "0" (zeros n')
  end.

(** [s.zfill(width)]: zeros on the left, after a sign if there is one. *)
Definition zfill (width : nat) (s : string) : string :=
  let padding := zeros (width - String.length s) in
  match s with
  | String c rest =>
      if Ascii.eqb c "+" || Ascii.eqb c "-" then String c (padding +:+ rest)
      else padding +:+ s
  | EmptyString => padding
  end.

(** [pyproj.CRS(code)] is given by whether it accepts the code; the
    function's result is the code of the CRS it returns. *)
Definition get_utm_crs (crs_known : string -> bool) (lon lat : Q) : string :=
  let utm_band := zfill 2 (pretty (Qfloor ((lon + 180) / 6) + 1)%Z) in
  let epsg_code :=
    if Qle_bool 0 lat then "326" +:+ utm_band else "327" +:+ utm_band in
  if crs_known ("EPSG:" +:+ epsg_code) then "EPSG:" +:+ epsg_code
  else "EPSG:3857".


(** * Properties *)

(** ** Rational comparisons *)

Lemma Qgtb_true a b : Qgtb a b = true <-> b < a.
Proof.
  unfold Qgtb. rewrite negb_true_iff. split.
  - intros Hle. apply Qnot_le_lt. intros Hab.
    apply Qle_bool_iff in Hab. congruence.
  - intros Hlt. destruct (Qle_bool a b) eqn:E; [|reflexivity].
    apply Qle_bool_iff in E. exfalso. exact (Qlt_not_le _ _ Hlt E).
Qed.

Lemma Qgtb_false a b : Qgtb a b = false <-> a <= b.
Proof.
  unfold Qgtb. rewrite negb_false_iff. apply Qle_bool_iff.
Qed.

Lemma Qltb_true a b : Qltb a b = true <-> a < b.
Proof. apply Qgtb_true. Qed.

Lemma Qltb_false a b : Qltb a b = false <-> b <= a.
Proof. apply Qgtb_false. Qed.

Lemma py_max_ge_r a b : b <= py_max a b.
Proof.
  unfold py_max. destruct (Qgtb b a) eqn:E; [apply Qle_refl|].
  now apply Qgtb_false in E.
Qed.

Lemma Qlen_pos n : (0 < n)%nat -> 0 < Qlen n.
Proof.
  intros Hn. unfold Qlen, Qlt. simpl. lia.
Qed.

Lemma Qlen_nonzero n : (0 < n)%nat -> Qeq_bool (Qlen n) 0 = false.
Proof.
  intros Hn. destruct (Qeq_bool (Qlen n) 0) eqn:E; [|reflexivity].
  apply Qeq_bool_iff in E. apply Qlen_pos in Hn. rewrite E in Hn.
  now apply Qlt_irrefl in Hn.
Qed.

Lemma py_int_floor x : 0 <= x -> py_int x = Qfloor x.
Proof.
  destruct x as [n d]. unfold py_int, Qle. simpl. intros Hn.
  apply Z.quot_div_nonneg; lia.
Qed.

Lemma py_int_nonpos x : x <= 0 -> (py_int x <= 0)%Z.
Proof.
  destruct x as [n d]. unfold py_int, Qle. simpl. intros Hn.
  destruct (Z.mul_quot_ge n (Zpos d)) as [_ Hq]; [lia..|]. nia.
Qed.

Lemma py_int_le_Z x z : x <= inject_Z z -> (0 <= z)%Z -> (py_int x <= z)%Z.
Proof.
  intros Hx Hz. destruct (Qlt_le_dec x 0) as [Hneg|Hpos].
  - pose proof (py_int_nonpos x (Qlt_le_weak _ _ Hneg)). lia.
  - rewrite (py_int_floor x Hpos). rewrite <- (Qfloor_Z z).
    now apply Qfloor_resp_le.
Qed.

Lemma py_int_ge_Z x z : inject_Z z <= x -> 0 <= x -> (z <= py_int x)%Z.
Proof.
  intros Hz Hx. rewrite (py_int_floor x Hx). rewrite <- (Qfloor_Z z).
  now apply Qfloor_resp_le.
Qed.

(** ** The greedy solver *)

Section GreedyFacts.

Context {G : Type}.
Variable candidates : list (CoverageCandidate (G:=G)).
Variable coverage_sets : list (gset nat).
Variable sample_points : list Point.
Variable aoi_area_m2 : Q.
Variable min_coverage_fraction : Q.
Variable cloud_weight quality_weight : Q.

Abbreviation scan :=
  (best_candidate_scan (G:=G) coverage_sets cloud_weight quality_weight).
Abbreviation pass :=
  (greedy_pass candidates coverage_sets sample_points min_coverage_fraction
     cloud_weight quality_weight).
Abbreviation while :=
  (greedy_while candidates coverage_sets sample_points min_coverage_fraction
     cloud_weight quality_weight).
Abbreviation iterations :=
  (greedy_while_iterations candidates coverage_sets sample_points
     min_coverage_fraction cloud_weight quality_weight).
Abbreviation N := (length candidates).
Abbreviation M := (length sample_points).
Abbreviation target :=
  (target_points sample_points min_coverage_fraction).

Lemma candidate_cost_pos (c : CoverageCandidate (G:=G)) :
  0 < candidate_cost cloud_weight quality_weight c.
Proof.
  unfold candidate_cost. eapply Qlt_le_trans; [|apply py_max_ge_r].
  reflexivity.
Qed.

Lemma gain_per_cost_pos n (c : CoverageCandidate (G:=G)) :
  n <> 0%nat -> 0 < Qlen n / candidate_cost cloud_weight quality_weight c.
Proof.
  intros Hn. apply Qlt_shift_div_l; [apply candidate_cost_pos|].
  rewrite Qmult_0_l. apply Qlen_pos. lia.
Qed.

(** The loop as an equation. *)
Lemma greedy_while_eq st :
  while st = match pass st with
             | Ok (Some st') => while st'
             | Ok None => Ok st
             | Raise e => Raise e
             end.
Proof.
  rewrite greedy_while_equation_1. unfold inspect.
  generalize (@eq_refl _ (pass st)).
  generalize (pass st) at 2 4 5.
  intros r e. destruct r as [[st'|]|e0]; reflexivity.
Qed.

(** Loop invariants: what holds of the state before the loop and is kept by
    every selecting pass holds when the loop is left, and there the next
    pass leaves the loop. *)
Lemma greedy_while_invariant (P : LoopState -> Prop) :
  (forall st st', P st -> pass st = Ok (Some st') -> P st') ->
  forall st stf, P st -> while st = Ok stf -> P stf /\ pass stf = Ok None.
Proof.
  intros Hstep st.
  remember (size (uncovered_points st)) as n eqn:Hn.
  revert st Hn. induction n as [n IH] using lt_wf_ind.
  intros st Hn stf HP Hrun. rewrite greedy_while_eq in Hrun.
  destruct (pass st) as [[st'|]|e] eqn:Hpass; [| |discriminate].
  - eapply (IH (size (uncovered_points st'))); eauto.
    subst n. eapply greedy_pass_progress; eauto.
  - injection Hrun as <-. auto.
Qed.

(** A loop whose passes do not raise returns. *)
Lemma greedy_while_returns (P : LoopState -> Prop) :
  (forall st st', P st -> pass st = Ok (Some st') -> P st') ->
  (forall st, P st -> exists o, pass st = Ok o) ->
  forall st, P st -> exists stf, while st = Ok stf.
Proof.
  intros Hstep Hok st.
  remember (size (uncovered_points st)) as n eqn:Hn.
  revert st Hn. induction n as [n IH] using lt_wf_ind.
  intros st Hn HP. rewrite greedy_while_eq.
  destruct (Hok st HP) as [[st'|] Hpass]; rewrite Hpass; [|eauto].
  eapply (IH (size (uncovered_points st'))); eauto.
  subst n. eapply greedy_pass_progress; eauto.
Qed.

Lemma best_candidate_scan_keeps st cs : forall j b b',
  scan st j cs b = Ok b' ->
  is_Some (best_candidate_idx b) -> is_Some (best_candidate_idx b').
Proof.
  induction cs as [|c rest IH]; intros j b b' Hscan Hb; simpl in Hscan.
  - now injection Hscan as <-.
  - case_bool_decide; [eauto|].
    destruct (py_index coverage_sets j) as [cov|] eqn:Hcov; simpl in Hscan;
      [|discriminate].
    destruct (Nat.eqb _ 0); [eauto|].
    destruct (Qgtb _ _); [|eauto].
    eapply IH; [exact Hscan|]. simpl. eauto.
Qed.

(** When the scan settles on no candidate, every position is already picked
    or adds no uncovered point. *)
Lemma best_candidate_scan_none st cs : forall j b b',
  (best_candidate_idx b = None -> best_gain_per_cost b <= 0) ->
  scan st j cs b = Ok b' ->
  best_candidate_idx b' = None ->
  forall k, (j <= k < j + length cs)%nat ->
    k ∈ picked st \/
    exists cov, coverage_sets !! k = Some cov /\
                size (cov ∩ uncovered_points st) = 0%nat.
Proof.
  induction cs as [|c rest IH]; intros j b b' Hb Hscan Hnone k Hk;
    simpl in *; [lia|].
  assert (Hrest : forall b0, (best_candidate_idx b0 = None -> best_gain_per_cost b0 <= 0) ->
            scan st (S j) rest b0 = Ok b' -> k <> j ->
            k ∈ picked st \/
            exists cov, coverage_sets !! k = Some cov /\
                        size (cov ∩ uncovered_points st) = 0%nat).
  { intros b0 Hb0 H0 Hne. eapply IH; eauto. lia. }
  case_bool_decide as Hin.
  { destruct (Nat.eq_dec k j) as [->|Hne]; [now left|eauto]. }
  unfold py_index in Hscan.
  destruct (coverage_sets !! j) as [cov|] eqn:Hcov; simpl in Hscan; [|discriminate].
  destruct (Nat.eqb_spec (size (cov ∩ uncovered_points st)) 0) as [Hz|Hnz].
  { destruct (Nat.eq_dec k j) as [->|Hne]; [right; eauto|eauto]. }
  destruct (Qgtb _ _) eqn:Hgt.
  - exfalso. apply best_candidate_scan_keeps in Hscan; [|simpl; eauto].
    rewrite Hnone in Hscan. now destruct Hscan.
  - exfalso. apply Qgtb_false in Hgt.
    destruct (best_candidate_idx b) eqn:Hidx.
    + apply best_candidate_scan_keeps in Hscan; [|rewrite Hidx; eauto].
      rewrite Hnone in Hscan. now destruct Hscan.
    + pose proof (gain_per_cost_pos _ c Hnz) as Hpos.
      pose proof (Hb eq_refl) as Hle.
      apply (Qlt_irrefl 0). eapply Qlt_le_trans; [exact Hpos|].
      eapply Qle_trans; eauto.
Qed.

(** The scan does not raise when every candidate position has a coverage set. *)
Lemma best_candidate_scan_ok st cs : forall j b,
  (j + length cs <= length coverage_sets)%nat ->
  exists b', scan st j cs b = Ok b'.
Proof.
  induction cs as [|c rest IH]; intros j b Hlen; simpl in *; [eauto|].
  case_bool_decide; [apply IH; lia|].
  unfold py_index.
  destruct (lookup_lt_is_Some_2 coverage_sets j) as [cov Hcov]; [lia|].
  rewrite Hcov. simpl.
  destruct (Nat.eqb _ 0); [apply IH; lia|].
  destruct (Qgtb _ _); apply IH; lia.
Qed.



(** The coverage set of position [j], and the points the positions [js]
    cover together. *)
Definition cov_at (j : nat) : gset nat := default ∅ (coverage_sets !! j).
Definition covered_by (js : list nat) : gset nat := ⋃ (cov_at <$> js).

(** What every pass keeps. *)
Record loop_inv (st : LoopState) : Prop := mkInv {
  inv_nodup : NoDup (picked st);
  inv_bound : forall j, j ∈ picked st -> (j < N)%nat;
  inv_iteration : iteration st = length (picked st);
  inv_uncovered : uncovered_points st = set_range M ∖ covered_by (picked st);
  inv_count : (length (picked st) + size (uncovered_points st) <= M)%nat
}.

Lemma size_set_range n : size (set_range n) = n.
Proof.
  unfold set_range. rewrite size_list_to_set; [apply length_seq|].
  apply NoDup_ListNoDup, seq_NoDup.
Qed.

Lemma elem_of_set_range n i : i ∈ set_range n <-> (i < n)%nat.
Proof.
  unfold set_range. rewrite elem_of_list_to_set, list_elem_of_In, in_seq. lia.
Qed.

Lemma covered_by_snoc js j : covered_by (js ++ [j]) = covered_by js ∪ cov_at j.
Proof.
  unfold covered_by. rewrite fmap_app, union_list_app_L. simpl.
  now rewrite (right_id_L ∅ (∪)).
Qed.

Lemma cov_at_universe j : cov_at j ⊆ universe coverage_sets.
Proof.
  unfold cov_at, universe. destruct (coverage_sets !! j) as [cov|] eqn:Hj; simpl.
  - intros x Hx. apply elem_of_union_list. exists cov. split; [|exact Hx].
    eapply list_elem_of_lookup_2; eauto.
  - set_solver.
Qed.

Lemma covered_by_universe js : covered_by js ⊆ universe coverage_sets.
Proof.
  unfold covered_by. intros x Hx. apply elem_of_union_list in Hx.
  destruct Hx as (X & HX & Hx). apply list_elem_of_fmap in HX.
  destruct HX as (j & -> & _). now apply (cov_at_universe j).
Qed.

Lemma cov_at_covered_by j js : j ∈ js -> cov_at j ⊆ covered_by js.
Proof.
  intros Hj x Hx. apply elem_of_union_list. exists (cov_at j).
  split; [|exact Hx]. apply list_elem_of_fmap. eauto.
Qed.

Lemma loop_inv_initial : loop_inv (initial_state sample_points).
Proof.
  split; simpl.
  - constructor.
  - intros j Hj. inversion Hj.
  - reflexivity.
  - unfold covered_by. simpl. set_solver.
  - rewrite size_set_range. lia.
Qed.

(** A selecting pass: the position it picks and the state it leaves. *)
Lemma greedy_pass_selects st st' :
  pass st = Ok (Some st') ->
  exists j cov,
    (j < N)%nat /\ (j ∉ picked st) /\ coverage_sets !! j = Some cov /\
    size (cov ∩ uncovered_points st) <> 0%nat /\
    st' = mkLoop (uncovered_points st ∖ cov) (picked st ++ [j]) (S (iteration st)).
Proof.
  unfold greedy_pass. destruct (loop_test _ _ st); [|discriminate].
  destruct (scan st 0%nat candidates no_best) as [b|e] eqn:Hscan; simpl;
    [|discriminate].
  destruct (best_candidate_idx b) as [j|] eqn:Hj; [|discriminate].
  destruct (best_candidate_scan_some _ _ _ _ _ _ _ _ _ Hscan Hj)
    as [Hb|[Hr [Hnin (cov & Hcov & Hgain)]]]; [discriminate|].
  unfold py_index. rewrite Hcov. simpl. intros [= <-].
  exists j, cov. repeat split; auto. lia.
Qed.

Lemma loop_inv_step st st' :
  loop_inv st -> pass st = Ok (Some st') -> loop_inv st'.
Proof.
  intros [Hnd Hb Hit Hunc Hcnt] Hpass.
  pose proof (greedy_pass_progress _ _ _ _ _ _ _ _ Hpass) as Hlt.
  destruct (greedy_pass_selects _ _ Hpass) as (j & cov & HjN & Hnin & Hcov & Hgain & ->).
  simpl in *. split; simpl.
  - apply NoDup_app. repeat split; auto.
    + intros x Hx Hx'. apply list_elem_of_singleton in Hx'. now subst.
    + apply NoDup_singleton.
  - intros k Hk. apply elem_of_app in Hk. destruct Hk as [Hk|Hk]; [auto|].
    apply list_elem_of_singleton in Hk. now subst.
  - rewrite length_app. simpl. lia.
  - rewrite covered_by_snoc, Hunc. unfold cov_at. rewrite Hcov. simpl. set_solver.
  - rewrite length_app. simpl. lia.
Qed.

(** How the loop is left: the test fails, or no position adds a point. *)
Lemma greedy_pass_exit st :
  pass st = Ok None ->
  loop_test sample_points min_coverage_fraction st = false \/
  forall k, (k < N)%nat ->
    k ∈ picked st \/
    exists cov, coverage_sets !! k = Some cov /\
                size (cov ∩ uncovered_points st) = 0%nat.
Proof.
  unfold greedy_pass. destruct (loop_test _ _ st); [|now left].
  destruct (scan st 0%nat candidates no_best) as [b|e] eqn:Hscan; simpl;
    [|discriminate].
  destruct (best_candidate_idx b) as [j|] eqn:Hj.
  - destruct (py_index coverage_sets j); discriminate.
  - intros _. right. intros k Hk.
    eapply best_candidate_scan_none; eauto; [|lia].
    intros _. simpl. apply Qle_refl.
Qed.

Lemma greedy_pass_ok st :
  (N <= length coverage_sets)%nat -> exists o, pass st = Ok o.
Proof.
  intros Hlen. unfold greedy_pass. destruct (loop_test _ _ st); [|eauto].
  destruct (best_candidate_scan_ok st candidates 0%nat no_best) as [b Hscan];
    [simpl; lia|].
  rewrite Hscan. simpl.
  destruct (best_candidate_idx b) as [j|] eqn:Hj; [|eauto].
  destruct (best_candidate_scan_some _ _ _ _ _ _ _ _ _ Hscan Hj)
    as [Hb|[_ [_ (cov & Hcov & _)]]]; [discriminate|].
  unfold py_index. rewrite Hcov. simpl. eauto.
Qed.

(** The loop returns, in a state that keeps the invariant and that the next
    pass would leave. *)
Lemma greedy_while_final :
  (N <= length coverage_sets)%nat ->
  exists stf,
    while (initial_state sample_points) = Ok stf /\ loop_inv stf /\
    pass stf = Ok None.
Proof.
  intros Hlen.
  destruct (greedy_while_returns loop_inv loop_inv_step
              (fun st _ => greedy_pass_ok st Hlen) _ loop_inv_initial) as [stf Hrun].
  exists stf. split; [exact Hrun|].
  eapply greedy_while_invariant; eauto using loop_inv_step, loop_inv_initial.
Qed.

(** The number of covered points of a state. *)
Definition covered_count (st : LoopState) : nat := (M - size (uncovered_points st))%nat.

Lemma covered_count_spec st :
  loop_inv st ->
  covered_count st = size (set_range M ∩ covered_by (picked st)) /\
  (covered_count st + size (uncovered_points st) = M)%nat.
Proof.
  intros Hinv. unfold covered_count.
  assert (Hsplit : set_range M =
            (set_range M ∩ covered_by (picked st)) ∪ uncovered_points st).
  { rewrite (inv_uncovered _ Hinv). apply set_eq. intros x.
    rewrite elem_of_union, elem_of_intersection, elem_of_difference.
    destruct (decide (x ∈ covered_by (picked st))); tauto. }
  assert (Hdisj : (set_range M ∩ covered_by (picked st)) ## uncovered_points st).
  { rewrite (inv_uncovered _ Hinv). set_solver. }
  pose proof (size_union _ _ Hdisj) as Hsz. rewrite <- Hsplit, size_set_range in Hsz.
  lia.
Qed.

Lemma covered_count_le_universe st :
  loop_inv st -> (covered_count st <= size (universe coverage_sets ∩ set_range M))%nat.
Proof.
  intros Hinv. destruct (covered_count_spec st Hinv) as [-> _].
  apply subseteq_size. pose proof (covered_by_universe (picked st)). set_solver.
Qed.

(** Left by the break, the loop has covered the whole universe. *)
Lemma covered_count_break st :
  loop_inv st -> length coverage_sets = N ->
  (forall k, (k < N)%nat ->
     k ∈ picked st \/
     exists cov, coverage_sets !! k = Some cov /\
                 size (cov ∩ uncovered_points st) = 0%nat) ->
  covered_count st = size (universe coverage_sets ∩ set_range M).
Proof.
  intros Hinv Hlen Hnone. destruct (covered_count_spec st Hinv) as [-> _].
  f_equal. apply set_eq. intros x. split.
  - pose proof (covered_by_universe (picked st)). set_solver.
  - intros Hx. apply elem_of_intersection in Hx. destruct Hx as [HxU HxM].
    apply elem_of_intersection. split; [exact HxM|].
    destruct (decide (x ∈ covered_by (picked st))) as [Hin|Hnin]; [exact Hin|].
    exfalso.
    assert (Hunc : x ∈ uncovered_points st).
    { rewrite (inv_uncovered _ Hinv). set_solver. }
    apply elem_of_union_list in HxU. destruct HxU as (cov & Hcov & Hxc).
    apply list_elem_of_lookup in Hcov. destruct Hcov as [k Hk].
    assert (HkN : (k < N)%nat).
    { rewrite <- Hlen. eapply lookup_lt_Some; eauto. }
    destruct (Hnone k HkN) as [Hpicked|(cov' & Hk' & Hsz)].
    + apply Hnin. apply (cov_at_covered_by k); [exact Hpicked|].
      unfold cov_at. now rewrite Hk.
    + assert (cov' = cov) by congruence. subst cov'.
      apply size_empty_iff in Hsz. set_solver.
Qed.

(** Left because the test fails, the loop has reached the target. *)
Lemma covered_count_test st :
  loop_inv st -> loop_test sample_points min_coverage_fraction st = false ->
  (target <= Z.of_nat (covered_count st))%Z.
Proof.
  intros Hinv Htest. destruct (covered_count_spec st Hinv) as [_ Hsum].
  unfold loop_test in Htest. apply Z.ltb_ge in Htest.
  unfold total_points in Htest. fold target in Htest. lia.
Qed.



(** The original indices of the picked positions. *)
Definition index_at (j : nat) : nat := from_option index 0%nat (candidates !! j).

Lemma py_comprehension_index js :
  (forall j, j ∈ js -> (j < N)%nat) ->
  py_comprehension (fun i => c ← py_index candidates i; Ok (index c)) js
  = Ok (index_at <$> js).
Proof.
  induction js as [|j js IH]; intros Hb; [reflexivity|].
  destruct (lookup_lt_is_Some_2 candidates j) as [c Hc].
  { apply Hb. left. }
  cbn [py_comprehension]. rewrite IH by (intros k Hk; apply Hb; now right).
  unfold py_index, index_at. cbn [fmap list_fmap]. rewrite Hc. reflexivity.
Qed.

(** What the function returns, read off the state in which the loop ends. *)
Lemma greedy_set_cover_returns :
  length coverage_sets = N -> (0 < M)%nat ->
  exists stf,
    while (initial_state sample_points) = Ok stf /\ loop_inv stf /\
    pass stf = Ok None /\
    greedy_set_cover candidates coverage_sets sample_points aoi_area_m2
      min_coverage_fraction cloud_weight quality_weight
    = Ok (mkResult (index_at <$> picked stf)
            (1 - Qlen (size (uncovered_points stf)) / Qlen M)
            (Qlen (size (uncovered_points stf)) / Qlen M * aoi_area_m2)
            N (length (picked stf)) "greedy" (Some false)).
Proof.
  intros Hlen HM.
  destruct greedy_while_final as (stf & Hrun & Hinv & Hexit); [lia|].
  exists stf. split; [exact Hrun|]. split; [exact Hinv|]. split; [exact Hexit|].
  unfold greedy_set_cover. rewrite Hrun. simpl.
  unfold py_truediv, total_points. rewrite (Qlen_nonzero _ HM). simpl.
  rewrite py_comprehension_index; [reflexivity|].
  apply (inv_bound _ Hinv).
Qed.

Lemma coverage_fraction_count st :
  loop_inv st -> (0 < M)%nat ->
  1 - Qlen (size (uncovered_points st)) / Qlen M == Qlen (covered_count st) / Qlen M.
Proof.
  intros Hinv HM. destruct (covered_count_spec st Hinv) as [_ Hsum].
  assert (HMq : ~ Qlen M == 0).
  { intros E. apply Qlen_pos in HM. rewrite E in HM. now apply Qlt_irrefl in HM. }
  assert (Hq : Qlen M == Qlen (covered_count st) + Qlen (size (uncovered_points st))).
  { unfold Qlen. rewrite <- inject_Z_plus. rewrite <- Nat2Z.inj_add, Hsum. reflexivity. }
  rewrite Hq in HMq |- * . field. exact HMq.
Qed.

(** The covered count the function ends with: never above what the universe
    holds, and either at the target or at the universe bound. *)
Lemma greedy_set_cover_counts :
  length coverage_sets = N -> (0 < M)%nat ->
  exists r c,
    greedy_set_cover candidates coverage_sets sample_points aoi_area_m2
      min_coverage_fraction cloud_weight quality_weight = Ok r /\
    coverage_fraction r == Qlen c / Qlen M /\
    (c <= size (universe coverage_sets ∩ set_range M))%nat /\
    ((target <= Z.of_nat c)%Z \/ c = size (universe coverage_sets ∩ set_range M)).
Proof.
  intros Hlen HM.
  destruct (greedy_set_cover_returns Hlen HM) as (stf & Hrun & Hinv & Hexit & Hres).
  eexists. exists (covered_count stf). split; [exact Hres|]. simpl.
  split; [now apply coverage_fraction_count|].
  split; [now apply covered_count_le_universe|].
  destruct (greedy_pass_exit _ Hexit) as [Htest|Hnone].
  - left. now apply covered_count_test.
  - right. now apply covered_count_break.
Qed.



(** The function read backwards: a returned result comes from the state in
    which the loop ended. *)
Lemma greedy_set_cover_inv r :
  greedy_set_cover candidates coverage_sets sample_points aoi_area_m2
    min_coverage_fraction cloud_weight quality_weight = Ok r ->
  exists stf share indices,
    while (initial_state sample_points) = Ok stf /\
    py_truediv (Qlen (size (uncovered_points stf))) (Qlen M) = Ok share /\
    py_comprehension (fun i => c ← py_index candidates i; Ok (index c)) (picked stf)
      = Ok indices /\
    r = mkResult indices (1 - share) (share * aoi_area_m2) N
          (length (picked stf)) "greedy" (Some false).
Proof.
  unfold greedy_set_cover, total_points.
  destruct (while (initial_state sample_points)) as [stf|e] eqn:Hrun; [|discriminate].
  cbn [mbind result_bind].
  destruct (py_truediv _ _) as [share|e] eqn:Hdiv; [|discriminate].
  destruct (py_comprehension _ _) as [indices|e] eqn:Hidx; [|discriminate].
  intros [= <-]. exists stf, share, indices. auto.
Qed.

Lemma picked_length_le st :
  loop_inv st -> (length (picked st) <= Nat.min N M)%nat.
Proof.
  intros Hinv. apply Nat.min_glb.
  - rewrite <- (length_seq N 0). apply submseteq_length.
    apply NoDup_submseteq; [apply (inv_nodup _ Hinv)|].
    intros j Hj. apply list_elem_of_In, in_seq.
    pose proof (inv_bound _ Hinv j Hj). lia.
  - pose proof (inv_count _ Hinv). lia.
Qed.

(** The executions of the loop body as an equation. *)
Lemma greedy_while_iterations_eq st :
  iterations st = match pass st with
                  | Ok (Some st') => executed ← iterations st'; Ok (S executed)
                  | Ok None =>
                      Ok (if loop_test sample_points min_coverage_fraction st
                          then 1%nat else 0%nat)
                  | Raise e => Raise e
                  end.
Proof.
  rewrite greedy_while_iterations_equation_1. unfold inspect.
  generalize (@eq_refl _ (pass st)).
  generalize (pass st) at 2 4 5.
  intros r e. destruct r as [[st'|]|e0]; reflexivity.
Qed.

(** The body is executed once for every selecting pass, and once more when
    the loop is left with its test still true. *)
Lemma greedy_while_iterations_count st :
  match while st, iterations st with
  | Ok stf, Ok executed =>
      (iteration st + executed
       = iteration stf
         + (if loop_test sample_points min_coverage_fraction stf
            then 1 else 0))%nat
  | Raise e, Raise e' => e = e'
  | _, _ => False
  end.
Proof.
  remember (size (uncovered_points st)) as n eqn:Hn.
  revert st Hn. induction n as [n IH] using lt_wf_ind.
  intros st Hn. rewrite greedy_while_eq, greedy_while_iterations_eq.
  destruct (pass st) as [[st'|]|e] eqn:Hpass; [| |reflexivity].
  - assert (Hlt : (size (uncovered_points st') < n)%nat)
      by (subst n; eapply greedy_pass_progress; eauto).
    specialize (IH _ Hlt st' eq_refl).
    destruct (greedy_pass_selects _ _ Hpass) as (j & cov & _ & _ & _ & _ & Hst').
    assert (Hit : iteration st' = S (iteration st)) by (subst st'; reflexivity).
    destruct (while st') as [stf|e]; destruct (iterations st') as [executed|e'];
      simpl; try exact IH. lia.
  - reflexivity.
Qed.

(** C4 (amended). Greedy termination and strict progress. The while loop is
    defined by recursion on the number of uncovered points, so it ends on
    every input. Every pass that selects a candidate strictly decreases the
    number of uncovered points and adds one to the loop's [iteration]
    counter; when the loop ends, [iteration] is the number of selected
    candidates and is at most [min(N, M)], and so is [num_selected] of the
    returned result. The loop body is executed [iteration] times when the
    loop ends because its test fails, and once more when it ends by [break]:
    at most [min(N, M) + 1] times. The loop returns normally whenever every
    candidate has a coverage set. *)
Theorem greedy_progress_and_iteration_bound :
  (forall st st', pass st = Ok (Some st') ->
     (size (uncovered_points st') < size (uncovered_points st))%nat /\
     iteration st' = S (iteration st)) /\
  (forall stf, while (initial_state sample_points) = Ok stf ->
     iteration stf = length (picked stf) /\
     (iteration stf <= Nat.min N M)%nat) /\
  (forall r,
     greedy_set_cover candidates coverage_sets sample_points aoi_area_m2
       min_coverage_fraction cloud_weight quality_weight = Ok r ->
     (num_selected r <= Nat.min N M)%nat) /\
  (forall stf, while (initial_state sample_points) = Ok stf ->
     iterations (initial_state sample_points)
     = Ok (iteration stf
           + (if loop_test sample_points min_coverage_fraction stf
              then 1 else 0))%nat) /\
  (forall executed,
     iterations (initial_state sample_points) = Ok executed ->
     (executed <= Nat.min N M + 1)%nat) /\
  ((N <= length coverage_sets)%nat ->
   exists stf executed,
     while (initial_state sample_points) = Ok stf /\
     iterations (initial_state sample_points) = Ok executed).
Proof.
  assert (Hfinal : forall stf,
            while (initial_state sample_points) = Ok stf -> loop_inv stf).
  { intros stf Hrun.
    eapply (greedy_while_invariant loop_inv loop_inv_step); eauto.
    apply loop_inv_initial. }
  assert (Hbound : forall stf, while (initial_state sample_points) = Ok stf ->
            (iteration stf <= Nat.min N M)%nat).
  { intros stf Hrun. pose proof (Hfinal _ Hrun) as Hinv.
    rewrite (inv_iteration _ Hinv). now apply picked_length_le. }
  pose proof (greedy_while_iterations_count (initial_state sample_points))
    as Hcount.
  split; [|split; [|split; [|split; [|split]]]].
  - intros st st' Hpass. split; [eapply greedy_pass_progress; eauto|].
    destruct (greedy_pass_selects _ _ Hpass) as (j & cov & _ & _ & _ & _ & ->).
    reflexivity.
  - intros stf Hrun. pose proof (Hfinal _ Hrun) as Hinv.
    split; [apply (inv_iteration _ Hinv)|now apply Hbound].
  - intros r Hr.
    destruct (greedy_set_cover_inv r Hr) as (stf & x & ix & Hrun & _ & _ & ->).
    simpl. apply picked_length_le. auto.
  - intros stf Hrun. rewrite Hrun in Hcount.
    destruct (iterations (initial_state sample_points)) as [executed|e];
      [|contradiction].
    simpl in Hcount. now rewrite Hcount.
  - intros executed Hexec. rewrite Hexec in Hcount.
    destruct (while (initial_state sample_points)) as [stf|e] eqn:Hrun;
      [|contradiction].
    specialize (Hbound _ eq_refl). simpl in Hcount.
    destruct (loop_test _ _ stf); lia.
  - intros Hlen. destruct (greedy_while_final Hlen) as (stf & Hrun & _).
    rewrite Hrun in Hcount.
    destruct (iterations (initial_state sample_points)) as [executed|e];
      [|contradiction].
    eauto.
Qed.

Lemma universe_in_range :
  universe coverage_sets ⊆ set_range M ->
  universe coverage_sets ∩ set_range M = universe coverage_sets.
Proof. set_solver. Qed.


End GreedyFacts.



Lemma greedy_progress_and_iteration_bound_witness :
  exists stf executed,
    greedy_while three_candidates three_sets three_points (1 # 2) (3 # 10)
      (7 # 10) (initial_state three_points) = Ok stf /\
    greedy_while_iterations three_candidates three_sets three_points (1 # 2)
      (3 # 10) (7 # 10) (initial_state three_points) = Ok executed /\
    iteration stf = length (picked stf) /\
    (iteration stf <= Nat.min (length three_candidates) (length three_points))%nat /\
    (executed
     <= Nat.min (length three_candidates) (length three_points) + 1)%nat.
Proof.
  destruct (greedy_progress_and_iteration_bound three_candidates three_sets
              three_points 100 (1 # 2) (3 # 10) (7 # 10))
    as (_ & Hbound & _ & _ & Hexecuted & Hruns).
  destruct Hruns as (stf & executed & Hrun & Hexec); [simpl; lia|].
  exists stf, executed. split; [exact Hrun|]. split; [exact Hexec|].
  split; [now apply Hbound|]. split; [now apply Hbound|now apply Hexecuted].
Defined.

(** C4, as stated, fails: one candidate covers the first of two sample points
    and everything is to be covered. The first pass selects the candidate,
    the second finds nothing to add and breaks: the body is executed twice,
    and [min(N, M) = 1]. With no candidate and one sample point the body is
    executed once, and [min(N, M) = 0]. *)
Lemma greedy_iteration_counterexample :
  (exists executed,
     greedy_while_iterations one_candidate one_set two_points 1 (3 # 10)
       (7 # 10) (initial_state two_points) = Ok executed /\
     ~ (executed <= Nat.min (length one_candidate) (length two_points))%nat) /\
  (exists executed,
     greedy_while_iterations (G:=Rect) [] [] [(0, 0)] 1 (3 # 10) (7 # 10)
       (initial_state [(0, 0)]) = Ok executed /\
     ~ (executed <= Nat.min 0 1)%nat).
Proof.
  split.
  - exists 2%nat. split; [vm_compute; reflexivity|simpl; lia].
  - exists 1%nat. split; [vm_compute; reflexivity|simpl; lia].
Qed.


(** ** The MILP driver *)

Section MilpFacts.

Context {G : Type}.
Variable lib : Libraries.
Variable candidates : list (CoverageCandidate (G:=G)).
Variable coverage_sets : list (gset nat).
Variable sample_points : list Point.
Variable aoi_area_m2 : Q.
Variable min_coverage_fraction : Q.
Variable cloud_weight quality_weight : Q.
Variable time_limit_seconds : Z.

Abbreviation milp :=
  (optimal_set_cover_milp lib candidates coverage_sets sample_points
     aoi_area_m2 min_coverage_fraction cloud_weight quality_weight
     time_limit_seconds).
Abbreviation build :=
  (build_milp candidates coverage_sets sample_points min_coverage_fraction
     cloud_weight quality_weight time_limit_seconds).

(** A returned result comes from a program the solver accepted. *)
Lemma optimal_set_cover_milp_inv r :
  milp = Ok (Some r) ->
  exists model selected covered fraction is_optimal,
    build = Ok model /\
    extract_solution coverage_sets (snd (cbc_solve lib model)) 0 candidates [] ∅
      = Ok (selected, covered) /\
    py_truediv (Qlen (size covered)) (Qlen (length sample_points)) = Ok fraction /\
    r = mkResult selected fraction ((1 - fraction) * aoi_area_m2)
          (length candidates) (length selected) "milp" (Some is_optimal).
Proof.
  unfold optimal_set_cover_milp.
  destruct (ORTOOLS_AVAILABLE lib); simpl; [|discriminate].
  destruct (cbc_created lib); simpl; [|discriminate].
  destruct build as [model|e]; simpl; [|discriminate].
  destruct (cbc_solve lib model) as [status value] eqn:Hsolve. simpl.
  intros Hres.
  assert (exists is_optimal,
            (extract_solution coverage_sets value 0 candidates [] ∅ ≫=
               λ '(selected, covered_points_set),
                 py_truediv (Qlen (size covered_points_set)) (Qlen (length sample_points)) ≫=
                   λ coverage_fraction,
                     Ok (Some (mkResult selected coverage_fraction
                                 ((1 - coverage_fraction) * aoi_area_m2)
                                 (length candidates) (length selected) "milp"
                                 (Some is_optimal)))) = Ok (Some r)) as [is_optimal Hrun].
  { destruct status; try discriminate; eauto. }
  clear Hres.
  destruct (extract_solution _ _ _ _ _ _) as [[selected covered]|e] eqn:Hext;
    simpl in Hrun; [|discriminate].
  destruct (py_truediv _ _) as [fraction|e] eqn:Hdiv; simpl in Hrun; [|discriminate].
  injection Hrun as <-.
  exists model, selected, covered, fraction, is_optimal.
  rewrite Hsolve. simpl.
  split; [reflexivity|]. split; [exact Hext|]. split; [exact Hdiv|reflexivity].
Qed.

(** A status other than [OPTIMAL] and [FEASIBLE] makes the function return
    [None]. *)
Lemma optimal_set_cover_milp_failure model :
  build = Ok model ->
  fst (cbc_solve lib model) <> OPTIMAL ->
  fst (cbc_solve lib model) <> FEASIBLE ->
  milp = Ok None.
Proof.
  intros Hbuild Hopt Hfeas. unfold optimal_set_cover_milp.
  destruct (ORTOOLS_AVAILABLE lib); simpl; [|reflexivity].
  destruct (cbc_created lib); simpl; [|reflexivity].
  rewrite Hbuild. simpl.
  destruct (cbc_solve lib model) as [status value]. simpl in *.
  destruct status; congruence.
Qed.

(** The positions the extraction loop keeps are a sublist of the candidate
    positions. *)
Lemma extract_solution_sublist value (cs : list (CoverageCandidate (G:=G))) :
  forall j selected covered selected' covered',
  extract_solution coverage_sets value j cs selected covered
    = Ok (selected', covered') ->
  exists kept, selected' = selected ++ kept /\ sublist kept (index <$> cs).
Proof.
  induction cs as [|c rest IH]; intros j selected covered selected' covered' Hext;
    simpl in Hext.
  - injection Hext as <- <-. exists []. rewrite app_nil_r. split; [reflexivity|constructor].
  - destruct (Qgtb (value j) (1 # 2)).
    + destruct (py_index coverage_sets j) as [cov|e]; simpl in Hext; [|discriminate].
      destruct (IH _ _ _ _ _ Hext) as (kept & -> & Hsub).
      exists (index c :: kept). rewrite <- app_assoc. split; [reflexivity|].
      simpl. now constructor.
    + destruct (IH _ _ _ _ _ Hext) as (kept & -> & Hsub).
      exists kept. split; [reflexivity|]. simpl. now constructor.
Qed.

Lemma covering_candidates_from_bound i sets : forall j k,
  k ∈ covering_candidates_from i j sets -> (k < j + length sets)%nat.
Proof.
  induction sets as [|s rest IH]; intros j k Hk; simpl in Hk.
  - inversion Hk.
  - simpl. case_bool_decide.
    + apply elem_of_cons in Hk. destruct Hk as [->|Hk]; [lia|].
      apply IH in Hk. lia.
    + apply IH in Hk. lia.
Qed.

(** With no more coverage sets than candidates, the program is built. *)
Lemma build_milp_ok :
  (length coverage_sets <= length candidates)%nat -> exists model, build = Ok model.
Proof.
  intros Hlen. unfold build_milp.
  assert (Hall : forall l, exists cs,
            py_comprehension (point_constraint candidates coverage_sets) l = Ok cs).
  { induction l as [|i l [cs IH]]; simpl; [eauto|].
    assert (exists c, point_constraint candidates coverage_sets i = Ok c) as [c Hc].
    { unfold point_constraint.
      destruct (covering_candidates_from i 0 coverage_sets) as [|k ks] eqn:Hcc; [eauto|].
      rewrite (proj2 (forallb_forall _ _)); [eauto|].
      intros x Hx. apply Nat.ltb_lt. rewrite <- Hcc in Hx.
      apply list_elem_of_In, covering_candidates_from_bound in Hx. lia. }
    rewrite Hc. simpl. rewrite IH. simpl. eauto. }
  destruct (Hall (seq 0 (length sample_points))) as [cs Hcs]. rewrite Hcs. simpl. eauto.
Qed.

End MilpFacts.

(** C3. Coverage-area identity, over the rationals: every result of the
    greedy solver and every result of the MILP driver has
    [uncovered_area_m2 = (1 - coverage_fraction) * aoi_area_m2], so the two
    sides are within a relative error of 1e-6 of each other. *)
Theorem coverage_area_identity {G : Type} (lib : Libraries)
    (candidates : list (CoverageCandidate (G:=G)))
    (coverage_sets : list (gset nat)) (sample_points : list Point)
    (aoi_area_m2 min_coverage_fraction cloud_weight quality_weight : Q)
    (time_limit_seconds : Z) (r : CoverageResult) :
  greedy_set_cover candidates coverage_sets sample_points aoi_area_m2
    min_coverage_fraction cloud_weight quality_weight = Ok r \/
  optimal_set_cover_milp lib candidates coverage_sets sample_points aoi_area_m2
    min_coverage_fraction cloud_weight quality_weight time_limit_seconds
    = Ok (Some r) ->
  uncovered_area_m2 r == (1 - coverage_fraction r) * aoi_area_m2 /\
  Qabs (uncovered_area_m2 r - (1 - coverage_fraction r) * aoi_area_m2)
  <= (1 # 1000000) * Qabs ((1 - coverage_fraction r) * aoi_area_m2).
Proof.
  intros Hr.
  assert (Heq : uncovered_area_m2 r == (1 - coverage_fraction r) * aoi_area_m2).
  { destruct Hr as [Hr|Hr].
    - apply greedy_set_cover_inv in Hr.
      destruct Hr as (stf & share & indices & _ & _ & _ & ->). simpl. ring.
    - apply optimal_set_cover_milp_inv in Hr.
      destruct Hr as (model & sel & cov & fraction & opt & _ & _ & _ & ->).
      simpl. reflexivity. }
  split; [exact Heq|]. rewrite Heq.
  assert (Hzero : (1 - coverage_fraction r) * aoi_area_m2
                  - (1 - coverage_fraction r) * aoi_area_m2 == 0) by ring.
  rewrite Hzero. simpl (Qabs 0).
  apply Qmult_le_0_compat; [discriminate|apply Qabs_nonneg].
Qed.

Lemma coverage_area_identity_witness :
  (200 # 3) == (1 - (1 # 3)) * 100 /\
  (0 # 4) == (1 - (4 # 4)) * 100.
Proof.
  assert (Hgreedy :
    greedy_set_cover three_candidates three_sets three_points 100 (1 # 2)
      (3 # 10) (7 # 10)
    = Ok (mkResult [0%nat] (1 # 3) (200 # 3) 3 1 "greedy" (Some false)))
    by (vm_compute; reflexivity).
  assert (Hmilp :
    optimal_set_cover_milp lib_select_all three_candidates three_sets
      three_points 100 (1 # 2) (3 # 10) (7 # 10) 300
    = Ok (Some (mkResult [0; 1; 2]%nat (3 # 3) (0 # 3) 3 3 "milp" (Some true))))
    by (vm_compute; reflexivity).
  split.
  - exact (proj1 (coverage_area_identity lib_select_all three_candidates
                    three_sets three_points 100 (1 # 2) (3 # 10) (7 # 10) 300 _
                    (or_introl Hgreedy))).
  - pose proof (proj1 (coverage_area_identity lib_select_all three_candidates
                         three_sets three_points 100 (1 # 2) (3 # 10) (7 # 10)
                         300 _ (or_intror Hmilp))) as Hid.
    exact Hid.
Defined.

(** ** The grid sampler *)

Lemma Qlen_lt_ceiling (i : nat) (q : Q) :
  (i < Z.to_nat (Qceiling q))%nat <-> Qlen i < q.
Proof.
  unfold Qlen. split.
  - intros Hi.
    assert (Hz : (Z.of_nat i <= Qceiling q - 1)%Z) by lia.
    eapply Qle_lt_trans; [|apply Qceiling_lt]. now rewrite <- Zle_Qle.
  - intros Hi.
    assert (Hz : (Z.of_nat i < Qceiling q)%Z).
    { rewrite Zlt_Qlt. eapply Qlt_le_trans; [exact Hi|apply Qle_ceiling]. }
    lia.
Qed.

Lemma grid_index_below (start stop step : Q) (i : nat) :
  0 < step ->
  Qlen i < (stop - start) / step <-> start + Qlen i * step < stop.
Proof.
  intros Hs.
  assert (Hnz : ~ step == 0) by (intros E; rewrite E in Hs; now apply Qlt_irrefl in Hs).
  assert (Hq : (stop - start) / step * step == stop - start) by (field; exact Hnz).
  split; intros Hi.
  - assert (Hm : Qlen i * step < (stop - start) / step * step)
      by (apply Qmult_lt_r; assumption).
    rewrite Hq in Hm. lra.
  - apply Qlt_shift_div_l; [exact Hs|]. lra.
Qed.

(** [np.arange] with a step other than zero: the values [start + i * step]
    for the indices below the length. *)
Lemma np_arange_spec (start stop step : Q) :
  ~ step == 0 ->
  exists l, np_arange start stop step = Ok l /\
    forall x, In x l <->
      exists i : nat,
        (Z.of_nat i < arange_length start stop step)%Z /\
        x = start + Qlen i * step.
Proof.
  intros Hs. unfold np_arange.
  assert (Hnz : Qeq_bool step 0 = false).
  { destruct (Qeq_bool step 0) eqn:E; [|reflexivity].
    apply Qeq_bool_iff in E. contradiction. }
  rewrite Hnz. eexists. split; [reflexivity|].
  intros x. rewrite in_map_iff. split.
  - intros (i & <- & Hi). exists i. split; [|reflexivity].
    apply in_seq in Hi. lia.
  - intros (i & Hi & ->). exists i. split; [reflexivity|].
    apply in_seq. lia.
Qed.

(** When the length is the exact ceiling of the quotient, the indices below
    it are those of the values below [stop]. *)
Lemma arange_exact_below (start stop step : Q) (i : nat) :
  0 < step ->
  arange_length start stop step = Qceiling ((stop - start) / step) ->
  (Z.of_nat i < arange_length start stop step)%Z <->
  start + Qlen i * step < stop.
Proof.
  intros Hs ->. rewrite <- (grid_index_below start stop step i Hs).
  rewrite <- Qlen_lt_ceiling. lia.
Qed.

(** Rounding can add a value: the quotient of [np.arange(0.1, 0.4, 0.1)] is
    the double above 3, so that the range has four values and ends with
    [stop]; and in metres, from 504525.3 to 545775.3 every 150, it has 276
    values where the exact quotient is 275. *)
Lemma np_arange_rounding :
  arange_length (1 # 10) (4 # 10) (1 # 10) = 4%Z /\
  Qceiling (((4 # 10) - (1 # 10)) / (1 # 10)) = 3%Z /\
  (exists l, np_arange (1 # 10) (4 # 10) (1 # 10) = Ok l /\
             exists x, In x l /\ x == 4 # 10) /\
  arange_length (5045253 # 10) (5457753 # 10) 150 = 276%Z /\
  Qceiling (((5457753 # 10) - (5045253 # 10)) / 150) = 275%Z.
Proof.
  split; [vm_compute; reflexivity|]. split; [vm_compute; reflexivity|].
  split; [|split; vm_compute; reflexivity].
  eexists. split; [vm_compute; reflexivity|].
  eexists. split; [right; right; right; left; reflexivity|reflexivity].
Qed.

(** The points of the nested loops are pairwise distinct. *)
Lemma NoDup_flat_map {A B : Type} (g : A -> list B) (xs : list A) :
  NoDup xs ->
  (forall x, x ∈ xs -> NoDup (g x)) ->
  (forall x x' b, x ∈ xs -> x' ∈ xs -> b ∈ g x -> b ∈ g x' -> x = x') ->
  NoDup (flat_map g xs).
Proof.
  induction xs as [|x xs IH]; intros Hnd Hg Hsep; simpl; [constructor|].
  apply NoDup_cons in Hnd. destruct Hnd as [Hx Hnd].
  apply NoDup_app. split; [apply Hg; left|]. split.
  - intros b Hb Hb'. apply list_elem_of_In, in_flat_map in Hb'.
    destruct Hb' as (x' & Hx' & Hb'). apply list_elem_of_In in Hx', Hb'.
    assert (x = x') by (eapply Hsep; eauto; [left|now right]). now subst.
  - apply IH; [exact Hnd| |].
    + intros x' Hx'. apply Hg. now right.
    + intros x1 x2 b H1 H2. apply Hsep; now right.
Qed.

Lemma np_arange_NoDup (start stop step : Q) l :
  0 < step -> np_arange start stop step = Ok l -> NoDup l.
Proof.
  intros Hs. unfold np_arange.
  destruct (Qeq_bool step 0); [discriminate|]. intros [= <-].
  apply (NoDup_fmap_2_strong (fun i => start + Qlen i * step)).
  - intros i j _ _ Heq.
    assert (Hq : start + Qlen i * step == start + Qlen j * step) by now rewrite Heq.
    assert (Hij : Qlen i == Qlen j).
    { apply (Qmult_inj_r _ _ step).
      - intros E. rewrite E in Hs. now apply Qlt_irrefl in Hs.
      - now apply (Qplus_inj_l _ _ start). }
    unfold Qlen in Hij.
    pose proof (proj1 (inject_Z_injective _ _) Hij). lia.
  - apply NoDup_ListNoDup, seq_NoDup.
Qed.

Lemma sample_points_NoDup {G : Type} `{Shapely G} (aoi_polygon : G) (s : Q) crs points :
  0 < s -> sample_points_in_polygon aoi_polygon s crs = Ok points -> NoDup points.
Proof.
  intros Hs. unfold sample_points_in_polygon.
  destruct (bounds aoi_polygon) as [[[minx miny] maxx] maxy].
  destruct (np_arange minx maxx s) as [xs|e] eqn:Hxs; simpl; [|discriminate].
  destruct (np_arange miny maxy s) as [ys|e] eqn:Hys; simpl; [|discriminate].
  intros [= <-].
  assert (Hrow : forall x b,
            b ∈ flat_map (fun y => if covers aoi_polygon (x, y) then [(x, y)] else []) ys ->
            fst b = x).
  { intros x b Hb. apply list_elem_of_In, in_flat_map in Hb.
    destruct Hb as (y & _ & Hb). destruct (covers aoi_polygon (x, y)); [|inversion Hb].
    destruct Hb as [<-|[]]. reflexivity. }
  apply NoDup_flat_map.
  - eapply np_arange_NoDup; eauto.
  - intros x _. apply NoDup_flat_map.
    + eapply np_arange_NoDup; eauto.
    + intros y _. destruct (covers aoi_polygon (x, y)); repeat constructor.
      intros Hin. inversion Hin.
    + intros y y' b _ _ Hb Hb'.
      destruct (covers aoi_polygon (x, y)); [|inversion Hb].
      destruct (covers aoi_polygon (x, y')); [|inversion Hb'].
      apply list_elem_of_singleton in Hb, Hb'. congruence.
  - intros x x' b _ _ Hb Hb'. apply Hrow in Hb, Hb'. congruence.
Qed.




(** ** The dispatcher *)

Section InstanceFacts.

Context {G : Type} `{Shapely G}.

(** Candidates carry the positions of their products, in increasing order. *)
Lemma extract_candidates_index (products : list (Product (G:=G))) : forall i,
  Forall (fun c => (i <= index c < i + length products)%nat)
         (extract_candidates i products) /\
  NoDup (index <$> extract_candidates i products) /\
  (length (extract_candidates i products) <= length products)%nat.
Proof.
  induction products as [|p rest IH]; intros i; simpl.
  - repeat split; [constructor|constructor|lia].
  - destruct (IH (S i)) as (Hall & Hnd & Hlen).
    assert (Hall' : Forall (fun c => (i <= index c < i + S (length rest))%nat)
                      (extract_candidates (S i) rest)).
    { eapply Forall_impl; [exact Hall|]. simpl. intros c Hc. lia. }
    destruct (p_footprint_geom_proj p) as [fp|]; [|repeat split; auto].
    destruct (geom_type fp); try (repeat split; auto; fail).
    all: repeat split; simpl; [constructor; [simpl; lia|exact Hall'] | | lia].
    all: constructor; [|exact Hnd].
    all: intros Hin; apply list_elem_of_fmap in Hin; destruct Hin as (c & Hc & Hin).
    all: rewrite Forall_forall in Hall; apply Hall in Hin; lia.
Qed.

Lemma attach_coverage_index (cands : list (CoverageCandidate (G:=G))) :
  forall covs cands',
    attach_coverage cands covs = Ok cands' ->
    index <$> cands' = index <$> cands.
Proof.
  induction cands as [|c cs IH]; intros covs cands' Hat; simpl in Hat.
  - now injection Hat as <-.
  - destruct covs as [|cov covs]; [discriminate|].
    destruct (attach_coverage cs covs) as [cs'|e] eqn:Hcs; simpl in Hat; [|discriminate].
    injection Hat as <-. simpl. f_equal. eauto.
Qed.

Lemma length_build_coverage_matrix (points : list Point) (footprints : list G) crs :
  length (build_coverage_matrix points footprints crs) = length footprints.
Proof. unfold build_coverage_matrix. apply length_map. Qed.

(** A returned instance: the candidates are the extracted ones with their
    coverage sets attached, the coverage sets are the matrix of the sample
    points, and there is at least one sample point. *)
Lemma coverage_instance_shape lib (products : list (Product (G:=G))) aoi area crs f grid
    cands covs points :
  coverage_instance lib products aoi area crs f grid = Ok (cands, covs, points) ->
  points <> [] /\
  covs = build_coverage_matrix points
           (map footprint (extract_candidates 0 products)) crs /\
  attach_coverage (extract_candidates 0 products) covs = Ok cands.
Proof.
  unfold coverage_instance.
  destruct products as [|p0 rest] eqn:Hp; [discriminate|]. rewrite <- Hp. clear Hp p0 rest.
  set (aoi' := match geom_type aoi with MultiPolygon => unary_union aoi | _ => aoi end).
  intros Hinst.
  assert (Hrun :
    (match grid with
     | Some s => Ok s
     | None => root ← math_sqrt lib area; Ok (py_max 50 (py_min 200 (root / 100)))
     end ≫= λ grid_spacing_meters,
       let candidates := extract_candidates 0 products in
       match candidates with
       | [] => Raise (ValueError "No valid candidates with footprint geometries")
       | _ => sample_points_in_polygon aoi' grid_spacing_meters crs ≫= λ sample_points,
           match sample_points with
           | [] => Raise (ValueError "Failed to sample points in AOI")
           | _ =>
             let coverage_sets :=
               build_coverage_matrix sample_points (map footprint candidates) crs in
             attach_coverage candidates coverage_sets ≫= λ candidates,
               py_truediv (Qlen (size (foldl (fun acc cov_set => acc ∪ cov_set) ∅ coverage_sets)))
                 (Qlen (length sample_points)) ≫= λ _,
                 Ok (candidates, coverage_sets, sample_points)
           end
       end) = Ok (cands, covs, points)).
  { subst aoi'. destruct (geom_type aoi); [exact Hinst|exact Hinst|discriminate]. }
  clear Hinst.
  destruct (match grid with Some s => _ | None => _ end) as [spacing|e];
    simpl in Hrun; [|discriminate].
  destruct (extract_candidates 0 products) as [|c0 cs0] eqn:Hex; [discriminate|].
  rewrite <- Hex in *.
  destruct (sample_points_in_polygon aoi' spacing crs) as [pts|e]; simpl in Hrun;
    [|discriminate].
  destruct pts as [|pt0 pts0] eqn:Hpts; [discriminate|]. rewrite <- Hpts in *.
  destruct (attach_coverage _ _) as [cands'|e] eqn:Hat; simpl in Hrun; [|discriminate].
  destruct (py_truediv _ _) as [mx|e]; simpl in Hrun; [|discriminate].
  injection Hrun as <- <- <-.
  split; [subst pts; discriminate|]. split; [reflexivity|exact Hat].
Qed.

Lemma points_covered_range (fp : G) (points : list Point) : forall i covered x,
  x ∈ points_covered fp i points covered ->
  x ∈ covered \/ (i <= x < i + length points)%nat.
Proof.
  induction points as [|p rest IH]; intros i covered x Hx; simpl in Hx; [now left|].
  destruct (bounds fp) as [[[minx miny] maxx] maxy].
  destruct (_ && covers fp p).
  - apply IH in Hx. destruct Hx as [Hx|Hx]; [|right; simpl; lia].
    apply elem_of_union in Hx. destruct Hx as [Hx|Hx]; [now left|].
    apply elem_of_singleton in Hx. subst. right. simpl. lia.
  - apply IH in Hx. destruct Hx as [Hx|Hx]; [now left|right; simpl; lia].
Qed.

(** The coverage sets the matrix builder returns hold sample point indices. *)
Lemma build_coverage_matrix_range (points : list Point) (footprints : list G) crs :
  universe (build_coverage_matrix points footprints crs) ⊆ set_range (length points).
Proof.
  intros x Hx. unfold universe in Hx. apply elem_of_union_list in Hx.
  destruct Hx as (cov & Hcov & Hx). unfold build_coverage_matrix in Hcov.
  apply list_elem_of_In, in_map_iff in Hcov. destruct Hcov as (fp & <- & _).
  apply points_covered_range in Hx. apply elem_of_set_range.
  destruct Hx as [Hx|Hx]; [set_solver|lia].
Qed.

(** What a returned instance satisfies. *)
Lemma coverage_instance_inv lib (products : list (Product (G:=G))) aoi area crs f grid
    cands covs points :
  coverage_instance lib products aoi area crs f grid = Ok (cands, covs, points) ->
  points <> [] /\
  length covs = length cands /\
  NoDup (index <$> cands) /\
  Forall (fun c => (index c < length products)%nat) cands /\
  (length cands <= length products)%nat.
Proof.
  intros Hinst. apply coverage_instance_shape in Hinst.
  destruct Hinst as (Hne & Hcovs & Hat).
  destruct (extract_candidates_index products 0) as (Hall & Hnd & Hlen).
  pose proof (attach_coverage_index _ _ _ Hat) as Hidx.
  assert (Hlen' : length cands = length (extract_candidates 0 products)).
  { rewrite <- (length_fmap index cands), Hidx. apply length_fmap. }
  split; [exact Hne|].
  split; [rewrite Hcovs, length_build_coverage_matrix, length_map; now symmetry|].
  split; [now rewrite Hidx|].
  split; [|lia].
  apply Forall_forall. intros c Hc.
  assert (Hin : index c ∈ index <$> extract_candidates 0 products).
  { rewrite <- Hidx. apply list_elem_of_fmap. exists c. split; [reflexivity|exact Hc]. }
  apply list_elem_of_fmap in Hin. destruct Hin as (c' & -> & Hc').
  rewrite Forall_forall in Hall. apply Hall in Hc'. simpl in Hc'. lia.
Qed.

(** The candidate loop keeps one candidate for each product that has a
    polygon footprint. *)
Lemma length_extract_candidates (products : list (Product (G:=G))) : forall i,
  length (extract_candidates i products)
  = length (List.filter has_polygon_footprint products).
Proof.
  induction products as [|p rest IH]; intros i; simpl; [reflexivity|].
  unfold has_polygon_footprint.
  destruct (p_footprint_geom_proj p) as [fp|]; [|apply IH].
  destruct (geom_type fp); simpl; rewrite ?IH; reflexivity.
Qed.

Lemma coverage_instance_candidates lib (products : list (Product (G:=G))) aoi area
    crs f grid cands covs points :
  coverage_instance lib products aoi area crs f grid = Ok (cands, covs, points) ->
  length cands = length (List.filter has_polygon_footprint products).
Proof.
  intros Hinst. apply coverage_instance_shape in Hinst.
  destruct Hinst as (_ & _ & Hat).
  pose proof (attach_coverage_index _ _ _ Hat) as Hidx.
  rewrite <- (length_fmap index cands), Hidx, length_fmap.
  apply length_extract_candidates.
Qed.

(** The greedy solver on the instance of a call: the feasibility theorem
    applies to it. *)
Lemma coverage_instance_greedy lib (products : list (Product (G:=G))) aoi area crs f grid
    cands covs points :
  coverage_instance lib products aoi area crs f grid = Ok (cands, covs, points) ->
  length covs = length cands /\ points <> [] /\
  universe covs ⊆ set_range (length points).
Proof.
  intros Hinst. pose proof (coverage_instance_shape _ _ _ _ _ _ _ _ _ _ Hinst) as Hshape.
  apply coverage_instance_inv in Hinst.
  destruct Hinst as (Hne & Hlen & _). destruct Hshape as (_ & Hcovs & _).
  split; [exact Hlen|]. split; [exact Hne|].
  rewrite Hcovs. apply build_coverage_matrix_range.
Qed.

(** The dispatcher read backwards. *)
Lemma select_covering_products_inv lib (products : list (Product (G:=G)))
    aoi area crs strategy f grid timeout cw qw r :
  select_covering_products lib products aoi area crs strategy f grid timeout cw qw
    = Ok r ->
  exists cands covs points,
    coverage_instance lib products aoi area crs f grid = Ok (cands, covs, points) /\
    (greedy_set_cover cands covs points area f cw qw = Ok r \/
     optimal_set_cover_milp lib cands covs points area f cw qw timeout = Ok (Some r)).
Proof.
  unfold select_covering_products.
  destruct (coverage_instance _ _ _ _ _ _ _) as [[[cands covs] points]|e];
    simpl; [|discriminate].
  intros Hr. exists cands, covs, points. split; [reflexivity|].
  destruct (String.eqb strategy "coverage_greedy"); [now left|].
  destruct (String.eqb strategy "coverage_optimal"); [|discriminate].
  destruct (optimal_set_cover_milp _ _ _ _ _ _ _ _ _) as [[r'|]|e]; simpl in Hr;
    [|now left|discriminate].
  right. congruence.
Qed.

End InstanceFacts.

Section DispatcherFacts.

Context {G : Type} `{Shapely G}.

(** The greedy solver returns distinct original indices, as many as it
    selected, each the index of a candidate. *)
Lemma greedy_selected_indices (cands : list (CoverageCandidate (G:=G))) covs points
    area f cw qw r :
  NoDup (index <$> cands) ->
  greedy_set_cover cands covs points area f cw qw = Ok r ->
  NoDup (selected_indices r) /\
  num_selected r = length (selected_indices r) /\
  num_candidates r = length cands /\
  forall i, i ∈ selected_indices r -> i ∈ index <$> cands.
Proof.
  intros Hnd Hr.
  destruct (greedy_set_cover_inv _ _ _ _ _ _ _ _ Hr)
    as (stf & share & indices & Hrun & _ & Hcomp & ->).
  destruct (greedy_while_invariant cands covs points f cw qw
              (loop_inv cands covs points)
              (loop_inv_step cands covs points f cw qw)
              _ _ (loop_inv_initial cands covs points) Hrun) as [Hinv _].
  rewrite (py_comprehension_index cands _ (inv_bound _ _ _ _ Hinv)) in Hcomp.
  injection Hcomp as <-. simpl.
  assert (Hat : forall j, j ∈ picked stf ->
            (index <$> cands) !! j = Some (index_at cands j)).
  { intros j Hj. apply (inv_bound _ _ _ _ Hinv) in Hj.
    destruct (lookup_lt_is_Some_2 cands j Hj) as [c Hc].
    unfold index_at. rewrite list_lookup_fmap, Hc. reflexivity. }
  split; [|split; [|split]].
  - apply NoDup_fmap_2_strong; [|apply (inv_nodup _ _ _ _ Hinv)].
    intros x y Hx Hy Heq. apply Hat in Hx, Hy. rewrite Heq in Hx.
    eapply NoDup_lookup; eauto.
  - now rewrite length_fmap.
  - reflexivity.
  - intros i Hi. apply list_elem_of_fmap in Hi. destruct Hi as (j & -> & Hj).
    eapply list_elem_of_lookup_2. apply Hat, Hj.
Qed.

(** So does the MILP driver. *)
Lemma milp_selected_indices lib (cands : list (CoverageCandidate (G:=G))) covs points
    area f cw qw timeout r :
  NoDup (index <$> cands) ->
  optimal_set_cover_milp lib cands covs points area f cw qw timeout = Ok (Some r) ->
  NoDup (selected_indices r) /\
  num_selected r = length (selected_indices r) /\
  num_candidates r = length cands /\
  forall i, i ∈ selected_indices r -> i ∈ index <$> cands.
Proof.
  intros Hnd Hr.
  destruct (optimal_set_cover_milp_inv _ _ _ _ _ _ _ _ _ _ Hr)
    as (model & selected & covered & fraction & opt & _ & Hext & _ & ->).
  apply extract_solution_sublist in Hext. destruct Hext as (kept & -> & Hsub).
  simpl. split; [|split; [|split]]; try reflexivity.
  - eapply sublist_NoDup; eauto.
  - intros i Hi. eapply sublist_submseteq, elem_of_submseteq in Hsub; eauto.
Qed.

(** C2 (amended). Selection validity through the dispatcher. For every result
    of [select_covering_products], with either solver: the entries of
    [selected_indices] are distinct, [num_selected] is their number, and every
    entry is an index into the product list the dispatcher was given, that is
    lies in [[0, len(processed_products))]; [num_candidates] is the number of
    products whose footprint is a [Polygon] or a [MultiPolygon], which is at
    most [len(processed_products)]. *)
Theorem selection_validity lib (processed_products : list (Product (G:=G)))
    aoi_geom aoi_area_m2 target_crs strategy min_coverage_fraction
    grid_spacing_meters solver_timeout cloud_weight quality_weight r :
  select_covering_products lib processed_products aoi_geom aoi_area_m2
    target_crs strategy min_coverage_fraction grid_spacing_meters
    solver_timeout cloud_weight quality_weight = Ok r ->
  NoDup (selected_indices r) /\
  num_selected r = length (selected_indices r) /\
  Forall (fun i => (i < length processed_products)%nat) (selected_indices r) /\
  num_candidates r
  = length (List.filter has_polygon_footprint processed_products) /\
  (num_candidates r <= length processed_products)%nat.
Proof.
  intros Hr. apply select_covering_products_inv in Hr.
  destruct Hr as (cands & covs & points & Hinst & Hr).
  pose proof (coverage_instance_candidates _ _ _ _ _ _ _ _ _ _ Hinst) as Hcount.
  apply coverage_instance_inv in Hinst.
  destruct Hinst as (_ & _ & Hnd & Hall & Hlen).
  assert (Hsel : NoDup (selected_indices r) /\
                 num_selected r = length (selected_indices r) /\
                 num_candidates r = length cands /\
                 forall i, i ∈ selected_indices r -> i ∈ index <$> cands).
  { destruct Hr as [Hr|Hr].
    - eapply greedy_selected_indices; eauto.
    - eapply milp_selected_indices; eauto. }
  destruct Hsel as (Hnd' & Hnum & Hcand & Hin).
  split; [exact Hnd'|]. split; [exact Hnum|].
  split; [|split; [congruence|lia]].
  apply Forall_forall. intros i Hi. apply Hin in Hi.
  apply list_elem_of_fmap in Hi. destruct Hi as (c & -> & Hc).
  rewrite Forall_forall in Hall. now apply Hall.
Qed.

(** C5. MILP failure fallback. On the instance of a call, when the solver
    ends with a status other than [OPTIMAL] and [FEASIBLE], the MILP driver
    returns [None], and the dispatcher with strategy [coverage_optimal]
    returns what the greedy solver returns on that instance, which is a
    result and not an exception. *)
Theorem milp_failure_fallback lib (processed_products : list (Product (G:=G)))
    aoi_geom aoi_area_m2 target_crs min_coverage_fraction grid_spacing_meters
    solver_timeout cloud_weight quality_weight candidates coverage_sets
    sample_points model :
  coverage_instance lib processed_products aoi_geom aoi_area_m2 target_crs
    min_coverage_fraction grid_spacing_meters
    = Ok (candidates, coverage_sets, sample_points) ->
  build_milp candidates coverage_sets sample_points min_coverage_fraction
    cloud_weight quality_weight solver_timeout = Ok model ->
  fst (cbc_solve lib model) <> OPTIMAL ->
  fst (cbc_solve lib model) <> FEASIBLE ->
  optimal_set_cover_milp lib candidates coverage_sets sample_points aoi_area_m2
    min_coverage_fraction cloud_weight quality_weight solver_timeout = Ok None /\
  select_covering_products lib processed_products aoi_geom aoi_area_m2
    target_crs "coverage_optimal" min_coverage_fraction grid_spacing_meters
    solver_timeout cloud_weight quality_weight
  = greedy_set_cover candidates coverage_sets sample_points aoi_area_m2
      min_coverage_fraction cloud_weight quality_weight /\
  exists r,
    greedy_set_cover candidates coverage_sets sample_points aoi_area_m2
      min_coverage_fraction cloud_weight quality_weight = Ok r.
Proof.
  intros Hinst Hbuild Hopt Hfeas.
  pose proof (optimal_set_cover_milp_failure _ _ _ _ aoi_area_m2 _ _ _ _ _
                Hbuild Hopt Hfeas) as Hnone.
  split; [exact Hnone|]. split.
  - unfold select_covering_products. rewrite Hinst. simpl. rewrite Hnone.
    reflexivity.
  - apply coverage_instance_inv in Hinst.
    destruct Hinst as (Hne & Hlen & _).
    destruct (greedy_set_cover_returns candidates coverage_sets sample_points
                aoi_area_m2 min_coverage_fraction cloud_weight quality_weight Hlen)
      as (stf & _ & _ & _ & Hres).
    + destruct sample_points; [congruence|simpl; lia].
    + eauto.
Qed.

End DispatcherFacts.

Lemma selection_validity_witness :
  exists r,
    select_covering_products lib_select_all [product_january; product_december]
      square10 100 "EPSG:32634" "coverage_optimal" (99 # 100) (Some 5) 300
      (3 # 10) (7 # 10) = Ok r /\
    NoDup (selected_indices r) /\
    num_selected r = length (selected_indices r) /\
    Forall (fun i => (i < 2)%nat) (selected_indices r) /\
    num_candidates r
    = length (List.filter has_polygon_footprint
                [product_january; product_december]) /\
    (num_candidates r <= 2)%nat.
Proof.
  assert (Hr : select_covering_products lib_select_all
                 [product_january; product_december] square10 100 "EPSG:32634"
                 "coverage_optimal" (99 # 100) (Some 5) 300 (3 # 10) (7 # 10)
               = Ok (mkResult [1%nat] (4 # 4) (0 # 4) 1 1 "milp" (Some true)))
    by (vm_compute; reflexivity).
  eexists. split; [exact Hr|].
  exact (selection_validity _ _ _ _ _ _ _ _ _ _ _ _ Hr).
Defined.

(** C2, as stated, fails: the first of two products has no footprint, so the
    second is the only candidate; it is selected under its index 1 in the
    product list, and [num_candidates] is 1. *)
Lemma selection_validity_counterexample :
  exists r,
    select_covering_products lib_without_ortools
      [product_january; product_december] square10 100 "EPSG:32634"
      "coverage_greedy" (99 # 100) (Some 5) 300 (3 # 10) (7 # 10) = Ok r /\
    ~ Forall (fun i => (i < num_candidates r)%nat) (selected_indices r).
Proof.
  exists (mkResult [1%nat] (4 # 4) (0 # 4) 1 1 "greedy" (Some false)).
  split; [vm_compute; reflexivity|].
  simpl. intros Hall. apply Forall_cons_1 in Hall. lia.
Qed.

Lemma milp_failure_fallback_witness :
  select_covering_products lib_infeasible [product_january; product_december]
    square10 100 "EPSG:32634" "coverage_optimal" (99 # 100) (Some 5) 300
    (3 # 10) (7 # 10)
  = Ok (mkResult [1%nat] (4 # 4) (0 # 4) 1 1 "greedy" (Some false)).
Proof.
  edestruct (milp_failure_fallback lib_infeasible
               [product_january; product_december] square10 100 "EPSG:32634"
               (99 # 100) (Some 5) 300 (3 # 10) (7 # 10))
    as (Hnone & Heq & r & Hr);
    [vm_compute; reflexivity|vm_compute; reflexivity|discriminate|discriminate|].
  rewrite Heq. vm_compute. reflexivity.
Defined.

(** ** Sorting by descending key *)

Section SortFacts.

Context {A : Type}.
Variable key : A -> Q.

(** Descending order of the keys. *)
Definition descending (a b : A) : Prop := key b <= key a.

(** The elements whose key is [q]. *)
Definition with_key (q : Q) (l : list A) : list A :=
  List.filter (fun a => Qeq_bool (key a) q) l.

Lemma insert_desc_perm x l : Permutation (insert_desc key x l) (x :: l).
Proof.
  induction l as [|y l IH]; simpl; [reflexivity|].
  destruct (Qltb (key x) (key y)); [|reflexivity].
  rewrite IH. apply perm_swap.
Qed.

Lemma sorted_reverse_perm l : Permutation (sorted_reverse key l) l.
Proof.
  induction l as [|x l IH]; simpl; [reflexivity|].
  rewrite insert_desc_perm. now constructor.
Qed.

Lemma insert_desc_sorted x l :
  StronglySorted descending l -> StronglySorted descending (insert_desc key x l).
Proof.
  induction l as [|y l IH]; intros Hs; simpl.
  - repeat constructor.
  - apply StronglySorted_inv in Hs. destruct Hs as [Hl Hy].
    destruct (Qltb (key x) (key y)) eqn:Hxy.
    + apply Qltb_true in Hxy. constructor; [now apply IH|].
      rewrite insert_desc_perm. constructor; [|exact Hy].
      unfold descending. now apply Qlt_le_weak.
    + apply Qltb_false in Hxy. constructor; [now constructor|].
      constructor; [exact Hxy|].
      eapply Forall_impl; [exact Hy|]. unfold descending. simpl.
      intros z Hz. eapply Qle_trans; eauto.
Qed.

Lemma sorted_reverse_sorted l : StronglySorted descending (sorted_reverse key l).
Proof.
  induction l as [|x l IH]; simpl; [constructor|]. now apply insert_desc_sorted.
Qed.

Lemma insert_desc_stable q x l :
  with_key q (insert_desc key x l) = with_key q (x :: l).
Proof.
  induction l as [|y l IH]; [reflexivity|]. simpl.
  destruct (Qltb (key x) (key y)) eqn:Hxy; [|reflexivity].
  apply Qltb_true in Hxy. unfold with_key in *. simpl in *. rewrite IH.
  destruct (Qeq_bool (key x) q) eqn:Hx; [|reflexivity].
  destruct (Qeq_bool (key y) q) eqn:Hy; [|reflexivity].
  apply Qeq_bool_iff in Hx, Hy. rewrite Hx, Hy in Hxy.
  now apply Qlt_irrefl in Hxy.
Qed.

(** Stability: elements of equal key keep their order. *)
Lemma sorted_reverse_stable q l : with_key q (sorted_reverse key l) = with_key q l.
Proof.
  induction l as [|x l IH]; [reflexivity|]. simpl sorted_reverse.
  rewrite insert_desc_stable. unfold with_key in *. simpl. now rewrite IH.
Qed.

End SortFacts.

(** ** The selection strategies *)

Section SelectionFacts.

Context {G : Type} `{Shapely G}.
Variable lib : Libraries.

(** C6 (amended). The [best_n] strategy. For a non-empty product list the
    function returns the slice [[:max_products]], which for a non-negative
    [max_products] is the first [max_products] elements, of the scored
    products sorted by [quality_score] descending; the sort is stable, so
    products of equal score stay in the order of the input list. No event is
    logged. *)
Theorem best_n_stable_top (first : Product (G:=G)) (rest : list Product)
    (max_products : Z) (quality_threshold aoi_weight cloud_weight recency_weight : Q)
    (aoi_geom : option G) (aoi_area_m2 : option Q) (target_crs : option CRS)
    (min_coverage_fraction : Q) (grid_spacing_meters : option Q)
    (solver_timeout : Z) (coverage_cloud_weight coverage_quality_weight : Q) :
  let scored := score_products aoi_weight cloud_weight recency_weight first rest in
  let ranked := sorted_reverse score_key scored in
  auto_select_products lib (first :: rest) "best_n" max_products
    quality_threshold aoi_weight cloud_weight recency_weight aoi_geom
    aoi_area_m2 target_crs min_coverage_fraction grid_spacing_meters
    solver_timeout coverage_cloud_weight coverage_quality_weight
  = (py_slice_to ranked max_products, []) /\
  ((0 <= max_products)%Z ->
   py_slice_to ranked max_products = take (Z.to_nat max_products) ranked) /\
  Permutation ranked scored /\
  StronglySorted (descending score_key) ranked /\
  forall q, with_key score_key q ranked = with_key score_key q scored.
Proof.
  intros scored ranked. split; [|split; [|split; [|split]]].
  - unfold auto_select_products. fold scored. fold ranked.
    now rewrite String.eqb_refl.
  - intros Hn. unfold py_slice_to.
    destruct (Z.ltb_spec max_products 0); [lia|reflexivity].
  - apply sorted_reverse_perm.
  - apply sorted_reverse_sorted.
  - intros q. apply sorted_reverse_stable.
Qed.

(** C10. An empty product list gives the empty list under every strategy:
    nothing is raised, the coverage optimiser is not called and no fallback
    is logged. *)
Theorem auto_select_empty (strategy : string)
    (max_products : Z) (quality_threshold aoi_weight cloud_weight recency_weight : Q)
    (aoi_geom : option G) (aoi_area_m2 : option Q) (target_crs : option CRS)
    (min_coverage_fraction : Q) (grid_spacing_meters : option Q)
    (solver_timeout : Z) (coverage_cloud_weight coverage_quality_weight : Q) :
  auto_select_products lib [] strategy max_products quality_threshold
    aoi_weight cloud_weight recency_weight aoi_geom aoi_area_m2 target_crs
    min_coverage_fraction grid_spacing_meters solver_timeout
    coverage_cloud_weight coverage_quality_weight
  = ([], []).
Proof. reflexivity. Qed.

End SelectionFacts.

Lemma best_n_stable_top_witness :
  auto_select_products lib_without_ortools [product_january; product_december]
    "best_n" 1 (7 # 10) (4 # 10) (4 # 10) (2 # 10) None None None (99 # 100)
    None 300 (3 # 10) (7 # 10)
  = (take 1 (sorted_reverse score_key
               (score_products (4 # 10) (4 # 10) (2 # 10) product_january
                  [product_december])), []).
Proof.
  destruct (best_n_stable_top lib_without_ortools product_january
              [product_december] 1 (7 # 10) (4 # 10) (4 # 10) (2 # 10) None None
              None (99 # 100) None 300 (3 # 10) (7 # 10))
    as (Hout & Hslice & _).
  rewrite Hout, Hslice; [reflexivity|lia].
Defined.

(** C6, as stated, fails: two products of equal quality score, the second
    with the higher AOI coverage; [best_n] with [max_products = 1] returns the
    first, which has the lower AOI coverage. *)
Lemma best_n_counterexample :
  let scored :=
    score_products (4 # 10) (4 # 10) (2 # 10) product_january [product_december] in
  let selected :=
    fst (auto_select_products lib_without_ortools
           [product_january; product_december] "best_n" 1 (7 # 10) (4 # 10)
           (4 # 10) (2 # 10) None None None (99 # 100) None 300 (3 # 10) (7 # 10)) in
  Forall (fun p => score_key p == 8 # 10) scored /\
  p_aoi_coverage_pct <$> scored = [Some 50; Some 100] /\
  p_Name <$> selected = ["S2A_MSIL2A_20240101"] /\
  p_aoi_coverage_pct <$> selected = [Some 50].
Proof.
  cbv zeta. split; [|repeat split; vm_compute; reflexivity].
  repeat constructor; vm_compute; reflexivity.
Qed.

(** C7, on the code: the week key joins the calendar year with the ISO week.
    Monday 2024-01-01 is in ISO week (2024, 1) and Monday 2024-12-30 in ISO
    week (2025, 1), and both get the key "2024-W01": one product is returned
    for the two weeks. Monday 2024-12-30 and Wednesday 2025-01-01 are both in
    ISO week (2025, 1) and get the keys "2024-W01" and "2025-W01": two
    products are returned for the one week. *)
Lemma best_per_week_year_boundary :
  let best_per_week products :=
    p_Name <$>
      fst (auto_select_products lib_without_ortools products "best_per_week" 5
             (7 # 10) (4 # 10) (4 # 10) (2 # 10) None None None (99 # 100) None
             300 (3 # 10) (7 # 10)) in
  fst (isocalendar (mkDate 2024 1 1)) = (2024, 1)%Z /\
  fst (isocalendar (mkDate 2024 12 30)) = (2025, 1)%Z /\
  fst (isocalendar (mkDate 2025 1 1)) = (2025, 1)%Z /\
  week_key (mkDate 2024 1 1) = "2024-W01" /\
  week_key (mkDate 2024 12 30) = "2024-W01" /\
  week_key (mkDate 2025 1 1) = "2025-W01" /\
  best_per_week [product_january; product_december] = ["S2A_MSIL2A_20240101"] /\
  best_per_week [product_december; product_new_year]
    = ["S2B_MSIL2A_20241230"; "S2A_MSIL2A_20250101"].
Proof.
  cbv zeta. repeat split; vm_compute; reflexivity.
Qed.

(** ** Configuration *)

Module ConfigFacts.
Import ConfigSchema.

(** The weights the claim calls acceptable, and the ones it calls wrong, on
    the exact sum. *)
Definition weights_accepted (c : AutoSelectConfig) : Prop :=
  Qabs (aoi_coverage_weight c + cloud_cover_weight c + recency_weight c - 1)
    <= 1 # 100 /\
  0 <= aoi_coverage_weight c /\ 0 <= cloud_cover_weight c /\ 0 <= recency_weight c.

Definition weights_rejected (c : AutoSelectConfig) : Prop :=
  1 # 100 < Qabs (aoi_coverage_weight c + cloud_cover_weight c + recency_weight c - 1) \/
  aoi_coverage_weight c < 0 \/ cloud_cover_weight c < 0 \/ recency_weight c < 0.

(** Validity of the fields other than the three quality weights. *)
Definition other_fields_valid (lib : Libraries) (c : AutoSelectConfig) : Prop :=
  (0 < max_products c)%Z /\
  0 <= quality_threshold c /\ quality_threshold c <= 1 /\
  1 # 2 <= min_coverage_fraction c /\ min_coverage_fraction c <= 1 /\
  (forall s, grid_spacing_meters c = Some s -> 0 < s) /\
  (0 < solver_timeout_seconds c)%Z /\
  Qabs (coverage_cloud_weight c + coverage_quality_weight c - 1) <= 1 # 100 /\
  0 <= coverage_cloud_weight c /\ 0 <= coverage_quality_weight c /\
  (strategy c = "coverage_optimal" -> ortools_importable lib = true).

Lemma check_bind (b : bool) msg (k : unit -> result unit) :
  (check b msg ≫= k) = if b then k tt else Raise (ValueError msg).
Proof. now destruct b. Qed.

Lemma check_true (b : bool) msg (k : unit -> result unit) :
  b = true -> (check b msg ≫= k) = k tt.
Proof. now intros ->. Qed.

Lemma Qle_bool_true a b : a <= b -> Qle_bool a b = true.
Proof. apply Qle_bool_iff. Qed.

(** A distance from the tolerance beyond which the rounding of doubles does
    not decide a tolerance test: rounding moves a sum of weights near 1 by
    less than [1e-15]. *)
Definition rounding_margin : Q := 1 # 1000000000.

(** Weights that sum to 1 within the tolerance less the margin, and weights
    whose sum is off by more than the tolerance plus the margin. *)
Definition weights_within (c : AutoSelectConfig) : Prop :=
  Qabs (aoi_coverage_weight c + cloud_cover_weight c + recency_weight c - 1)
    <= (1 # 100) - rounding_margin /\
  0 <= aoi_coverage_weight c /\ 0 <= cloud_cover_weight c /\ 0 <= recency_weight c.

Definition weights_beyond (c : AutoSelectConfig) : Prop :=
  (1 # 100) + rounding_margin
    < Qabs (aoi_coverage_weight c + cloud_cover_weight c + recency_weight c - 1) \/
  aoi_coverage_weight c < 0 \/ cloud_cover_weight c < 0 \/ recency_weight c < 0.

(** The other fields are valid, the coverage weights too summing to 1 within
    the tolerance less the margin. *)
Definition other_fields_within (lib : Libraries) (c : AutoSelectConfig) : Prop :=
  other_fields_valid lib c /\
  Qabs (coverage_cloud_weight c + coverage_quality_weight c - 1)
    <= (1 # 100) - rounding_margin.

(** The two tolerance tests on doubles come out as on the exact sums. *)
Definition tolerance_tests_exact (c : AutoSelectConfig) : Prop :=
  weights_off_double (aoi_coverage_weight c) (cloud_cover_weight c)
    (recency_weight c)
  = Qgtb (Qabs (aoi_coverage_weight c + cloud_cover_weight c + recency_weight c - 1))
         (1 # 100) /\
  coverage_weights_off_double (coverage_cloud_weight c) (coverage_quality_weight c)
  = Qgtb (Qabs (coverage_cloud_weight c + coverage_quality_weight c - 1)) (1 # 100).

(** The checks of the three quality weights, on the exact sum. *)
Lemma post_init_weights (lib : Libraries) (c : AutoSelectConfig) :
  (weights_rejected c -> exists msg, post_init lib c = Raise (ValueError msg)) /\
  (other_fields_valid lib c -> weights_accepted c -> post_init lib c = Ok tt).
Proof.
  split.
  - intros Hbad. unfold post_init.
    rewrite check_bind. destruct (negb (max_products c <=? 0)%Z); [|eauto].
    rewrite check_bind.
    destruct (Qle_bool 0 (quality_threshold c) && Qle_bool (quality_threshold c) 1);
      [|eauto].
    cbv zeta. rewrite check_bind.
    destruct (negb (Qgtb (Qabs (aoi_coverage_weight c + cloud_cover_weight c
                                + recency_weight c - 1)) (1 # 100))) eqn:H3; [|eauto].
    rewrite check_bind.
    destruct (negb (existsb (fun w => Qltb w 0)
                      [aoi_coverage_weight c; cloud_cover_weight c; recency_weight c]))
      eqn:H4; [|eauto].
    exfalso.
    apply negb_true_iff, Qgtb_false in H3.
    apply negb_true_iff in H4. simpl in H4.
    apply orb_false_elim in H4. destruct H4 as [Ha H4].
    apply orb_false_elim in H4. destruct H4 as [Hc H4].
    apply orb_false_elim in H4. destruct H4 as [Hr _].
    apply Qltb_false in Ha, Hc, Hr.
    destruct Hbad as [Hs|[Hn|[Hn|Hn]]].
    + exact (Qlt_not_le _ _ Hs H3).
    + exact (Qlt_not_le _ _ Hn Ha).
    + exact (Qlt_not_le _ _ Hn Hc).
    + exact (Qlt_not_le _ _ Hn Hr).
  - intros (Hmax & Hq0 & Hq1 & Hf0 & Hf1 & Hgrid & Htime & Hcs & Hcc & Hcq & Hort)
           (Hsum & Ha & Hc & Hr).
    unfold post_init.
    rewrite check_true by (apply negb_true_iff, Z.leb_gt; lia).
    rewrite check_true by (now rewrite !Qle_bool_true).
    cbv zeta.
    rewrite check_true by (apply negb_true_iff, Qgtb_false; exact Hsum).
    rewrite check_true.
    2:{ apply negb_true_iff. simpl.
        rewrite !(proj2 (Qltb_false _ _)) by assumption. reflexivity. }
    rewrite check_true by (now rewrite !Qle_bool_true).
    rewrite check_true.
    2:{ destruct (grid_spacing_meters c) as [s|] eqn:Hs; [|reflexivity].
        change (Qgtb s 0 = true). apply Qgtb_true. now apply Hgrid. }
    rewrite check_true by (apply negb_true_iff, Z.leb_gt; lia).
    rewrite check_true by (apply negb_true_iff, Qgtb_false; exact Hcs).
    rewrite check_true.
    2:{ apply negb_true_iff.
        rewrite !(proj2 (Qltb_false _ _)) by assumption. reflexivity. }
    destruct (String.eqb_spec (strategy c) "coverage_optimal") as [Hst|_];
      [|reflexivity].
    rewrite (Hort Hst). reflexivity.
Qed.

(** [coverage_optimal] without OR-Tools is refused, whatever the weights. *)
Lemma post_init_needs_ortools (lib : Libraries) (c : AutoSelectConfig) :
  strategy c = "coverage_optimal" -> ortools_importable lib = false ->
  exists msg, post_init lib c = Raise (ValueError msg).
Proof.
  intros Hst Hort. unfold post_init.
  repeat (rewrite check_bind;
          match goal with
          | |- exists _, (if ?b then _ else _) = _ => destruct b; [|eauto]
          end).
  rewrite Hst, Hort. simpl. eauto.
Qed.

(** The constructor on doubles is the constructor on rationals whenever its
    two tolerance tests come out as on the exact sums. *)
Lemma post_init_double_exact (lib : Libraries) (c : AutoSelectConfig) :
  tolerance_tests_exact c -> post_init_double lib c = post_init lib c.
Proof.
  intros [Hw Hc]. unfold post_init_double, post_init. cbv zeta.
  rewrite Hw, Hc. reflexivity.
Qed.


(** The default configuration of the [best_n] strategy. *)
Definition default_config : AutoSelectConfig :=
  mkAutoSelectConfig "best_n" 5 (7 # 10) (4 # 10) (4 # 10) (2 # 10) (99 # 100)
    None 300 (3 # 10) (7 # 10).

(** The same with an AOI weight of 0.5: the weights sum to 1.1. *)
Definition heavy_config : AutoSelectConfig :=
  mkAutoSelectConfig "best_n" 5 (7 # 10) (5 # 10) (4 # 10) (2 # 10) (99 # 100)
    None 300 (3 # 10) (7 # 10).

(** The same with three weights of 0.33: the weights sum to 0.99. *)
Definition thirds_config : AutoSelectConfig :=
  mkAutoSelectConfig "best_n" 5 (7 # 10) (33 # 100) (33 # 100) (33 # 100)
    (99 # 100) None 300 (3 # 10) (7 # 10).

(** The same with the weights [1.0], [2^-53] and the double
    [0.009999999999999898]: the sum is off by a little more than 0.01. *)
Definition rounded_config : AutoSelectConfig :=
  mkAutoSelectConfig "best_n" 5 (7 # 10) 1 (1 # 9007199254740992)
    (90071992547409 # 9007199254740992) (99 # 100) None 300 (3 # 10) (7 # 10).

Lemma default_config_valid :
  other_fields_valid lib_without_ortools default_config.
Proof.
  unfold other_fields_valid, default_config. simpl.
  repeat split; try lia; try (vm_compute; discriminate); try discriminate.
Qed.



End ConfigFacts.

(** * Further properties of the selection layer and the coverage engine *)

(** ** Clamping *)

Lemma py_max_ge_l a b : a <= py_max a b.
Proof.
  unfold py_max. destruct (Qgtb b a) eqn:E; [|apply Qle_refl].
  apply Qgtb_true in E. now apply Qlt_le_weak.
Qed.

Lemma py_max_lub a b c : a <= c -> b <= c -> py_max a b <= c.
Proof. intros Ha Hb. unfold py_max. now destruct (Qgtb b a). Qed.

Lemma py_min_le_l a b : py_min a b <= a.
Proof.
  unfold py_min. destruct (Qltb b a) eqn:E; [|apply Qle_refl].
  apply Qltb_true in E. now apply Qlt_le_weak.
Qed.

Lemma py_min_glb a b c : c <= a -> c <= b -> c <= py_min a b.
Proof. intros Ha Hb. unfold py_min. now destruct (Qltb b a). Qed.

(** [max(lo, min(hi, x))] keeps a value that is already between the bounds. *)
Lemma py_clamp_inside lo hi x : lo <= x -> x <= hi -> py_max lo (py_min hi x) == x.
Proof.
  intros Hlo Hhi. unfold py_max, py_min.
  destruct (Qltb x hi) eqn:E1.
  - destruct (Qgtb x lo) eqn:E2; [reflexivity|].
    apply Qgtb_false in E2. now apply Qle_antisym.
  - apply Qltb_false in E1.
    assert (Hx : x == hi) by now apply Qle_antisym.
    destruct (Qgtb hi lo) eqn:E2; [now symmetry|].
    apply Qgtb_false in E2. rewrite Hx. apply Qle_antisym; [|exact E2].
    now rewrite <- Hx.
Qed.

Lemma py_clamp_bounds lo hi x : lo <= hi -> lo <= py_max lo (py_min hi x) <= hi.
Proof.
  intros H. split; [apply py_max_ge_l|].
  apply py_max_lub; [exact H|apply py_min_le_l].
Qed.

(** Clamping is monotone. *)
Lemma py_clamp_mono lo hi x y :
  x <= y -> py_max lo (py_min hi x) <= py_max lo (py_min hi y).
Proof.
  intros Hxy.
  assert (Hmin : py_min hi x <= py_min hi y).
  { unfold py_min. destruct (Qltb x hi) eqn:Ex, (Qltb y hi) eqn:Ey.
    - exact Hxy.
    - apply Qltb_true in Ex. now apply Qlt_le_weak.
    - apply Qltb_false in Ex. apply Qltb_true in Ey.
      exfalso. apply (Qlt_irrefl y). eapply Qlt_le_trans; [exact Ey|].
      eapply Qle_trans; eauto.
    - apply Qle_refl. }
  unfold py_max.
  destruct (Qgtb (py_min hi x) lo) eqn:Ex, (Qgtb (py_min hi y) lo) eqn:Ey.
  - exact Hmin.
  - apply Qgtb_true in Ex. apply Qgtb_false in Ey.
    exfalso. apply (Qlt_irrefl lo). eapply Qlt_le_trans; [exact Ex|].
    eapply Qle_trans; eauto.
  - apply Qgtb_true in Ey. now apply Qlt_le_weak.
  - apply Qle_refl.
Qed.

(** ** The quality scorer *)

Section ScoreFacts.

Context {G : Type} `{Shapely G}.

(** The score before clamping: the weighted sum of the three normalised
    terms. *)
Definition weighted_score (aoi_coverage_pct cloud_cover_pct date_diff_days
    max_date_diff_days aoi_weight cloud_weight recency_weight : Q) : Q :=
  aoi_weight * (aoi_coverage_pct / 100)
  + cloud_weight * (1 - cloud_cover_pct / 100)
  + recency_weight
    * (if Qgtb max_date_diff_days 0 then 1 - date_diff_days / max_date_diff_days
       else 1).

(** X1. The quality score is in [0, 1] for all inputs, and for percentages in
    [0, 100], a date difference between 0 and the batch maximum, and
    non-negative weights that sum to 1 it is the weighted sum itself: the
    clamp changes nothing. *)
Theorem quality_score_range (product : Product (G:=G))
    (aoi cloud dd max_dd wa wc wr : Q) :
  (0 <= calculate_quality_score product aoi cloud dd max_dd wa wc wr <= 1) /\
  (0 <= aoi <= 100 -> 0 <= cloud <= 100 -> 0 <= dd <= max_dd ->
   0 <= wa -> 0 <= wc -> 0 <= wr -> wa + wc + wr == 1 ->
   calculate_quality_score product aoi cloud dd max_dd wa wc wr
   == weighted_score aoi cloud dd max_dd wa wc wr).
Proof.
  split.
  - unfold calculate_quality_score. apply py_clamp_bounds. discriminate.
  - intros [Ha0 Ha1] [Hc0 Hc1] [Hd0 Hd1] Hwa Hwc Hwr Hsum.
    unfold calculate_quality_score.
    fold (weighted_score aoi cloud dd max_dd wa wc wr).
    set (a := aoi / 100). set (c := 1 - cloud / 100).
    assert (Ha : 0 <= a <= 1).
    { unfold a. split.
      - apply Qle_shift_div_l; [reflexivity|]. lra.
      - apply Qle_shift_div_r; [reflexivity|]. lra. }
    assert (Hcl : 0 <= cloud / 100 <= 1).
    { split.
      - apply Qle_shift_div_l; [reflexivity|]. lra.
      - apply Qle_shift_div_r; [reflexivity|]. lra. }
    assert (Hc : 0 <= c <= 1) by (unfold c; lra).
    assert (Hr : 0 <= (if Qgtb max_dd 0 then 1 - dd / max_dd else 1) <= 1).
    { destruct (Qgtb max_dd 0) eqn:E; [|lra].
      apply Qgtb_true in E.
      assert (0 <= dd / max_dd <= 1).
      { split.
        - apply Qle_shift_div_l; [exact E|]. lra.
        - apply Qle_shift_div_r; [exact E|]. lra. }
      lra. }
    unfold weighted_score. fold a. fold c.
    set (r := if Qgtb max_dd 0 then 1 - dd / max_dd else 1) in *.
    apply py_clamp_inside; nra.
Qed.

End ScoreFacts.

Lemma quality_score_range_witness :
  calculate_quality_score product_december 100 50 0 0 (4 # 10) (4 # 10) (2 # 10)
  == weighted_score 100 50 0 0 (4 # 10) (4 # 10) (2 # 10).
Proof.
  apply (proj2 (quality_score_range product_december 100 50 0 0
                  (4 # 10) (4 # 10) (2 # 10)));
    try (split; discriminate); try discriminate; reflexivity.
Defined.

Section ScoreOrder.

Context {G : Type} `{Shapely G}.

(** X2. The quality score does not fall when the AOI coverage rises, the cloud
    cover falls or the date difference falls, for non-negative weights. *)
Theorem quality_score_monotone (product product' : Product (G:=G))
    (aoi aoi' cloud cloud' dd dd' max_dd wa wc wr : Q) :
  0 <= wa -> 0 <= wc -> 0 <= wr ->
  aoi <= aoi' -> cloud' <= cloud -> dd' <= dd ->
  calculate_quality_score product aoi cloud dd max_dd wa wc wr
  <= calculate_quality_score product' aoi' cloud' dd' max_dd wa wc wr.
Proof.
  intros Hwa Hwc Hwr Ha Hc Hd. unfold calculate_quality_score.
  apply py_clamp_mono.
  assert (H1 : wa * (aoi / 100) <= wa * (aoi' / 100)).
  { rewrite !(Qmult_comm wa). apply Qmult_le_compat_r; [|exact Hwa].
    apply Qmult_le_compat_r; [exact Ha|discriminate]. }
  assert (H2 : wc * (1 - cloud / 100) <= wc * (1 - cloud' / 100)).
  { rewrite !(Qmult_comm wc). apply Qmult_le_compat_r; [|exact Hwc].
    assert (cloud' / 100 <= cloud / 100)
      by (apply Qmult_le_compat_r; [exact Hc|discriminate]).
    lra. }
  assert (H3 : wr * (if Qgtb max_dd 0 then 1 - dd / max_dd else 1)
               <= wr * (if Qgtb max_dd 0 then 1 - dd' / max_dd else 1)).
  { rewrite !(Qmult_comm wr). apply Qmult_le_compat_r; [|exact Hwr].
    destruct (Qgtb max_dd 0) eqn:E; [|apply Qle_refl].
    apply Qgtb_true in E.
    assert (dd' / max_dd <= dd / max_dd).
    { apply Qmult_le_compat_r; [exact Hd|].
      apply Qlt_le_weak, Qinv_lt_0_compat, E. }
    lra. }
  lra.
Qed.

End ScoreOrder.

Lemma quality_score_monotone_witness :
  calculate_quality_score product_january 50 40 3 10 (4 # 10) (4 # 10) (2 # 10)
  <= calculate_quality_score product_december 80 10 1 10 (4 # 10) (4 # 10) (2 # 10).
Proof.
  apply quality_score_monotone; discriminate.
Defined.

(** ** The strategies of [auto_select_products] *)

Section StrategyFacts.

Context {G : Type} `{Shapely G}.
Variable lib : Libraries.

Abbreviation Weekly := (list (string * (Product (G:=G) * list (Product (G:=G))))).

(** Scoring keeps the products and their order, and sets [quality_score]. *)
Lemma score_products_spec wa wc wr (first : Product (G:=G)) rest :
  Forall2 (fun p0 p => exists q, p = set_quality_score p0 q /\ 0 <= q <= 1)
          (first :: rest) (score_products wa wc wr first rest).
Proof.
  unfold score_products.
  generalize (py_max_by (fun x => x) (get_default (p_date_diff_days first) 0)
                (map (fun p => get_default (p_date_diff_days p) 0) rest)).
  intros m. induction (first :: rest) as [|p l IH]; simpl; constructor; [|exact IH].
  eexists. split; [reflexivity|].
  unfold calculate_quality_score. apply py_clamp_bounds. discriminate.
Qed.

(** Elements at distinct positions of a list form a sub-multiset of it. *)
Lemma lookups_submseteq {A : Type} (l : list A) (js : list nat) (out : list A) :
  NoDup js -> Forall2 (fun j a => l !! j = Some a) js out -> out ⊆+ l.
Proof.
  intros Hnd Hall.
  destruct l as [|d l'] eqn:El.
  { destruct Hall as [|j a js' out' Hj _]; [reflexivity|]. discriminate. }
  rewrite <- El in *. clear El l'.
  assert (Hout : out = (fun j => nth j l d) <$> js).
  { induction Hall as [|j a js' out' Hj _ IH]; [reflexivity|].
    simpl. f_equal.
    - symmetry. now apply nth_lookup_Some.
    - apply IH. now inversion Hnd. }
  assert (Hl : l = (fun j => nth j l d) <$> seq 0 (length l)).
  { apply list_eq. intros i. rewrite list_lookup_fmap.
    destruct (decide (i < length l)%nat) as [Hi|Hi].
    - rewrite lookup_seq_lt by exact Hi. simpl.
      destruct (lookup_lt_is_Some_2 l i Hi) as [a Ha]. rewrite Ha.
      f_equal. symmetry. now apply nth_lookup_Some.
    - rewrite lookup_seq_ge by lia. simpl. apply lookup_ge_None. lia. }
  assert (Hlt : Forall (fun j => (j < length l)%nat) js).
  { clear Hout Hnd. induction Hall as [|j a js' out' Hj _ IH]; constructor; auto.
    eapply lookup_lt_Some; eauto. }
  rewrite Hout, Hl at 1. apply fmap_submseteq.
  apply NoDup_submseteq; [exact Hnd|].
  intros j Hj. apply list_elem_of_In, in_seq.
  rewrite Forall_forall in Hlt. apply Hlt in Hj. lia.
Qed.

Lemma py_comprehension_lookup {A : Type} (l : list A) (js : list nat) out :
  py_comprehension (py_index l) js = Ok out ->
  Forall2 (fun j a => l !! j = Some a) js out.
Proof.
  revert out. induction js as [|j js IH]; intros out Hout; simpl in Hout.
  - injection Hout as <-. constructor.
  - destruct (py_index l j) as [a|e] eqn:Hj; [|discriminate].
    destruct (py_comprehension (py_index l) js) as [bs|e]; [|discriminate].
    injection Hout as <-. constructor; [|auto].
    unfold py_index in Hj. destruct (l !! j); congruence.
Qed.

Lemma py_comprehension_lookup_ok {A : Type} (l : list A) (js : list nat) :
  Forall (fun j => (j < length l)%nat) js ->
  exists out, py_comprehension (py_index l) js = Ok out.
Proof.
  induction 1 as [|j js Hj _ [out IH]]; [simpl; eauto|].
  destruct (lookup_lt_is_Some_2 l j Hj) as [a Ha].
  assert (Hi : py_index l j = Ok a) by (unfold py_index; now rewrite Ha).
  cbn [py_comprehension]. rewrite Hi, IH. simpl. eauto.
Qed.

Lemma py_slice_to_sublist {A : Type} (l : list A) n : py_slice_to l n `sublist_of` l.
Proof. unfold py_slice_to. destruct (n <? 0)%Z; apply sublist_take. Qed.

Lemma filter_sublist {A : Type} (f : A -> bool) (l : list A) :
  List.filter f l `sublist_of` l.
Proof.
  induction l as [|a l IH]; simpl; [constructor|].
  destruct (f a); now constructor.
Qed.

(** [max] returns one of its arguments, and none of them has a larger key. *)
Lemma py_max_by_spec {A : Type} (key : A -> Q) (rest : list A) : forall x,
  py_max_by key x rest ∈ x :: rest /\
  forall y, y ∈ x :: rest -> key y <= key (py_max_by key x rest).
Proof.
  unfold py_max_by. induction rest as [|z rest IH]; intros x; simpl.
  - split; [left|]. intros y Hy. apply list_elem_of_singleton in Hy. subst.
    apply Qle_refl.
  - destruct (IH (if Qgtb (key z) (key x) then z else x)) as [Hin Hmax].
    split.
    + apply elem_of_cons in Hin. destruct Hin as [Hin|Hin].
      * rewrite Hin. destruct (Qgtb (key z) (key x)); [right; left|left].
      * right. now right.
    + intros y Hy.
      assert (Hstep : key x <= key (if Qgtb (key z) (key x) then z else x) /\
                      key z <= key (if Qgtb (key z) (key x) then z else x)).
      { destruct (Qgtb (key z) (key x)) eqn:E.
        - apply Qgtb_true in E. split; [now apply Qlt_le_weak|apply Qle_refl].
        - apply Qgtb_false in E. split; [apply Qle_refl|exact E]. }
      apply elem_of_cons in Hy. destruct Hy as [->|Hy].
      * eapply Qle_trans; [apply Hstep|]. apply Hmax. left.
      * apply elem_of_cons in Hy. destruct Hy as [->|Hy].
        -- eapply Qle_trans; [apply Hstep|]. apply Hmax. left.
        -- apply Hmax. now right.
Qed.

(** The week key the grouping loop gives a product; [None] for a product the
    loop skips. *)
Definition sensing_week (p : Product (G:=G)) : option string :=
  match p_sensing_date p with
  | None => None
  | Some "" => None
  | Some sensing_date_str =>
      match fromisoformat lib (replace_Z sensing_date_str) with
      | None => None
      | Some sensing_date => Some (week_key sensing_date)
      end
  end.

(** The products of all groups, in the order of the dictionary. *)
Definition weekly_values (weekly_products : Weekly)
    : list Product :=
  flat_map (fun '(_, (p0, ps)) => p0 :: ps) weekly_products.

Lemma group_by_week_fold (l : list (Product (G:=G))) :
  group_by_week lib l
  = fold_left (fun w p => match sensing_week p with
                          | None => w
                          | Some k => weekly_append w k p
                          end) l [].
Proof.
  unfold group_by_week. generalize ([] : Weekly).
  induction l as [|p l IH]; intros w; simpl; [reflexivity|].
  rewrite IH. f_equal. unfold sensing_week.
  destruct (p_sensing_date p) as [[|c s]|]; try reflexivity.
  destruct (fromisoformat lib _); reflexivity.
Qed.

Lemma weekly_append_values w k (p : Product (G:=G)) :
  Permutation (weekly_values (weekly_append w k p)) (weekly_values w ++ [p]).
Proof.
  induction w as [|[k' [p0 ps]] w IH]; simpl; [reflexivity|].
  destruct (String.eqb k' k); simpl.
  - rewrite <- !app_assoc. apply Permutation_cons; [reflexivity|].
    apply Permutation_app_head. apply Permutation_app_comm.
  - apply Permutation_cons; [reflexivity|].
    rewrite IH, app_assoc. reflexivity.
Qed.

Lemma weekly_append_keys w k (p : Product (G:=G)) :
  (weekly_append w k p).*1 = if bool_decide (k ∈ w.*1) then w.*1 else w.*1 ++ [k].
Proof.
  induction w as [|[k' [p0 ps]] w IH].
  - destruct (bool_decide_reflect (k ∈ ([] : Weekly).*1))
      as [Hk|_]; [inversion Hk|reflexivity].
  - cbn [weekly_append].
    destruct (bool_decide_reflect (k ∈ ((k', (p0, ps)) :: w).*1)) as [Hk|Hk];
      destruct (String.eqb_spec k' k) as [->|Hne]; cbn [fmap list_fmap fst] in *.
    + reflexivity.
    + rewrite IH. apply elem_of_cons in Hk. destruct Hk as [->|Hk]; [congruence|].
      now rewrite bool_decide_eq_true_2.
    + exfalso. apply Hk. left.
    + rewrite IH. rewrite bool_decide_eq_false_2; [reflexivity|].
      intros Hin. apply Hk. now right.
Qed.

(** The groups of a dictionary are well formed: distinct keys, and every
    product under the key of its own week. *)
Definition weekly_wf (w : Weekly) : Prop :=
  NoDup w.*1 /\
  Forall (fun '(k, (p0, ps)) => Forall (fun p => sensing_week p = Some k) (p0 :: ps)) w.

Lemma weekly_append_wf w k (p : Product (G:=G)) :
  sensing_week p = Some k -> weekly_wf w -> weekly_wf (weekly_append w k p).
Proof.
  intros Hp [Hnd Hall]. split.
  - rewrite weekly_append_keys. case_bool_decide as Hin; [exact Hnd|].
    apply NoDup_app. repeat split; [exact Hnd| |apply NoDup_singleton].
    intros x Hx Hx'. apply list_elem_of_singleton in Hx'. now subst.
  - clear Hnd. induction w as [|[k' [p0 ps]] w IH]; simpl.
    + repeat constructor. exact Hp.
    + inversion Hall as [|? ? Hg Hrest]; subst.
      destruct (String.eqb_spec k' k) as [->|Hne].
      * constructor; [|exact Hrest].
        change (p0 :: ps ++ [p]) with ((p0 :: ps) ++ [p]).
        apply Forall_app. split; [exact Hg|]. repeat constructor. exact Hp.
      * constructor; [exact Hg|]. now apply IH.
Qed.

Lemma group_by_week_spec (l : list (Product (G:=G))) :
  weekly_wf (group_by_week lib l) /\
  Permutation (weekly_values (group_by_week lib l))
              (List.filter (fun p => bool_decide (is_Some (sensing_week p))) l).
Proof.
  rewrite group_by_week_fold.
  assert (Hgen : forall w,
    weekly_wf w ->
    let w' := fold_left (fun w p => match sensing_week p with
                                    | None => w
                                    | Some k => weekly_append w k p
                                    end) l w in
    weekly_wf w' /\
    Permutation (weekly_values w')
      (weekly_values w
       ++ List.filter (fun p => bool_decide (is_Some (sensing_week p))) l)).
  { induction l as [|p l IH]; intros w Hw; simpl.
    - split; [exact Hw|]. now rewrite app_nil_r.
    - destruct (sensing_week p) as [k|] eqn:Hp.
      + destruct (IH (weekly_append w k p)) as [Hwf Hperm];
          [now apply weekly_append_wf|].
        split; [exact Hwf|].
        rewrite bool_decide_eq_true_2 by eauto.
        simpl in Hperm. rewrite Hperm, weekly_append_values, <- app_assoc.
        reflexivity.
      + rewrite bool_decide_eq_false_2 by (intros [? ?]; discriminate).
        now apply IH. }
  destruct (Hgen []) as [Hwf Hperm].
  - split; constructor.
  - split; [exact Hwf|exact Hperm].
Qed.

(** One product of each group: a sub-multiset of all grouped products. *)
Lemma weekly_best_submseteq (key : Product (G:=G) -> Q) w :
  map (fun '(_, (p0, ps)) => py_max_by key p0 ps) w ⊆+ weekly_values w.
Proof.
  induction w as [|[k [p0 ps]] w IH]; simpl; [reflexivity|].
  change (py_max_by key p0 ps :: map (fun '(_, (p0, ps)) => py_max_by key p0 ps) w)
    with ([py_max_by key p0 ps] ++ map (fun '(_, (p0, ps)) => py_max_by key p0 ps) w).
  change (p0 :: ps ++ weekly_values w) with ((p0 :: ps) ++ weekly_values w).
  apply submseteq_app; [|exact IH].
  apply singleton_submseteq_l. apply (py_max_by_spec key ps p0).
Qed.

(** The indices a coverage solver returns through the dispatcher are
    distinct positions of the product list. *)
Lemma select_covering_products_positions (products : list (Product (G:=G)))
    aoi area crs strategy f grid timeout cw qw r :
  select_covering_products lib products aoi area crs strategy f grid timeout cw qw
    = Ok r ->
  NoDup (selected_indices r) /\
  Forall (fun i => (i < length products)%nat) (selected_indices r).
Proof.
  intros Hr. apply select_covering_products_inv in Hr.
  destruct Hr as (cands & covs & points & Hinst & Hr).
  apply coverage_instance_inv in Hinst.
  destruct Hinst as (_ & _ & Hnd & Hall & _).
  assert (Hsel : NoDup (selected_indices r) /\
                 forall i, i ∈ selected_indices r -> i ∈ index <$> cands).
  { destruct Hr as [Hr|Hr].
    - eapply greedy_selected_indices in Hr; [|exact Hnd]. tauto.
    - eapply milp_selected_indices in Hr; [|exact Hnd]. tauto. }
  destruct Hsel as [Hnd' Hin]. split; [exact Hnd'|].
  apply Forall_forall. intros i Hi. apply Hin in Hi.
  apply list_elem_of_fmap in Hi. destruct Hi as (c & -> & Hc).
  rewrite Forall_forall in Hall. now apply Hall.
Qed.

Ltac eval_eqb :=
  repeat match goal with
         | |- context [String.eqb ?a ?b] =>
             let v := eval vm_compute in (String.eqb a b) in
             change (String.eqb a b) with v
         end.

(** X3. The [all_above_threshold] strategy returns exactly the scored products
    whose score is at least the threshold, best first, and logs nothing;
    [max_products] plays no part. *)
Theorem all_above_threshold_exact (first : Product (G:=G)) (rest : list Product)
    (max_products : Z) (quality_threshold aoi_weight cloud_weight recency_weight : Q)
    (aoi_geom : option G) (aoi_area_m2 : option Q) (target_crs : option CRS)
    (min_coverage_fraction : Q) (grid_spacing_meters : option Q)
    (solver_timeout : Z) (coverage_cloud_weight coverage_quality_weight : Q) :
  let scored := score_products aoi_weight cloud_weight recency_weight first rest in
  let out :=
    auto_select_products lib (first :: rest) "all_above_threshold" max_products
      quality_threshold aoi_weight cloud_weight recency_weight aoi_geom
      aoi_area_m2 target_crs min_coverage_fraction grid_spacing_meters
      solver_timeout coverage_cloud_weight coverage_quality_weight in
  snd out = [] /\
  (forall p, p ∈ fst out <-> p ∈ scored /\ quality_threshold <= score_key p) /\
  StronglySorted (descending score_key) (fst out) /\
  fst out ⊆+ scored.
Proof.
  intros scored out. subst out. unfold auto_select_products. fold scored.
  eval_eqb. cbn [fst snd].
  set (ranked := sorted_reverse score_key scored).
  split; [reflexivity|]. split; [|split].
  - intros p. rewrite list_elem_of_In, filter_In, <- list_elem_of_In.
    rewrite Qle_bool_iff.
    assert (Hperm : p ∈ ranked <-> p ∈ scored).
    { unfold ranked. now rewrite sorted_reverse_perm. }
    tauto.
  - pose proof (sorted_reverse_sorted score_key scored) as Hs. fold ranked in Hs.
    induction Hs as [|a l Hs IH Ha]; simpl; [constructor|].
    destruct (Qle_bool quality_threshold (score_key a)); [|exact IH].
    constructor; [exact IH|].
    rewrite List.Forall_forall in *. intros x Hx. apply filter_In in Hx.
    apply Ha, Hx.
  - etransitivity; [apply sublist_submseteq, filter_sublist|].
    unfold ranked. now rewrite sorted_reverse_perm.
Qed.


(** X5. Under every strategy the function returns a sub-multiset of the scored
    products: every returned product is an input product with its
    [quality_score] set to a value in [0, 1], and none is returned more
    often than it occurs in the input. *)
Theorem auto_select_submultiset (first : Product (G:=G)) (rest : list Product)
    (strategy : string) (max_products : Z)
    (quality_threshold aoi_weight cloud_weight recency_weight : Q)
    (aoi_geom : option G) (aoi_area_m2 : option Q) (target_crs : option CRS)
    (min_coverage_fraction : Q) (grid_spacing_meters : option Q)
    (solver_timeout : Z) (coverage_cloud_weight coverage_quality_weight : Q) :
  let scored := score_products aoi_weight cloud_weight recency_weight first rest in
  let out :=
    fst (auto_select_products lib (first :: rest) strategy max_products
           quality_threshold aoi_weight cloud_weight recency_weight aoi_geom
           aoi_area_m2 target_crs min_coverage_fraction grid_spacing_meters
           solver_timeout coverage_cloud_weight coverage_quality_weight) in
  out ⊆+ scored /\
  (length out <= length (first :: rest))%nat /\
  Forall (fun p => exists p0 q,
            p0 ∈ first :: rest /\ p = set_quality_score p0 q /\ 0 <= q <= 1) out.
Proof.
  intros scored out.
  assert (Hsub : out ⊆+ scored).
  { subst out. unfold auto_select_products. fold scored.
    set (ranked := sorted_reverse score_key scored).
    assert (Hranked : ranked ⊆+ scored).
    { unfold ranked. now rewrite sorted_reverse_perm. }
    assert (Hslice : py_slice_to ranked max_products ⊆+ scored).
    { etransitivity; [apply sublist_submseteq, py_slice_to_sublist|exact Hranked]. }
    destruct (String.eqb strategy "best_n"); [exact Hslice|].
    destruct (String.eqb strategy "all_above_threshold").
    { etransitivity; [apply sublist_submseteq, filter_sublist|exact Hranked]. }
    destruct (String.eqb strategy "best_per_week").
    { cbn [fst]. rewrite sorted_reverse_perm.
      etransitivity; [apply weekly_best_submseteq|].
      rewrite (proj2 (group_by_week_spec ranked)).
      etransitivity; [apply sublist_submseteq, filter_sublist|exact Hranked]. }
    destruct (String.eqb strategy "coverage_greedy" || String.eqb strategy "coverage_optimal");
      [|exact Hslice].
    destruct (COVERAGE_OPTIMIZER_AVAILABLE lib); cbn [negb]; [|exact Hslice].
    destruct aoi_geom as [aoi|]; [|exact Hslice].
    destruct aoi_area_m2 as [area|]; [|exact Hslice].
    destruct target_crs as [crs|]; [|exact Hslice].
    destruct (any_footprint scored); cbn [negb]; [|exact Hslice].
    destruct (select_covering_products lib scored aoi area crs strategy
                min_coverage_fraction grid_spacing_meters solver_timeout
                coverage_cloud_weight coverage_quality_weight) as [r|e] eqn:Hsel;
      cbn [mbind result_bind]; [|exact Hslice].
    pose proof (select_covering_products_positions _ _ _ _ _ _ _ _ _ _ _ Hsel)
      as [Hnd _].
    destruct (py_comprehension (py_index scored) (selected_indices r))
      as [sel|e] eqn:Hcomp; [|exact Hslice].
    cbn [fst]. eapply lookups_submseteq; [exact Hnd|].
    now apply py_comprehension_lookup. }
  split; [exact Hsub|]. split.
  - apply submseteq_length in Hsub.
    pose proof (Forall2_length _ _ _ (score_products_spec aoi_weight cloud_weight
                                        recency_weight first rest)) as Hlen.
    fold scored in Hlen. lia.
  - apply Forall_forall. intros p Hp.
    eapply elem_of_submseteq in Hp; [|exact Hsub].
    pose proof (score_products_spec aoi_weight cloud_weight recency_weight
                  first rest) as Hscored.
    fold scored in Hscored.
    apply list_elem_of_lookup in Hp. destruct Hp as [i Hi].
    destruct (Forall2_lookup_r _ _ _ _ _ Hscored Hi) as (p0 & Hp0 & q & -> & Hq).
    exists p0, q. split; [|split; [reflexivity|exact Hq]].
    eapply list_elem_of_lookup_2; eauto.
Qed.

(** X6. The [best_per_week] strategy returns one product for every week key
    that occurs among the products whose sensing date parses: a product of
    that key whose score no product of the key exceeds. The returned
    products are ordered best first, and nothing is logged. *)
Theorem best_per_week_one_per_key (first : Product (G:=G)) (rest : list Product)
    (max_products : Z) (quality_threshold aoi_weight cloud_weight recency_weight : Q)
    (aoi_geom : option G) (aoi_area_m2 : option Q) (target_crs : option CRS)
    (min_coverage_fraction : Q) (grid_spacing_meters : option Q)
    (solver_timeout : Z) (coverage_cloud_weight coverage_quality_weight : Q) :
  let scored := score_products aoi_weight cloud_weight recency_weight first rest in
  let out :=
    auto_select_products lib (first :: rest) "best_per_week" max_products
      quality_threshold aoi_weight cloud_weight recency_weight aoi_geom
      aoi_area_m2 target_crs min_coverage_fraction grid_spacing_meters
      solver_timeout coverage_cloud_weight coverage_quality_weight in
  snd out = [] /\
  StronglySorted (descending score_key) (fst out) /\
  NoDup (sensing_week <$> fst out) /\
  (forall b, b ∈ fst out -> b ∈ scored /\ is_Some (sensing_week b)) /\
  (forall p k, p ∈ scored -> sensing_week p = Some k ->
     exists b, b ∈ fst out /\ sensing_week b = Some k /\
               score_key p <= score_key b).
Proof.
  intros scored out. subst out. unfold auto_select_products. fold scored.
  eval_eqb. cbn [fst snd].
  set (ranked := sorted_reverse score_key scored).
  set (groups := group_by_week lib ranked).
  set (best := map (fun '(_, (p0, ps)) => py_max_by score_key p0 ps) groups).
  destruct (group_by_week_spec ranked) as [[Hkeys Hgroups] Hvalues].
  fold groups in Hkeys, Hgroups, Hvalues.
  assert (Hranked : forall p, p ∈ ranked <-> p ∈ scored).
  { intros p. unfold ranked. now rewrite sorted_reverse_perm. }
  assert (Hbest : Forall2 (fun g b =>
            b ∈ fst (snd g) :: snd (snd g) /\ sensing_week b = Some (fst g) /\
            forall y, y ∈ fst (snd g) :: snd (snd g) -> score_key y <= score_key b)
            groups best).
  { subst best. clear Hkeys Hvalues.
    induction Hgroups as [|[k [p0 ps]] w Hg _ IH]; simpl; constructor; [|exact IH].
    destruct (py_max_by_spec score_key ps p0) as [Hin Hmax]. simpl.
    split; [exact Hin|]. split; [|exact Hmax].
    rewrite Forall_forall in Hg. now apply Hg. }
  assert (Hweeks : sensing_week <$> best = Some <$> groups.*1).
  { clear -Hbest. induction Hbest as [|g b gs bs (_ & Hb & _) _ IH];
      [reflexivity|]. cbn [fmap list_fmap]. cbn [fmap list_fmap] in IH.
    now rewrite Hb, IH. }
  assert (Hin_values : forall g y, g ∈ groups -> y ∈ fst (snd g) :: snd (snd g) ->
                       y ∈ weekly_values groups).
  { intros [k [p0 ps]] y Hg Hy. unfold weekly_values.
    apply list_elem_of_In, in_flat_map. exists (k, (p0, ps)).
    split; apply list_elem_of_In; assumption. }
  assert (Hvalues_in : forall y, y ∈ weekly_values groups ->
            y ∈ scored /\ is_Some (sensing_week y)).
  { intros y Hy. rewrite Hvalues in Hy.
    apply list_elem_of_In, filter_In in Hy. destruct Hy as [Hy Hw].
    apply list_elem_of_In, Hranked in Hy. apply bool_decide_eq_true in Hw. auto. }
  split; [reflexivity|]. split; [apply sorted_reverse_sorted|].
  split; [|split].
  - rewrite sorted_reverse_perm, Hweeks.
    apply NoDup_fmap_2; [|exact Hkeys]. intros x y. congruence.
  - intros b Hb. rewrite sorted_reverse_perm in Hb.
    apply list_elem_of_lookup in Hb. destruct Hb as [i Hi].
    destruct (Forall2_lookup_r _ _ _ _ _ Hbest Hi) as (g & Hg & Hin & _).
    apply Hvalues_in. eapply Hin_values; [|exact Hin].
    eapply list_elem_of_lookup_2; eauto.
  - intros p k Hp Hk.
    assert (Hpv : p ∈ weekly_values groups).
    { rewrite Hvalues. apply list_elem_of_In, filter_In. split.
      - now apply list_elem_of_In, Hranked.
      - apply bool_decide_eq_true. rewrite Hk. eauto. }
    unfold weekly_values in Hpv. apply list_elem_of_In, in_flat_map in Hpv.
    destruct Hpv as ([k' [p0 ps]] & Hg & Hpg).
    apply list_elem_of_In in Hg. apply list_elem_of_In in Hpg.
    assert (k' = k) as ->.
    { rewrite Forall_forall in Hgroups. specialize (Hgroups _ Hg). simpl in Hgroups.
      rewrite Forall_forall in Hgroups. specialize (Hgroups _ Hpg). congruence. }
    apply list_elem_of_lookup in Hg. destruct Hg as [i Hi].
    destruct (Forall2_lookup_l _ _ _ _ _ Hbest Hi) as (b & Hb & _ & Hbk & Hmax).
    exists b. split; [|split; [exact Hbk|now apply Hmax]].
    rewrite sorted_reverse_perm. eapply list_elem_of_lookup_2; eauto.
Qed.

End StrategyFacts.


(** ** More on the greedy solver *)

Section GreedyChoice.

Context {G : Type}.
Variable candidates : list (CoverageCandidate (G:=G)).
Variable coverage_sets : list (gset nat).
Variable sample_points : list Point.
Variable aoi_area_m2 : Q.
Variable min_coverage_fraction : Q.
Variable cloud_weight quality_weight : Q.

Abbreviation scan :=
  (best_candidate_scan (G:=G) coverage_sets cloud_weight quality_weight).
Abbreviation pass :=
  (greedy_pass candidates coverage_sets sample_points min_coverage_fraction
     cloud_weight quality_weight).
Abbreviation while :=
  (greedy_while candidates coverage_sets sample_points min_coverage_fraction
     cloud_weight quality_weight).
Abbreviation N := (length candidates).
Abbreviation M := (length sample_points).
Abbreviation target :=
  (target_points sample_points min_coverage_fraction).
Abbreviation inv := (loop_inv candidates coverage_sets sample_points).

(** The marginal gain of position [j] in a state, and its gain per cost. *)
Definition gain_at (st : LoopState) (j : nat) : nat :=
  size (cov_at coverage_sets j ∩ uncovered_points st).

Definition ratio_at (st : LoopState) (j : nat) : Q :=
  match candidates !! j with
  | Some c => Qlen (gain_at st j) / candidate_cost cloud_weight quality_weight c
  | None => 0
  end.

(** What the [best_*] variables hold after the positions below [j]. *)
Definition best_inv (st : LoopState) (j : nat) (b : Best) : Prop :=
  (forall k, (k < j)%nat -> k ∉ picked st -> ratio_at st k <= best_gain_per_cost b) /\
  match best_candidate_idx b with
  | None => best_gain_per_cost b = 0
  | Some m =>
      (m < j)%nat /\ (m ∉ picked st) /\
      best_gain_per_cost b = ratio_at st m /\ 0 < ratio_at st m /\
      forall k, (k < m)%nat -> k ∉ picked st -> ratio_at st k < ratio_at st m
  end.

Lemma best_inv_nonneg st j b : best_inv st j b -> 0 <= best_gain_per_cost b.
Proof.
  intros [_ Hb]. destruct (best_candidate_idx b).
  - destruct Hb as (_ & _ & -> & Hpos & _). now apply Qlt_le_weak.
  - rewrite Hb. apply Qle_refl.
Qed.

Lemma best_inv_skip st j b :
  best_inv st j b -> (j ∉ picked st -> ratio_at st j <= best_gain_per_cost b) ->
  best_inv st (S j) b.
Proof.
  intros [Hle Hb] Hj. split.
  - intros k Hk Hnin. destruct (decide (k = j)) as [->|Hne]; [auto|].
    apply Hle; [lia|exact Hnin].
  - destruct (best_candidate_idx b); [|exact Hb].
    destruct Hb as (Hm & Hrest). split; [lia|exact Hrest].
Qed.

Lemma best_candidate_scan_argmax st cs : forall j b b',
  (forall i c, cs !! i = Some c -> candidates !! (j + i)%nat = Some c) ->
  scan st j cs b = Ok b' ->
  best_inv st j b -> best_inv st (j + length cs) b'.
Proof.
  induction cs as [|c rest IH]; intros j b b' Hcs Hscan Hinv.
  - simpl in Hscan. injection Hscan as <-. now rewrite Nat.add_0_r.
  - assert (Hc : candidates !! j = Some c).
    { rewrite <- (Nat.add_0_r j). now apply Hcs. }
    assert (Hrest : forall i c', rest !! i = Some c' ->
              candidates !! (S j + i)%nat = Some c').
    { intros i c' Hi. replace (S j + i)%nat with (j + S i)%nat by lia.
      now apply Hcs. }
    replace (j + length (c :: rest))%nat with (S j + length rest)%nat
      by (simpl; lia).
    cbn [best_candidate_scan] in Hscan.
    case_bool_decide as Hin.
    { eapply IH; eauto. apply best_inv_skip; [exact Hinv|tauto]. }
    unfold py_index in Hscan.
    destruct (coverage_sets !! j) as [cov|] eqn:Hcov; [|discriminate].
    cbn [mbind result_bind] in Hscan.
    assert (Hratio : ratio_at st j
                     = Qlen (size (cov ∩ uncovered_points st))
                       / candidate_cost cloud_weight quality_weight c).
    { unfold ratio_at, gain_at, cov_at. now rewrite Hc, Hcov. }
    destruct (Nat.eqb_spec (size (cov ∩ uncovered_points st)) 0) as [Hz|Hnz].
    { eapply IH; eauto. apply best_inv_skip; [exact Hinv|]. intros _.
      rewrite Hratio, Hz. eapply Qle_trans; [|eapply best_inv_nonneg; eauto].
      unfold Qdiv. rewrite Qmult_0_l. apply Qle_refl. }
    destruct (Qgtb _ (best_gain_per_cost b)) eqn:Hgt.
    + apply Qgtb_true in Hgt. eapply IH; eauto.
      destruct Hinv as [Hle _]. split; cbn [best_gain_per_cost best_candidate_idx].
      * intros k Hk Hnin. destruct (decide (k = j)) as [->|Hne].
        -- rewrite Hratio. apply Qle_refl.
        -- apply Qlt_le_weak. eapply Qle_lt_trans; [|exact Hgt].
           apply Hle; [lia|exact Hnin].
      * split; [lia|]. split; [exact Hin|]. split; [now rewrite Hratio|].
        split.
        -- rewrite Hratio. now apply gain_per_cost_pos.
        -- intros k Hk Hnin. rewrite Hratio.
           eapply Qle_lt_trans; [|exact Hgt]. now apply Hle.
    + apply Qgtb_false in Hgt. eapply IH; eauto.
      apply best_inv_skip; [exact Hinv|]. intros _. now rewrite Hratio.
Qed.

(** X7. The choice of a pass. The candidate a selecting pass picks has positive
    gain per cost, no candidate that is not yet selected has a larger one,
    and every such candidate at an earlier position has a strictly smaller
    one: among the best candidates the first is taken. *)
Theorem greedy_pass_argmax st st' :
  pass st = Ok (Some st') ->
  exists j,
    st' = mkLoop (uncovered_points st ∖ cov_at coverage_sets j) (picked st ++ [j])
            (S (iteration st)) /\
    (j < N)%nat /\ (j ∉ picked st) /\ 0 < ratio_at st j /\
    forall k, (k < N)%nat -> k ∉ picked st ->
      ratio_at st k <= ratio_at st j /\
      ((k < j)%nat -> ratio_at st k < ratio_at st j).
Proof.
  unfold greedy_pass. destruct (loop_test _ _ st); [|discriminate].
  destruct (scan st 0%nat candidates no_best) as [b|e] eqn:Hscan;
    cbn [mbind result_bind]; [|discriminate].
  assert (Hinv : best_inv st (0 + N) b).
  { eapply best_candidate_scan_argmax; [|exact Hscan|].
    - intros i c Hi. exact Hi.
    - split; [intros k Hk; lia|reflexivity]. }
  destruct Hinv as [Hle Hb].
  destruct (best_candidate_idx b) as [j|] eqn:Hj; [|discriminate].
  destruct Hb as (HjN & Hnin & Hbest & Hpos & Hbefore).
  unfold py_index. destruct (coverage_sets !! j) as [cov|] eqn:Hcov;
    cbn [mbind result_bind]; [|discriminate].
  intros [= <-]. exists j. split.
  { unfold cov_at. now rewrite Hcov. }
  split; [lia|]. split; [exact Hnin|]. split; [exact Hpos|].
  intros k Hk Hknin. split.
  - rewrite <- Hbest. apply Hle; [lia|exact Hknin].
  - intros Hkj. now apply Hbefore.
Qed.

(** What holds of the selected positions while the loop runs: before the
    last selection the target was not yet reached. *)
Definition below_target_before_last (st : LoopState) : Prop :=
  forall js j, picked st = js ++ [j] ->
    (Z.of_nat (size (set_range M ∩ covered_by coverage_sets js)) < target)%Z.

Lemma below_target_step st st' :
  inv st -> pass st = Ok (Some st') -> below_target_before_last st'.
Proof.
  intros Hinv Hpass js j Hjs.
  destruct (greedy_pass_selects _ _ _ _ _ _ _ _ Hpass)
    as (j' & cov & _ & _ & _ & _ & ->).
  cbn [picked] in Hjs. apply app_inj_tail in Hjs. destruct Hjs as [<- _].
  assert (Htest : loop_test sample_points min_coverage_fraction st = true).
  { unfold greedy_pass in Hpass.
    destruct (loop_test _ _ st); [reflexivity|discriminate]. }
  destruct (covered_count_spec _ _ _ _ Hinv) as [Hcount Hsum].
  rewrite <- Hcount. unfold loop_test, total_points in Htest.
  apply Z.ltb_lt in Htest. lia.
Qed.


End GreedyChoice.

Lemma greedy_pass_argmax_witness :
  exists j,
    (j < 3)%nat /\
    0 < ratio_at three_candidates three_sets (3 # 10) (7 # 10)
          (initial_state three_points) j.
Proof.
  edestruct (greedy_pass_argmax three_candidates three_sets three_points (1 # 2)
               (3 # 10) (7 # 10) (initial_state three_points))
    as (j & _ & Hj & _ & Hpos & _); [vm_compute; reflexivity|].
  exists j. split; assumption.
Defined.


(** ** More on the MILP driver *)

Lemma py_comprehension_inv {A B : Type} (f : A -> result B) (l : list A) out :
  py_comprehension f l = Ok out -> Forall2 (fun a b => f a = Ok b) l out.
Proof.
  revert out. induction l as [|a l IH]; intros out Hout; simpl in Hout.
  - injection Hout as <-. constructor.
  - destruct (f a) as [b|e] eqn:Ha; [|discriminate].
    destruct (py_comprehension f l) as [bs|e]; [|discriminate].
    injection Hout as <-. constructor; auto.
Qed.

Section MilpShape.

Context {G : Type}.
Variable lib : Libraries.
Variable candidates : list (CoverageCandidate (G:=G)).
Variable coverage_sets : list (gset nat).
Variable sample_points : list Point.
Variable aoi_area_m2 : Q.
Variable min_coverage_fraction : Q.
Variable cloud_weight quality_weight : Q.
Variable time_limit_seconds : Z.

Abbreviation milp :=
  (optimal_set_cover_milp lib candidates coverage_sets sample_points
     aoi_area_m2 min_coverage_fraction cloud_weight quality_weight
     time_limit_seconds).
Abbreviation build :=
  (build_milp candidates coverage_sets sample_points min_coverage_fraction
     cloud_weight quality_weight time_limit_seconds).
Abbreviation N := (length candidates).
Abbreviation M := (length sample_points).

(** The candidate positions a solution selects: [x[j] > 0.5]. *)
Definition chosen_from (solution_value : nat -> Q) (j n : nat) : list nat :=
  List.filter (fun k => Qgtb (solution_value k) (1 # 2)) (seq j n).

Lemma covered_by_cons j js :
  covered_by coverage_sets (j :: js)
  = cov_at coverage_sets j ∪ covered_by coverage_sets js.
Proof. reflexivity. Qed.

Lemma extract_solution_chosen value (cs : list (CoverageCandidate (G:=G))) :
  forall j selected covered selected' covered',
  (forall i c, cs !! i = Some c -> candidates !! (j + i)%nat = Some c) ->
  extract_solution coverage_sets value j cs selected covered
    = Ok (selected', covered') ->
  selected' = selected ++ (index_at candidates <$> chosen_from value j (length cs)) /\
  covered' = covered ∪ covered_by coverage_sets (chosen_from value j (length cs)).
Proof.
  induction cs as [|c rest IH]; intros j selected covered selected' covered' Hcs Hext.
  - simpl in Hext. injection Hext as <- <-. unfold chosen_from, covered_by. simpl.
    rewrite app_nil_r. split; [reflexivity|]. set_solver.
  - assert (Hc : candidates !! j = Some c).
    { rewrite <- (Nat.add_0_r j). now apply Hcs. }
    assert (Hrest : forall i c', rest !! i = Some c' ->
              candidates !! (S j + i)%nat = Some c').
    { intros i c' Hi. replace (S j + i)%nat with (j + S i)%nat by lia.
      now apply Hcs. }
    cbn [extract_solution] in Hext.
    unfold chosen_from. cbn [length seq List.filter].
    fold (chosen_from value (S j) (length rest)).
    destruct (Qgtb (value j) (1 # 2)).
    + unfold py_index in Hext.
      destruct (coverage_sets !! j) as [cov|] eqn:Hcov; [|discriminate].
      cbn [mbind result_bind] in Hext.
      destruct (IH _ _ _ _ _ Hrest Hext) as [-> ->].
      rewrite covered_by_cons. cbn [fmap list_fmap].
      unfold index_at at 2, cov_at. rewrite Hc, Hcov. cbn [from_option default].
      rewrite <- app_assoc. split; [reflexivity|]. set_solver.
    + exact (IH _ _ _ _ _ Hrest Hext).
Qed.

(** X10. The MILP result. A returned result is read off the solution the solver
    gave with status [OPTIMAL] or [FEASIBLE]: the selected indices are those
    of the candidates with [x[j] > 0.5], in candidate order; the coverage
    fraction is the number of points their coverage sets hold over the
    number of sample points; [optimal] tells whether the status was
    [OPTIMAL]. The solution is not checked against the coverage
    constraint. *)
Theorem milp_result_extraction r :
  milp = Ok (Some r) ->
  exists model,
    build = Ok model /\
    let status := fst (cbc_solve lib model) in
    let chosen := chosen_from (snd (cbc_solve lib model)) 0 N in
    (status = OPTIMAL /\ optimal r = Some true \/
     status = FEASIBLE /\ optimal r = Some false) /\
    selected_indices r = index_at candidates <$> chosen /\
    num_selected r = length chosen /\
    coverage_fraction r
    == Qlen (size (covered_by coverage_sets chosen)) / Qlen M /\
    0 <= coverage_fraction r /\
    num_candidates r = N /\ solver_type r = "milp".
Proof.
  unfold optimal_set_cover_milp.
  destruct (ORTOOLS_AVAILABLE lib); cbn [negb]; [|discriminate].
  destruct (cbc_created lib); cbn [negb]; [|discriminate].
  destruct build as [model|e]; cbn [mbind result_bind]; [|discriminate].
  intros Hres. exists model. split; [reflexivity|].
  destruct (cbc_solve lib model) as [status value]. cbn [fst snd].
  assert (Hrun : exists is_optimal,
    (status = OPTIMAL /\ is_optimal = true \/ status = FEASIBLE /\ is_optimal = false) /\
    (extract_solution coverage_sets value 0 candidates [] ∅ ≫=
       λ '(selected, covered_points_set),
         py_truediv (Qlen (size covered_points_set)) (Qlen M) ≫=
           λ coverage_fraction,
             Ok (Some (mkResult selected coverage_fraction
                         ((1 - coverage_fraction) * aoi_area_m2)
                         N (length selected) "milp" (Some is_optimal))))
    = Ok (Some r)).
  { destruct status; try discriminate; eexists; (split; [|exact Hres]); auto. }
  clear Hres. destruct Hrun as (is_optimal & Hstatus & Hrun).
  destruct (extract_solution _ _ _ _ _ _) as [[selected covered]|e] eqn:Hext;
    cbn [mbind result_bind] in Hrun; [|discriminate].
  destruct (py_truediv _ _) as [fraction|e] eqn:Hdiv;
    cbn [mbind result_bind] in Hrun; [|discriminate].
  injection Hrun as <-.
  apply extract_solution_chosen in Hext; [|intros i c Hi; exact Hi].
  destruct Hext as [-> ->].
  assert (HM : (0 < M)%nat).
  { unfold py_truediv in Hdiv. destruct (Nat.eq_dec M 0%nat) as [E|]; [|lia].
    rewrite E in Hdiv. discriminate. }
  unfold py_truediv in Hdiv. rewrite (Qlen_nonzero _ HM) in Hdiv.
  injection Hdiv as <-.
  cbn [selected_indices coverage_fraction num_selected optimal num_candidates
       solver_type app].
  split.
  { destruct Hstatus as [[-> ->]|[-> ->]]; [left|right]; auto. }
  split; [reflexivity|]. split; [now rewrite length_fmap|].
  assert (Hempty : ∅ ∪ covered_by coverage_sets (chosen_from value 0 N)
                   = covered_by coverage_sets (chosen_from value 0 N))
    by set_solver.
  rewrite Hempty. split; [reflexivity|]. split; [|split; reflexivity].
  apply Qle_shift_div_l; [now apply Qlen_pos|]. rewrite Qmult_0_l.
  unfold Qlen. rewrite <- (Zle_Qle 0). lia.
Qed.

Lemma covering_candidates_from_spec i sets : forall j k,
  k ∈ covering_candidates_from i j sets <->
  (j <= k)%nat /\ exists cov, sets !! (k - j)%nat = Some cov /\ i ∈ cov.
Proof.
  induction sets as [|s rest IH]; intros j k; simpl.
  - split; [intros Hk; inversion Hk|]. intros (_ & cov & Hcov & _). discriminate.
  - assert (Hshift : k ∈ covering_candidates_from i (S j) rest <->
              (j < k)%nat /\ exists cov, (s :: rest) !! (k - j)%nat = Some cov /\ i ∈ cov).
    { rewrite IH. split.
      - intros (Hk & cov & Hcov & Hi). split; [lia|]. exists cov. split; [|exact Hi].
        replace (k - j)%nat with (S (k - S j)) by lia. exact Hcov.
      - intros (Hk & cov & Hcov & Hi). split; [lia|]. exists cov. split; [|exact Hi].
        replace (k - j)%nat with (S (k - S j)) in Hcov by lia. exact Hcov. }
    case_bool_decide as Hin.
    + rewrite elem_of_cons, Hshift. split.
      * intros [->|(Hk & Hc)]; [|split; [lia|exact Hc]].
        split; [lia|]. exists s. rewrite Nat.sub_diag. auto.
      * intros (Hk & Hc). destruct (decide (k = j)) as [->|Hne]; [now left|].
        right. split; [lia|exact Hc].
    + rewrite Hshift. split.
      * intros (Hk & Hc). split; [lia|exact Hc].
      * intros (Hk & cov & Hcov & Hi). destruct (decide (k = j)) as [->|Hne].
        -- rewrite Nat.sub_diag in Hcov. simpl in Hcov. congruence.
        -- split; [lia|]. eauto.
Qed.

(** X11. The program the driver hands to the solver: one variable per candidate
    and per sample point, the coverage target of the greedy loop as the
    bound of the coverage constraint, costs of at least 0.01, and for sample
    point [i] the constraint over exactly the candidates whose coverage set
    holds [i], or [p_i = 0] when there is none. *)
Theorem build_milp_shape model :
  build = Ok model ->
  num_x model = N /\ num_p model = M /\
  time_limit_ms model = (time_limit_seconds * 1000)%Z /\
  min_covered model = target_points sample_points min_coverage_fraction /\
  length (costs model) = N /\ Forall (fun c => 1 # 100 <= c) (costs model) /\
  length (point_constraints model) = M /\
  forall i pc, point_constraints model !! i = Some pc ->
    match pc with
    | NeverCovered i' =>
        i' = i /\ forall j cov, coverage_sets !! j = Some cov -> i ∉ cov
    | CoveredIfSelected i' js =>
        i' = i /\ js <> [] /\ Forall (fun j => (j < N)%nat) js /\
        forall j, j ∈ js <-> exists cov, coverage_sets !! j = Some cov /\ i ∈ cov
    end.
Proof.
  unfold build_milp.
  destruct (py_comprehension _ _) as [constraints|e] eqn:Hcs;
    cbn [mbind result_bind]; [|discriminate].
  intros [= <-].
  cbn [num_x num_p time_limit_ms min_covered costs point_constraints].
  apply py_comprehension_inv in Hcs.
  split; [reflexivity|]. split; [reflexivity|]. split; [reflexivity|].
  split; [reflexivity|]. split; [apply length_map|]. split.
  { apply Forall_forall. intros c Hc. apply list_elem_of_In, in_map_iff in Hc.
    destruct Hc as (cand & <- & _). unfold candidate_cost. apply py_max_ge_r. }
  split.
  { rewrite <- (Forall2_length _ _ _ Hcs). apply length_seq. }
  intros i pc Hpc.
  destruct (Forall2_lookup_r _ _ _ _ _ Hcs Hpc) as (i' & Hi' & Hpoint).
  apply lookup_seq in Hi'. destruct Hi' as [-> _]. simpl in Hpoint.
  unfold point_constraint in Hpoint.
  pose proof (covering_candidates_from_spec i coverage_sets 0) as Hspec.
  destruct (covering_candidates_from i 0 coverage_sets) as [|k ks] eqn:Hcc.
  - injection Hpoint as <-. split; [reflexivity|].
    intros j cov Hcov Hi. specialize (Hspec j).
    rewrite Nat.sub_0_r in Hspec. 
    assert (Hin : j ∈ ([] : list nat)) by (apply Hspec; split; [lia|eauto]).
    inversion Hin.
  - destruct (forallb _ _) eqn:Hall; [|discriminate].
    injection Hpoint as <-. split; [reflexivity|]. split; [discriminate|].
    split.
    + apply Forall_forall. intros j Hj.
      rewrite forallb_forall in Hall. apply list_elem_of_In, Hall in Hj.
      now apply Nat.ltb_lt in Hj.
    + intros j. rewrite Hspec, Nat.sub_0_r. split.
      * intros [_ Hc]. exact Hc.
      * intros Hc. split; [lia|exact Hc].
Qed.

End MilpShape.

Lemma milp_result_extraction_witness :
  exists model,
    build_milp three_candidates three_sets three_points (1 # 2) (3 # 10) (7 # 10) 300
    = Ok model.
Proof.
  edestruct (milp_result_extraction lib_select_all three_candidates three_sets
               three_points 100 (1 # 2) (3 # 10) (7 # 10) 300)
    as (model & Hbuild & _); [vm_compute; reflexivity|].
  exists model. exact Hbuild.
Defined.

Lemma build_milp_shape_witness :
  exists model : MilpModel, num_x model = 3%nat /\ min_covered model = 1%Z.
Proof.
  edestruct (build_milp_shape three_candidates three_sets three_points (1 # 2)
               (3 # 10) (7 # 10) 300) as (Hx & _ & _ & Hmin & _);
    [vm_compute; reflexivity|].
  eexists. split; [exact Hx|]. rewrite Hmin. vm_compute. reflexivity.
Defined.

(** ** More on the dispatcher and its instance *)

Section InstanceShape.

Context {G : Type} `{Shapely G}.

(** The bounding-box test of [build_coverage_matrix]. *)
Definition in_bbox (footprint : G) (point : Point) : bool :=
  let '(minx, miny, maxx, maxy) := bounds footprint in
  Qle_bool minx (fst point) && Qle_bool (fst point) maxx &&
  Qle_bool miny (snd point) && Qle_bool (snd point) maxy.

Lemma points_covered_spec (fp : G) (points : list Point) : forall i covered x,
  x ∈ points_covered fp i points covered <->
  x ∈ covered \/
  ((i <= x)%nat /\
   exists p, points !! (x - i)%nat = Some p /\
             in_bbox fp p = true /\ covers fp p = true).
Proof.
  induction points as [|p rest IH]; intros i covered x.
  - simpl. split; [now left|]. intros [Hx|(_ & p & Hp & _)]; [exact Hx|discriminate].
  - assert (Hshift :
      ((S i <= x)%nat /\
       exists q, rest !! (x - S i)%nat = Some q /\
                 in_bbox fp q = true /\ covers fp q = true) <->
      ((i < x)%nat /\
       exists q, (p :: rest) !! (x - i)%nat = Some q /\
                 in_bbox fp q = true /\ covers fp q = true)).
    { split; intros (Hx & q & Hq & Hc); (split; [lia|]); exists q; (split; [|exact Hc]).
      - replace (x - i)%nat with (S (x - S i)) by lia. exact Hq.
      - replace (x - i)%nat with (S (x - S i)) in Hq by lia. exact Hq. }
    cbn [points_covered].
    assert (Hbox : (let '(minx, miny, maxx, maxy) := bounds fp in
                    Qle_bool minx (fst p) && Qle_bool (fst p) maxx &&
                    Qle_bool miny (snd p) && Qle_bool (snd p) maxy) = in_bbox fp p)
      by reflexivity.
    destruct (bounds fp) as [[[minx miny] maxx] maxy] eqn:Hb.
    rewrite Hbox.
    destruct (in_bbox fp p && covers fp p) eqn:Hc.
    + rewrite IH, Hshift, elem_of_union, elem_of_singleton.
      apply andb_true_iff in Hc.
      split.
      * intros [[Hx| ->]|(Hx & Hq)]; [now left| |right; split; [lia|exact Hq]].
        right. split; [lia|]. exists p. rewrite Nat.sub_diag. tauto.
      * intros [Hx|(Hx & Hq)]; [left; now left|].
        destruct (decide (x = i)) as [->|Hne]; [left; now right|].
        right. split; [lia|exact Hq].
    + rewrite IH, Hshift. split.
      * intros [Hx|(Hx & Hq)]; [now left|]. right. split; [lia|exact Hq].
      * intros [Hx|(Hx & q & Hq & Hbq & Hcq)]; [now left|].
        destruct (decide (x = i)) as [->|Hne].
        -- rewrite Nat.sub_diag in Hq. simpl in Hq. injection Hq as <-.
           rewrite Hbq, Hcq in Hc. discriminate.
        -- right. split; [lia|]. eauto.
Qed.

(** X12. The coverage matrix: one set per footprint, holding exactly the indices
    of the sample points that lie in the footprint's bounding box and that
    the footprint covers. *)
Theorem build_coverage_matrix_exact (points : list Point) (footprints : list G)
    (crs : CRS) :
  Forall2 (fun fp cov =>
             forall i, i ∈ cov <->
               exists p, points !! i = Some p /\
                         in_bbox fp p = true /\ covers fp p = true)
          footprints (build_coverage_matrix points footprints crs).
Proof.
  unfold build_coverage_matrix. induction footprints as [|fp fps IH]; simpl;
    constructor; [|exact IH].
  intros i. rewrite points_covered_spec, Nat.sub_0_r. split.
  - intros [Hi|[_ Hp]]; [set_solver|exact Hp].
  - intros Hp. right. split; [lia|exact Hp].
Qed.

Lemma extract_candidates_spec (products : list (Product (G:=G))) : forall i0,
  let cands := extract_candidates i0 products in
  StronglySorted lt (index <$> cands) /\
  (forall i, i ∈ index <$> cands <->
     (i0 <= i)%nat /\
     exists p, products !! (i - i0)%nat = Some p /\ has_polygon_footprint p = true) /\
  Forall (fun c =>
            exists p, products !! (index c - i0)%nat = Some p /\
              p_footprint_geom_proj p = Some (footprint c) /\
              0 <= cloud_cover c <= 100 /\
              quality_score c = get_default (p_quality_score p) 0 /\
              covered_points c = ∅) cands.
Proof.
  induction products as [|p rest IH]; intros i0.
  - simpl. split; [constructor|]. split; [|constructor].
    intros i. split; [intros Hi; inversion Hi|]. intros (_ & p & Hp & _). discriminate.
  - destruct (IH (S i0)) as (Hsorted & Hmem & Hall). cbv zeta in *.
    assert (Hshift : forall i,
      ((S i0 <= i)%nat /\
       exists q, rest !! (i - S i0)%nat = Some q /\ has_polygon_footprint q = true) <->
      ((i0 < i)%nat /\
       exists q, (p :: rest) !! (i - i0)%nat = Some q /\ has_polygon_footprint q = true)).
    { intros i. split; intros (Hi & q & Hq & Hc); (split; [lia|]); exists q;
        (split; [|exact Hc]).
      - replace (i - i0)%nat with (S (i - S i0)) by lia. exact Hq.
      - replace (i - i0)%nat with (S (i - S i0)) in Hq by lia. exact Hq. }
    assert (Hall' : Forall (fun c =>
              exists q, (p :: rest) !! (index c - i0)%nat = Some q /\
                p_footprint_geom_proj q = Some (footprint c) /\
                0 <= cloud_cover c <= 100 /\
                quality_score c = get_default (p_quality_score q) 0 /\
                covered_points c = ∅) (extract_candidates (S i0) rest)).
    { apply Forall_forall. intros c Hc.
      assert (Hi : (S i0 <= index c)%nat).
      { apply (Hmem (index c)). apply list_elem_of_fmap. eauto. }
      rewrite Forall_forall in Hall. destruct (Hall c Hc) as (q & Hq & Hrest).
      exists q. split; [|exact Hrest].
      replace (index c - i0)%nat with (S (index c - S i0)) by lia. exact Hq. }
    assert (Hskip : has_polygon_footprint p = false ->
      StronglySorted lt (index <$> extract_candidates (S i0) rest) /\
      (forall i, i ∈ index <$> extract_candidates (S i0) rest <->
         (i0 <= i)%nat /\
         exists q, (p :: rest) !! (i - i0)%nat = Some q /\
                   has_polygon_footprint q = true) /\
      Forall (fun c =>
                exists q, (p :: rest) !! (index c - i0)%nat = Some q /\
                  p_footprint_geom_proj q = Some (footprint c) /\
                  0 <= cloud_cover c <= 100 /\
                  quality_score c = get_default (p_quality_score q) 0 /\
                  covered_points c = ∅) (extract_candidates (S i0) rest)).
    { intros Hp. split; [exact Hsorted|]. split; [|exact Hall'].
      intros i. rewrite Hmem, Hshift. split.
      - intros (Hi & Hq). split; [lia|exact Hq].
      - intros (Hi & q & Hq & Hc). destruct (decide (i = i0)) as [->|Hne].
        + rewrite Nat.sub_diag in Hq. simpl in Hq. congruence.
        + split; [lia|]. eauto. }
    cbn [extract_candidates]. unfold has_polygon_footprint in Hskip.
    destruct (p_footprint_geom_proj p) as [fp|] eqn:Hfp; [|now apply Hskip].
    assert (Hkeep : geom_type fp <> OtherGeom ->
      let c := mkCandidate i0 fp
                 (py_max 0 (py_min 100
                    match p_cloud_cover_float p with
                    | Some c => c
                    | None => get_default (p_cloud_cover p) 0
                    end))
                 (get_default (p_date p) "unknown")
                 (get_default (p_quality_score p) 0) ∅ in
      StronglySorted lt (index <$> c :: extract_candidates (S i0) rest) /\
      (forall i, i ∈ index <$> c :: extract_candidates (S i0) rest <->
         (i0 <= i)%nat /\
         exists q, (p :: rest) !! (i - i0)%nat = Some q /\
                   has_polygon_footprint q = true) /\
      Forall (fun c =>
                exists q, (p :: rest) !! (index c - i0)%nat = Some q /\
                  p_footprint_geom_proj q = Some (footprint c) /\
                  0 <= cloud_cover c <= 100 /\
                  quality_score c = get_default (p_quality_score q) 0 /\
                  covered_points c = ∅) (c :: extract_candidates (S i0) rest)).
    { intros Hgeom c.
      assert (Hpoly : has_polygon_footprint p = true).
      { unfold has_polygon_footprint. rewrite Hfp. now destruct (geom_type fp). }
      split; [|split].
      - cbn [fmap list_fmap]. constructor; [exact Hsorted|].
        apply List.Forall_forall. intros i Hi. apply list_elem_of_In, Hmem in Hi.
        simpl. lia.
      - intros i. cbn [fmap list_fmap]. rewrite elem_of_cons, Hmem, Hshift. split.
        + intros [->|(Hi & Hq)]; [|split; [lia|exact Hq]].
          split; [simpl; lia|]. exists p. simpl. rewrite Nat.sub_diag. auto.
        + intros (Hi & Hq). destruct (decide (i = i0)) as [->|Hne]; [now left|].
          right. split; [lia|exact Hq].
      - constructor; [|exact Hall'].
        exists p. simpl. rewrite Nat.sub_diag. split; [reflexivity|].
        split; [exact Hfp|]. split; [|split; reflexivity].
        apply py_clamp_bounds. discriminate. }
    destruct (geom_type fp) eqn:Hgeom.
    + apply Hkeep. discriminate.
    + apply Hkeep. discriminate.
    + apply Hskip. reflexivity.
Qed.

(** X13. The candidates of a product list: in product order, one for each product
    whose footprint is a polygon or multipolygon, with that product's
    position as [index], its footprint, its cloud cover clamped to
    [0, 100] and its quality score (0 when it has none). *)
Theorem extract_candidates_exact (products : list (Product (G:=G))) :
  let cands := extract_candidates 0 products in
  StronglySorted lt (index <$> cands) /\
  (forall i, i ∈ index <$> cands <->
     exists p, products !! i = Some p /\ has_polygon_footprint p = true) /\
  Forall (fun c =>
            exists p, products !! index c = Some p /\
              p_footprint_geom_proj p = Some (footprint c) /\
              0 <= cloud_cover c <= 100 /\
              quality_score c = get_default (p_quality_score p) 0) cands.
Proof.
  destruct (extract_candidates_spec products 0) as (Hsorted & Hmem & Hall).
  cbv zeta in *. split; [exact Hsorted|]. split.
  - intros i. rewrite Hmem, Nat.sub_0_r. split; [tauto|]. intros Hp. split; [lia|exact Hp].
  - eapply Forall_impl; [exact Hall|]. intros c (p & Hp & Hfp & Hcl & Hq & _).
    rewrite Nat.sub_0_r in Hp. eauto.
Qed.

End InstanceShape.

Section DispatcherOutcome.

Context {G : Type} `{Shapely G}.
Variable lib : Libraries.

Lemma extract_candidates_nonempty (products : list (Product (G:=G))) :
  extract_candidates 0 products <> [] ->
  exists p, p ∈ products /\ has_polygon_footprint p = true.
Proof.
  intros Hne. destruct (extract_candidates 0 products) as [|c cs] eqn:Hc;
    [congruence|].
  destruct (extract_candidates_spec products 0) as (_ & Hmem & _). cbv zeta in Hmem.
  rewrite Hc in Hmem.
  destruct (proj1 (Hmem (index c))) as (_ & p & Hp & Hpoly); [left|].
  exists p. split; [|exact Hpoly]. eapply list_elem_of_lookup_2; eauto.
Qed.

Lemma coverage_instance_requires (products : list (Product (G:=G)))
    aoi area crs f grid cands covs points :
  coverage_instance lib products aoi area crs f grid = Ok (cands, covs, points) ->
  products <> [] /\ geom_type aoi <> OtherGeom /\
  extract_candidates 0 products <> [] /\
  (forall s, grid = Some s -> ~ s == 0).
Proof.
  unfold coverage_instance.
  destruct products as [|p0 rest] eqn:Hp; [discriminate|]. rewrite <- Hp.
  set (aoi' := match geom_type aoi with MultiPolygon => unary_union aoi | _ => aoi end).
  intros Hinst.
  assert (Hgeom : geom_type aoi <> OtherGeom).
  { intros E. rewrite E in Hinst. discriminate. }
  assert (Hrun :
    (match grid with
     | Some s => Ok s
     | None => root ← math_sqrt lib area; Ok (py_max 50 (py_min 200 (root / 100)))
     end ≫= λ grid_spacing_meters,
       let candidates := extract_candidates 0 products in
       match candidates with
       | [] => Raise (ValueError "No valid candidates with footprint geometries")
       | _ => sample_points_in_polygon aoi' grid_spacing_meters crs ≫= λ sample_points,
           match sample_points with
           | [] => Raise (ValueError "Failed to sample points in AOI")
           | _ =>
             let coverage_sets :=
               build_coverage_matrix sample_points (map footprint candidates) crs in
             attach_coverage candidates coverage_sets ≫= λ candidates,
               py_truediv (Qlen (size (foldl (fun acc cov_set => acc ∪ cov_set) ∅ coverage_sets)))
                 (Qlen (length sample_points)) ≫= λ _,
                 Ok (candidates, coverage_sets, sample_points)
           end
       end) = Ok (cands, covs, points)).
  { subst aoi'. destruct (geom_type aoi); [exact Hinst|exact Hinst|discriminate]. }
  clear Hinst.
  split; [rewrite Hp; discriminate|]. split; [exact Hgeom|].
  destruct (extract_candidates 0 products) as [|c0 cs0] eqn:Hex.
  { destruct (match grid with Some s => _ | None => _ end); discriminate. }
  split; [discriminate|].
  intros s -> Hs. cbn [mbind result_bind] in Hrun.
  unfold sample_points_in_polygon, np_arange in Hrun.
  destruct (bounds aoi') as [[[minx miny] maxx] maxy].
  rewrite (proj2 (Qeq_bool_iff s 0) Hs) in Hrun. discriminate.
Qed.

(** X14. When the dispatcher returns. A result is returned only for a non-empty
    product list, an AOI that is a polygon or multipolygon, at least one
    product with a polygon footprint, a grid spacing other than zero and one
    of the two coverage strategies; it then counts at least one candidate,
    and it comes from the greedy solver when the strategy is
    [coverage_greedy]. In every other case the call raises. *)
Theorem select_covering_products_returns (products : list (Product (G:=G)))
    aoi area crs strategy f grid timeout cw qw r :
  select_covering_products lib products aoi area crs strategy f grid timeout cw qw
    = Ok r ->
  products <> [] /\
  geom_type aoi <> OtherGeom /\
  (exists p, p ∈ products /\ has_polygon_footprint p = true) /\
  (forall s, grid = Some s -> ~ s == 0) /\
  (strategy = "coverage_greedy" \/ strategy = "coverage_optimal") /\
  (1 <= num_candidates r)%nat /\
  (solver_type r = "greedy" \/ solver_type r = "milp") /\
  (strategy = "coverage_greedy" -> solver_type r = "greedy").
Proof.
  intros Hr.
  assert (Hinst : exists cands covs points,
            coverage_instance lib products aoi area crs f grid
            = Ok (cands, covs, points)).
  { apply select_covering_products_inv in Hr.
    destruct Hr as (cands & covs & points & Hinst & _). eauto. }
  destruct Hinst as (cands & covs & points & Hinst).
  assert (Hsolver :
    (strategy = "coverage_greedy" /\
     greedy_set_cover cands covs points area f cw qw = Ok r) \/
    (strategy = "coverage_optimal" /\
     (greedy_set_cover cands covs points area f cw qw = Ok r \/
      optimal_set_cover_milp lib cands covs points area f cw qw timeout
      = Ok (Some r)))).
  { unfold select_covering_products in Hr. rewrite Hinst in Hr.
    cbn [mbind result_bind] in Hr.
    destruct (String.eqb_spec strategy "coverage_greedy") as [->|_]; [now left|].
    destruct (String.eqb_spec strategy "coverage_optimal") as [->|_];
      [|discriminate].
    right. split; [reflexivity|].
    destruct (optimal_set_cover_milp _ _ _ _ _ _ _ _ _) as [[r'|]|e];
      cbn [mbind result_bind] in Hr; [right; congruence|now left|discriminate]. }
  destruct (coverage_instance_requires _ _ _ _ _ _ _ _ _ Hinst)
    as (Hprod & Hgeom & Hext & Hgrid).
  assert (Hne : cands <> []).
  { pose proof (coverage_instance_shape _ _ _ _ _ _ _ _ _ _ Hinst) as (_ & _ & Hat).
    apply attach_coverage_index in Hat. intros ->.
    destruct (extract_candidates 0 products); [congruence|discriminate]. }
  split; [exact Hprod|]. split; [exact Hgeom|].
  split; [now apply extract_candidates_nonempty|].
  split; [exact Hgrid|].
  assert (Hgreedy : forall r',
            greedy_set_cover cands covs points area f cw qw = Ok r' ->
            num_candidates r' = length cands /\ solver_type r' = "greedy").
  { intros r' Hr'. apply greedy_set_cover_inv in Hr'.
    destruct Hr' as (stf & share & indices & _ & _ & _ & ->). auto. }
  assert (Hmilp : forall r',
            optimal_set_cover_milp lib cands covs points area f cw qw timeout
            = Ok (Some r') ->
            num_candidates r' = length cands /\ solver_type r' = "milp").
  { intros r' Hr'. apply optimal_set_cover_milp_inv in Hr'.
    destruct Hr' as (model & sel & cov & fraction & opt & _ & _ & _ & ->). auto. }
  assert (Hlen : (1 <= length cands)%nat).
  { destruct cands; [congruence|simpl; lia]. }
  destruct Hsolver as [[-> Hg]|[-> [Hg|Hm]]].
  - destruct (Hgreedy _ Hg) as [-> ->]. auto 10.
  - destruct (Hgreedy _ Hg) as [-> ->].
    split; [now right|]. split; [exact Hlen|]. split; [now left|]. discriminate.
  - destruct (Hmilp _ Hm) as [-> ->].
    split; [now right|]. split; [exact Hlen|]. split; [now right|]. discriminate.
Qed.

(** X15. Without OR-Tools, or without a CBC solver, [coverage_optimal] is
    [coverage_greedy]: the dispatcher returns or raises the same. *)
Theorem coverage_optimal_without_solver (products : list (Product (G:=G)))
    aoi area crs f grid timeout cw qw :
  ORTOOLS_AVAILABLE lib = false \/ cbc_created lib = false ->
  select_covering_products lib products aoi area crs "coverage_optimal" f grid
    timeout cw qw
  = select_covering_products lib products aoi area crs "coverage_greedy" f grid
      timeout cw qw.
Proof.
  intros Hlib. unfold select_covering_products.
  destruct (coverage_instance _ _ _ _ _ _ _) as [[[cands covs] points]|e];
    cbn [mbind result_bind]; [|reflexivity].
  change (String.eqb "coverage_optimal" "coverage_greedy") with false.
  change (String.eqb "coverage_optimal" "coverage_optimal") with true.
  change (String.eqb "coverage_greedy" "coverage_greedy") with true.
  cbv iota.
  assert (Hnone : optimal_set_cover_milp lib cands covs points area f cw qw timeout
                  = Ok None).
  { unfold optimal_set_cover_milp. destruct Hlib as [-> | ->]; [reflexivity|].
    now destruct (ORTOOLS_AVAILABLE lib). }
  rewrite Hnone. reflexivity.
Qed.

(** X16. The default grid spacing. With no spacing given, the dispatcher works
    as with the spacing [sqrt(area) / 100] clamped to [50, 200] metres; with
    that spacing the grid sampler returns for every polygon, it does not
    divide by zero. *)
Theorem default_grid_spacing (products : list (Product (G:=G)))
    aoi area crs strategy f timeout cw qw root :
  math_sqrt lib area = Ok root ->
  let spacing := py_max 50 (py_min 200 (root / 100)) in
  50 <= spacing <= 200 /\
  (50 <= root / 100 <= 200 -> spacing == root / 100) /\
  (forall polygon : G, exists points,
     sample_points_in_polygon polygon spacing crs = Ok points) /\
  select_covering_products lib products aoi area crs strategy f None timeout cw qw
  = select_covering_products lib products aoi area crs strategy f (Some spacing)
      timeout cw qw.
Proof.
  intros Hroot spacing.
  assert (Hrange : 50 <= spacing <= 200) by (apply py_clamp_bounds; discriminate).
  split; [exact Hrange|]. split; [|split].
  - intros [Hlo Hhi]. now apply py_clamp_inside.
  - intros polygon. unfold sample_points_in_polygon.
    destruct (bounds polygon) as [[[minx miny] maxx] maxy].
    assert (Hpos : 0 < spacing).
    { eapply Qlt_le_trans; [|apply Hrange]. reflexivity. }
    assert (Hnz : ~ spacing == 0).
    { intros E. rewrite E in Hpos. now apply Qlt_irrefl in Hpos. }
    destruct (np_arange_spec minx maxx spacing Hnz) as (xs & -> & _).
    destruct (np_arange_spec miny maxy spacing Hnz) as (ys & -> & _).
    cbn [mbind result_bind]. eauto.
  - unfold select_covering_products, coverage_instance.
    destruct products as [|p0 ps]; [reflexivity|].
    rewrite Hroot. reflexivity.
Qed.

End DispatcherOutcome.

Lemma select_covering_products_returns_witness :
  [product_january; product_december] <> [] /\ geom_type square10 <> OtherGeom.
Proof.
  edestruct (select_covering_products_returns lib_without_ortools
               [product_january; product_december] square10 100 "EPSG:32634"
               "coverage_greedy" (99 # 100) (Some 5) 300 (3 # 10) (7 # 10))
    as (Hne & Hgeom & _); [vm_compute; reflexivity|].
  split; assumption.
Defined.

Lemma coverage_optimal_without_solver_witness :
  select_covering_products lib_without_ortools
    [product_january; product_december] square10 100 "EPSG:32634"
    "coverage_optimal" (99 # 100) (Some 5) 300 (3 # 10) (7 # 10)
  = select_covering_products lib_without_ortools
      [product_january; product_december] square10 100 "EPSG:32634"
      "coverage_greedy" (99 # 100) (Some 5) 300 (3 # 10) (7 # 10).
Proof.
  apply coverage_optimal_without_solver. left. reflexivity.
Defined.

Lemma default_grid_spacing_witness :
  50 <= py_max 50 (py_min 200 (inject_Z (Z.sqrt (Qfloor 100)) / 100)) <= 200.
Proof.
  exact (proj1 (default_grid_spacing lib_without_ortools
                  [product_january; product_december] square10 100 "EPSG:32634"
                  "coverage_greedy" (99 # 100) 300 (3 # 10) (7 # 10) _ eq_refl)).
Defined.

(** ** Schedules and triggers *)

Module SchedulingFacts.
Import Scheduling.

Lemma in_class_digit (hi c : ascii) :
  (48 <= nat_of_ascii hi <= 57)%nat ->
  in_class "0" hi c = true ->
  exists n, digit c = Some n /\ (0 <= n <= Z.of_nat (nat_of_ascii hi) - 48)%Z.
Proof.
  intros Hhi Hc. unfold in_class in Hc. apply andb_true_iff in Hc.
  destruct Hc as [Hlo Hup]. apply Nat.leb_le in Hlo, Hup.
  change (nat_of_ascii "0") with 48%nat in Hlo.
  unfold digit.
  assert (Hin : ((48 <=? Z.of_nat (nat_of_ascii c)) && (Z.of_nat (nat_of_ascii c) <=? 57))%Z
                = true).
  { apply andb_true_iff. split; apply Z.leb_le; lia. }
  rewrite Hin. eexists. split; [reflexivity|]. lia.
Qed.

(** What the time pattern accepts: two digits, a colon and two digits that
    read as an hour below 24 and a minute below 60, and then the end of the
    string or one final newline. *)
Lemma time_format_matches_inv time_str :
  time_format_matches time_str = true ->
  exists h1 h2 m1 m2 tail a b c d,
    time_str = String h1 (String h2 (String ":" (String m1 (String m2 tail)))) /\
    (tail = EmptyString \/ tail = newline) /\
    digit h1 = Some a /\ digit h2 = Some b /\ digit m1 = Some c /\ digit m2 = Some d /\
    (0 <= 10 * a + b <= 23)%Z /\ (0 <= 10 * c + d <= 59)%Z.
Proof.
  unfold time_format_matches.
  destruct time_str as [|h1 [|h2 [|colon [|m1 [|m2 tail]]]]]; try discriminate.
  intros Hm. repeat (apply andb_true_iff in Hm; destruct Hm as [Hm ?]).
  match goal with H : Ascii.eqb colon ":" = true |- _ =>
    apply Ascii.eqb_eq in H; subst colon end.
  match goal with H : in_class "0" "5" m1 = true |- _ =>
    apply in_class_digit in H; [destruct H as (c & Hc & Hcr)|vm_compute; lia] end.
  match goal with H : in_class "0" "9" m2 = true |- _ =>
    apply in_class_digit in H; [destruct H as (d & Hd & Hdr)|vm_compute; lia] end.
  change (Z.of_nat (nat_of_ascii "5") - 48)%Z with 5%Z in Hcr.
  change (Z.of_nat (nat_of_ascii "9") - 48)%Z with 9%Z in Hdr.
  assert (Htail : tail = EmptyString \/ tail = newline).
  { match goal with H : String.eqb tail EmptyString || String.eqb tail newline = true |- _ =>
      apply orb_true_iff in H; destruct H as [H|H]; apply String.eqb_eq in H; auto end. }
  assert (Hhour : exists a b, digit h1 = Some a /\ digit h2 = Some b /\
                              (0 <= 10 * a + b <= 23)%Z).
  { apply orb_true_iff in Hm. destruct Hm as [Hm|Hm];
      apply andb_true_iff in Hm; destruct Hm as [H1 H2].
    - apply in_class_digit in H1; [|vm_compute; lia].
      apply in_class_digit in H2; [|vm_compute; lia].
      destruct H1 as (a & Ha & Har). destruct H2 as (b & Hb & Hbr).
      change (Z.of_nat (nat_of_ascii "1") - 48)%Z with 1%Z in Har.
      change (Z.of_nat (nat_of_ascii "9") - 48)%Z with 9%Z in Hbr.
      exists a, b. repeat split; auto; lia.
    - apply Ascii.eqb_eq in H1. subst h1.
      apply in_class_digit in H2; [|vm_compute; lia].
      destruct H2 as (b & Hb & Hbr).
      change (Z.of_nat (nat_of_ascii "3") - 48)%Z with 3%Z in Hbr.
      exists 2%Z, b. repeat split; auto; lia. }
  destruct Hhour as (a & b & Ha & Hb & Hab).
  exists h1, h2, m1, m2, tail, a, b, c, d. repeat split; auto; lia.
Qed.

Lemma digit_not_colon c n : digit c = Some n -> Ascii.eqb c ":" = false.
Proof.
  unfold digit. intros Hd. apply Ascii.eqb_neq. intros ->.
  vm_compute in Hd. discriminate.
Qed.

Lemma split_time h1 h2 m1 m2 tail a b c d :
  digit h1 = Some a -> digit h2 = Some b -> digit m1 = Some c -> digit m2 = Some d ->
  tail = EmptyString \/ tail = newline ->
  py_split_char ":" (String h1 (String h2 (String ":" (String m1 (String m2 tail)))))
  = [String h1 (String h2 EmptyString); String m1 (String m2 tail)].
Proof.
  intros Ha Hb Hc Hd Ht. cbn [py_split_char].
  rewrite (digit_not_colon _ _ Ha), (digit_not_colon _ _ Hb),
          (digit_not_colon _ _ Hc), (digit_not_colon _ _ Hd).
  change (Ascii.eqb ":" ":") with true. cbv iota.
  destruct Ht as [-> | ->]; reflexivity.
Qed.

Section WithStrings.

Variable strs : Strings.
Variable Trigger : Type.
Variable cron_trigger : CronArgs -> attempt Trigger.

(** [int] reads two decimal digits, also before a final newline. *)
Definition int_reads_two_digits : Prop :=
  forall c1 c2 tail a b,
    digit c1 = Some a -> digit c2 = Some b ->
    tail = EmptyString \/ tail = newline ->
    str_int strs (String c1 (String c2 tail)) = Ok (10 * a + b)%Z.

Lemma unpack_hour_minute_valid time_str :
  int_reads_two_digits ->
  time_format_matches time_str = true ->
  exists hour minute,
    unpack_hour_minute strs time_str = Ok (hour, minute) /\
    (0 <= hour <= 23)%Z /\ (0 <= minute <= 59)%Z.
Proof.
  intros Hint Hm. apply time_format_matches_inv in Hm.
  destruct Hm as (h1 & h2 & m1 & m2 & tail & a & b & c & d
                  & -> & Ht & Ha & Hb & Hc & Hd & Hh & Hmin).
  unfold unpack_hour_minute. rewrite (split_time _ _ _ _ _ _ _ _ _ Ha Hb Hc Hd Ht).
  rewrite (Hint h1 h2 EmptyString a b Ha Hb (or_introl eq_refl)).
  cbn [mbind result_bind].
  rewrite (Hint m1 m2 tail c d Hc Hd Ht). cbn [mbind result_bind].
  eauto.
Qed.

Lemma day_map_get_valid key :
  key ∈ valid_days -> exists n, day_map_get key = Some n /\ (0 <= n <= 6)%Z.
Proof.
  intros Hk. unfold valid_days in Hk.
  repeat (apply elem_of_cons in Hk; destruct Hk as [->|Hk];
          [eexists; split; [vm_compute; reflexivity|lia]|]).
  inversion Hk.
Qed.

Lemma day_map_get_invalid key : key ∉ valid_days -> day_map_get key = None.
Proof.
  intros Hk. unfold day_map_get, day_map. cbn [List.find fst].
  repeat match goal with
         | |- context [String.eqb ?a key] =>
             destruct (String.eqb_spec a key) as [<-|_];
             [exfalso; apply Hk; unfold valid_days; set_solver|]
         end.
  reflexivity.
Qed.

Definition known_type (t : string) : Prop :=
  t = "yearly" \/ t = "monthly" \/ t = "weekly" \/ t = "custom".

(** X19. Validation and trigger creation agree on the four schedule types. For
    a schedule that [__post_init__] accepted, [_create_trigger] gets as far as
    the [CronTrigger] constructor and returns what it returns, and the
    arguments it passes are in range: the hour is in 0-23 and the minute in
    0-59; a yearly trigger gets a month in 1-12 and a day in 1-31, a monthly
    one a day in 1-31; a weekly one whose day was given as a string gets a
    day of the week in 0-6, and one whose day was given as an integer gets
    that integer, which nothing checked; a custom one gets the five fields of
    the cron expression. *)
Theorem validated_schedule_has_trigger (schedule : ScheduleConfig) :
  int_reads_two_digits ->
  post_init strs schedule = Ok tt ->
  known_type (type schedule) ->
  exists args,
    create_trigger strs Trigger cron_trigger schedule = cron_trigger args /\
    (type schedule <> "custom" ->
     exists hour minute,
       cron_hour args = Some (CronInt hour) /\
       cron_minute args = Some (CronInt minute) /\
       (0 <= hour <= 23)%Z /\ (0 <= minute <= 59)%Z) /\
    (type schedule = "yearly" ->
     exists m d,
       cron_month args = Some (CronInt m) /\ cron_day args = Some (CronInt d) /\
       (1 <= m <= 12)%Z /\ (1 <= d <= 31)%Z) /\
    (type schedule = "monthly" ->
     exists d, cron_day args = Some (CronInt d) /\ (1 <= d <= 31)%Z) /\
    (type schedule = "weekly" ->
     (forall s, day_of_week schedule = Some (DayStr s) ->
        exists n, cron_day_of_week args = Some (CronInt n) /\ (0 <= n <= 6)%Z) /\
     (forall n, day_of_week schedule = Some (DayInt n) ->
        cron_day_of_week args = Some (CronInt n))) /\
    (type schedule = "custom" ->
     exists expr minute hour d m dow,
       cron schedule = Some expr /\
       str_split strs expr = [minute; hour; d; m; dow] /\
       args = mkCronArgs (Some (CronExpr m)) (Some (CronExpr d))
                (Some (CronExpr dow)) (Some (CronExpr hour))
                (Some (CronExpr minute))).
Proof.
  intros Hint Hpost Hknown. unfold post_init in Hpost.
  destruct (match _ with true => _ | false => _ end) as [[]|e] eqn:Hbranch
    in Hpost; [|discriminate].
  cbn [mbind result_bind] in Hpost.
  unfold validate_time_format, check in Hpost.
  destruct (time_format_matches (time schedule)) eqn:Htime; [|discriminate].
  clear Hpost.
  destruct (unpack_hour_minute_valid _ Hint Htime)
    as (hour & minute & Hunpack & Hh & Hm).
  unfold create_trigger. rewrite Hunpack. cbn [of_result mbind attempt_bind].
  destruct Hknown as [Ht|[Ht|[Ht|Ht]]]; rewrite Ht in Hbranch |- *.
  - (* yearly *)
    change (String.eqb "yearly" "yearly") with true in *. cbv iota in *.
    destruct (month schedule) as [m|] eqn:Hmonth; [|discriminate].
    destruct (day schedule) as [d|] eqn:Hday; [|discriminate].
    unfold check_day, check in Hbranch.
    destruct ((1 <=? m) && (m <=? 12))%Z eqn:Hmr; [|discriminate].
    cbn [mbind result_bind] in Hbranch.
    destruct ((1 <=? d) && (d <=? 31))%Z eqn:Hdr; [|discriminate].
    apply andb_true_iff in Hmr, Hdr. destruct Hmr as [Hm1 Hm2], Hdr as [Hd1 Hd2].
    apply Z.leb_le in Hm1, Hm2, Hd1, Hd2.
    unfold create_yearly_trigger. eexists. split; [reflexivity|]. cbn.
    split; [intros _; exists hour, minute; auto|].
    split; [intros _; exists m, d; repeat split; auto|].
    split; [discriminate|]. split; discriminate.
  - (* monthly *)
    change (String.eqb "monthly" "yearly") with false in *.
    change (String.eqb "monthly" "monthly") with true in *. cbv iota in *.
    destruct (day schedule) as [d|] eqn:Hday; [|discriminate].
    unfold check_day, check in Hbranch.
    destruct ((1 <=? d) && (d <=? 31))%Z eqn:Hdr; [|discriminate].
    apply andb_true_iff in Hdr. destruct Hdr as [Hd1 Hd2].
    apply Z.leb_le in Hd1, Hd2.
    unfold create_monthly_trigger. eexists. split; [reflexivity|]. cbn.
    split; [intros _; exists hour, minute; auto|].
    split; [discriminate|].
    split; [intros _; exists d; repeat split; auto|].
    split; discriminate.
  - (* weekly *)
    change (String.eqb "weekly" "yearly") with false in *.
    change (String.eqb "weekly" "monthly") with false in *.
    change (String.eqb "weekly" "weekly") with true in *. cbv iota in *.
    assert (Hday : exists day_num,
      weekly_day_num strs (day_of_week schedule) = Ok (Some (CronInt day_num)) /\
      (forall s, day_of_week schedule = Some (DayStr s) -> (0 <= day_num <= 6)%Z) /\
      (forall n, day_of_week schedule = Some (DayInt n) -> day_num = n)).
    { unfold weekly_day_num.
      destruct (day_of_week schedule) as [[s|n]|]; [| |discriminate].
      - case_bool_decide as Hvalid.
        + destruct (day_map_get_valid _ Hvalid) as (n & Hget & Hn).
          rewrite Hget. exists n. split; [reflexivity|]. split; [auto|discriminate].
        + rewrite (day_map_get_invalid _ Hvalid).
          destruct (str_int strs s) as [n|e] eqn:Hs.
          * destruct ((0 <=? n) && (n <=? 6))%Z eqn:Hn; [|discriminate].
            apply andb_true_iff in Hn. destruct Hn as [Hn1 Hn2].
            apply Z.leb_le in Hn1, Hn2.
            exists n. split; [reflexivity|]. split; [intros; lia|discriminate].
          * destruct e; discriminate.
      - exists n. split; [reflexivity|]. split; [discriminate|]. now intros ? [= ->]. }
    destruct Hday as (day_num & Hnum_eq & Hstr & Hnum).
    unfold create_weekly_trigger. rewrite Hnum_eq. cbn [of_result mbind attempt_bind].
    eexists. split; [reflexivity|]. cbn.
    split; [intros _; exists hour, minute; auto|].
    split; [discriminate|]. split; [discriminate|].
    split; [|discriminate]. intros _. split.
    + intros s Hs. exists day_num. split; [reflexivity|eauto].
    + intros n Hn. now rewrite (Hnum n Hn).
  - (* custom *)
    change (String.eqb "custom" "yearly") with false in *.
    change (String.eqb "custom" "monthly") with false in *.
    change (String.eqb "custom" "weekly") with false in *.
    change (String.eqb "custom" "custom") with true in *. cbv iota in *.
    destruct (cron schedule) as [expr|] eqn:Hcron; [|discriminate].
    unfold validate_cron, check in Hbranch. unfold create_custom_trigger.
    destruct (str_split strs expr) as [|p1 [|p2 [|p3 [|p4 [|p5 [|p6 ps]]]]]] eqn:Hsplit;
      try discriminate.
    eexists. split; [reflexivity|]. cbn.
    split; [intros Hc; now contradiction Hc|].
    split; [discriminate|]. split; [discriminate|]. split; [discriminate|].
    intros _. exists expr, p1, p2, p3, p4, p5. auto.
Qed.

(** X20. A schedule type outside the four is accepted by [__post_init__], which
    then checks the time only, and refused by [_create_trigger] before any
    trigger is built: a configuration can pass validation and still give no
    trigger. *)
Theorem unknown_schedule_type (schedule : ScheduleConfig) :
  ~ known_type (type schedule) ->
  post_init strs schedule = validate_time_format (time schedule) /\
  (forall trigger,
     create_trigger strs Trigger cron_trigger schedule <> Fine trigger) /\
  (int_reads_two_digits -> post_init strs schedule = Ok tt ->
   create_trigger strs Trigger cron_trigger schedule
   = Fails (Builtin (ValueError ("Unknown schedule type: " +:+ type schedule)))).
Proof.
  intros Hunknown. unfold known_type in Hunknown.
  assert (Hy : String.eqb (type schedule) "yearly" = false)
    by (apply String.eqb_neq; tauto).
  assert (Hmo : String.eqb (type schedule) "monthly" = false)
    by (apply String.eqb_neq; tauto).
  assert (Hw : String.eqb (type schedule) "weekly" = false)
    by (apply String.eqb_neq; tauto).
  assert (Hc : String.eqb (type schedule) "custom" = false)
    by (apply String.eqb_neq; tauto).
  assert (Hpost : post_init strs schedule = validate_time_format (time schedule)).
  { unfold post_init. rewrite Hy, Hmo, Hw, Hc. reflexivity. }
  split; [exact Hpost|]. split.
  - intros trigger. unfold create_trigger. rewrite Hy, Hmo, Hw, Hc.
    destruct (unpack_hour_minute strs (time schedule)) as [[hour minute]|e];
      discriminate.
  - intros Hint Hok. rewrite Hpost in Hok. unfold validate_time_format, check in Hok.
    destruct (time_format_matches (time schedule)) eqn:Htime; [|discriminate].
    destruct (unpack_hour_minute_valid _ Hint Htime) as (hour & minute & Hunpack & _).
    unfold create_trigger. rewrite Hunpack, Hy, Hmo, Hw, Hc. reflexivity.
Qed.

End WithStrings.

End SchedulingFacts.

Lemma ascii_strings_int : SchedulingFacts.int_reads_two_digits ascii_strings.
Proof.
  intros c1 c2 tail a b Ha Hb Ht. cbn [str_int ascii_strings]. unfold short_int.
  rewrite Ha.
  assert (Hnl : Ascii.eqb c2 (ascii_of_nat 10) = false).
  { apply Ascii.eqb_neq. intros ->. vm_compute in Hb. discriminate. }
  assert (Hrest : String.eqb (String c2 tail) EmptyString
                  || String.eqb (String c2 tail) newline = false).
  { unfold newline. cbn [String.eqb]. now rewrite Hnl. }
  rewrite Hrest, Hb.
  destruct Ht as [-> | ->]; reflexivity.
Qed.

Lemma validated_schedule_has_trigger_witness :
  exists args,
    Scheduling.create_trigger ascii_strings Scheduling.CronArgs Fine
      (Scheduling.mkScheduleConfig "weekly" None None
         (Some (Scheduling.DayStr "Monday")) "06:30" None)
    = Fine args.
Proof.
  destruct (SchedulingFacts.validated_schedule_has_trigger ascii_strings
              Scheduling.CronArgs Fine
              (Scheduling.mkScheduleConfig "weekly" None None
                 (Some (Scheduling.DayStr "Monday")) "06:30" None)
              ascii_strings_int eq_refl (or_intror (or_intror (or_introl eq_refl))))
    as (args & Hargs & _).
  exists args. exact Hargs.
Defined.

Lemma unknown_schedule_type_witness :
  Scheduling.post_init ascii_strings
    (Scheduling.mkScheduleConfig "daily" None None None "06:30" None) = Ok tt /\
  forall trigger,
    Scheduling.create_trigger ascii_strings Scheduling.CronArgs Fine
      (Scheduling.mkScheduleConfig "daily" None None None "06:30" None)
    <> Fine trigger.
Proof.
  assert (Hunknown : ~ SchedulingFacts.known_type "daily").
  { intros [E|[E|[E|E]]]; discriminate. }
  destruct (SchedulingFacts.unknown_schedule_type ascii_strings
              Scheduling.CronArgs Fine
              (Scheduling.mkScheduleConfig "daily" None None None "06:30" None)
              Hunknown) as (Hpost & Hnone & _).
  split; [rewrite Hpost; reflexivity|exact Hnone].
Defined.

(** ** The scheduler configuration and its jobs *)

(** [len(l) == len(set(l))] says that [l] has no duplicates. *)
Lemma length_size_NoDup (l : list string) :
  length l = size (list_to_set l : gset string) <-> NoDup l.
Proof.
  split; [|intros Hnd; symmetry; now apply size_list_to_set].
  assert (Hle : forall l' : list string,
            (size (list_to_set l' : gset string) <= length l')%nat).
  { induction l' as [|y l' IH']; [cbn [list_to_set]; now rewrite size_empty|].
    cbn [list_to_set length].
    rewrite size_union_alt, size_singleton.
    pose proof (subseteq_size (list_to_set l' ∖ {[y]} : gset string)
                  (list_to_set l')) as Hsub.
    assert (size (list_to_set l' ∖ {[y]} : gset string)
            <= size (list_to_set l' : gset string))%nat by (apply Hsub; set_solver).
    lia. }
  induction l as [|x l IH]; intros Hlen; [constructor|].
  cbn [list_to_set length] in Hlen.
  destruct (decide (x ∈ l)) as [Hin|Hnin].
  - exfalso.
    assert (Heq : ({[x]} ∪ list_to_set l : gset string) = list_to_set l)
      by set_solver.
    rewrite Heq in Hlen. pose proof (Hle l). lia.
  - constructor; [exact Hnin|]. apply IH.
    rewrite size_union in Hlen by set_solver.
    rewrite size_singleton in Hlen. lia.
Qed.

Module SchedulerFacts.
Import Scheduling.

Section WithStrings.

Variable strs : Strings.
Variable Trigger : Type.
Variable cron_trigger : CronArgs -> attempt Trigger.

(** The ids of the [add_job] calls of a run of [setup_jobs]. *)
Definition added_ids (events : list (SetupEvent Trigger)) : list string :=
  omap (fun ev => match ev with AddJob _ id _ => Some id | _ => None end) events.

(** [CronTrigger(...)] raises exceptions only; it does not leave the
    process. *)
Definition trigger_errors_are_exceptions : Prop :=
  forall args e, cron_trigger args = Fails e -> is_exception e = true.

Lemma scheduler_post_init_names (config : SchedulerConfig) :
  scheduler_post_init config = Ok tt -> NoDup (name <$> jobs config).
Proof.
  unfold scheduler_post_init, check.
  case_bool_decide; cbn [negb mbind result_bind]; [discriminate|].
  destruct (Nat.eqb_spec (length (name <$> jobs config))
              (size (list_to_set (name <$> jobs config) : gset string)))
    as [Hnames|Hnames]; cbn [mbind result_bind]; [|discriminate].
  intros _. now apply length_size_NoDup.
Qed.

(** X21. A scheduler configuration is accepted exactly when it has a job, no two
    jobs have the same name, and both limits are positive; otherwise the
    constructor raises [ValueError]. *)
Theorem scheduler_config_accepted_iff (config : SchedulerConfig) :
  (scheduler_post_init config = Ok tt <->
   jobs config <> [] /\ NoDup (name <$> jobs config) /\
   (0 < max_concurrent_jobs config)%Z /\ (0 < job_max_instances config)%Z) /\
  (scheduler_post_init config = Ok tt \/
   exists msg, scheduler_post_init config = Raise (ValueError msg)).
Proof.
  unfold scheduler_post_init, check.
  case_bool_decide as Hjobs; cbn [negb mbind result_bind].
  { split; [|right; eauto]. split; [discriminate|]. intros [Hne _]. contradiction. }
  destruct (Nat.eqb_spec (length (name <$> jobs config))
              (size (list_to_set (name <$> jobs config) : gset string)))
    as [Hnames|Hnames]; cbn [mbind result_bind].
  2:{ split; [|right; eauto]. split; [discriminate|].
      intros (_ & Hnd & _). apply length_size_NoDup in Hnd. contradiction. }
  apply length_size_NoDup in Hnames.
  destruct (Z.leb_spec (max_concurrent_jobs config) 0) as [Hmc|Hmc];
    cbn [negb mbind result_bind].
  { split; [|right; eauto]. split; [discriminate|]. intros (_ & _ & Hpos & _). lia. }
  destruct (Z.leb_spec (job_max_instances config) 0) as [Hmi|Hmi]; cbn [negb].
  { split; [|right; eauto]. split; [discriminate|]. intros (_ & _ & _ & Hpos). lia. }
  split; [|now left]. split; [auto|reflexivity].
Qed.

(** Trigger creation fails with an [Exception], never with an error that
    would pass the [except Exception] clause of [setup_jobs]. *)
Lemma create_trigger_exception (schedule : ScheduleConfig) e :
  trigger_errors_are_exceptions ->
  create_trigger strs Trigger cron_trigger schedule = Fails e ->
  is_exception e = true.
Proof.
  intros Hlib. unfold create_trigger.
  destruct (unpack_hour_minute strs (time schedule)) as [[hour minute]|e0];
    cbn [of_result mbind attempt_bind]; [|now intros [= <-]].
  destruct (String.eqb (type schedule) "yearly"); [apply Hlib|].
  destruct (String.eqb (type schedule) "monthly"); [apply Hlib|].
  destruct (String.eqb (type schedule) "weekly").
  { unfold create_weekly_trigger.
    destruct (weekly_day_num strs (day_of_week schedule));
      cbn [of_result mbind attempt_bind]; [apply Hlib|now intros [= <-]]. }
  destruct (String.eqb (type schedule) "custom"); [|now intros [= <-]].
  destruct (cron schedule) as [expr|]; [|now intros [= <-]].
  unfold create_custom_trigger.
  destruct (str_split strs expr) as [|p1 [|p2 [|p3 [|p4 [|p5 [|p6 ps]]]]]];
    try (now intros [= <-]).
  apply Hlib.
Qed.

Lemma setup_jobs_loop_ids (js : list CollectionJobConfig) :
  trigger_errors_are_exceptions ->
  snd (setup_jobs_loop strs Trigger cron_trigger js) = None /\
  added_ids (fst (setup_jobs_loop strs Trigger cron_trigger js))
  = name <$> List.filter
               (fun job => enabled job &&
                  match create_trigger strs Trigger cron_trigger (schedule job) with
                  | Fine _ => true
                  | Fails _ => false
                  end) js.
Proof.
  intros Hlib. induction js as [|job js [IHerr IHids]]; [split; reflexivity|].
  cbn [setup_jobs_loop List.filter].
  destruct (setup_jobs_loop strs Trigger cron_trigger js) as [events err].
  cbn [fst snd] in *.
  destruct (enabled job); cbn [negb andb].
  - destruct (create_trigger strs Trigger cron_trigger (schedule job))
      as [trigger|e] eqn:Htrigger.
    + cbn [fst snd added_ids omap list_omap fmap list_fmap].
      split; [exact IHerr|]. f_equal. exact IHids.
    + rewrite (create_trigger_exception _ _ Hlib Htrigger).
      cbn [fst snd]. split; [exact IHerr|exact IHids].
  - cbn [fst snd]. split; [exact IHerr|exact IHids].
Qed.

(** X22. [setup_jobs] on an accepted configuration, with a [CronTrigger]
    constructor that raises exceptions only. The loop runs over all jobs and
    lets no error out; it calls [add_job] once for every enabled job whose
    trigger could be created, in the order of the configuration, with the
    job's name as id; the ids are distinct, so [replace_existing] never
    replaces a job. *)
Theorem setup_jobs_distinct_ids (config : SchedulerConfig) :
  trigger_errors_are_exceptions ->
  scheduler_post_init config = Ok tt ->
  snd (setup_jobs strs Trigger cron_trigger config) = None /\
  added_ids (fst (setup_jobs strs Trigger cron_trigger config))
  = name <$> List.filter
               (fun job => enabled job &&
                  match create_trigger strs Trigger cron_trigger (schedule job) with
                  | Fine _ => true
                  | Fails _ => false
                  end) (jobs config) /\
  NoDup (added_ids (fst (setup_jobs strs Trigger cron_trigger config))).
Proof.
  intros Hlib Hpost.
  pose proof (scheduler_post_init_names config Hpost) as Hnd.
  destruct (setup_jobs_loop_ids (jobs config) Hlib) as [Herr Hids].
  unfold setup_jobs. split; [exact Herr|]. split; [exact Hids|].
  rewrite Hids. eapply sublist_NoDup; [exact Hnd|apply fmap_sublist, filter_sublist].
Qed.

End WithStrings.

End SchedulerFacts.

Lemma setup_jobs_distinct_ids_witness :
  let weekly :=
    Scheduling.mkScheduleConfig "weekly" None None
      (Some (Scheduling.DayStr "Monday")) "06:30" None in
  let daily := Scheduling.mkScheduleConfig "daily" None None None "06:30" None in
  let config :=
    Scheduling.mkSchedulerConfig
      [Scheduling.mkCollectionJobConfig "north" weekly true;
       Scheduling.mkCollectionJobConfig "south" daily true;
       Scheduling.mkCollectionJobConfig "east" weekly false] 1 true 1 in
  NoDup (SchedulerFacts.added_ids Scheduling.CronArgs
           (fst (Scheduling.setup_jobs ascii_strings Scheduling.CronArgs Fine config))).
Proof.
  cbv zeta.
  refine (proj2 (proj2 (SchedulerFacts.setup_jobs_distinct_ids ascii_strings
                          Scheduling.CronArgs Fine _ _ _))).
  - intros args e Hfails. discriminate.
  - vm_compute. reflexivity.
Defined.

(** ** [AutoSelectConfig]: what an accepted configuration satisfies *)

Module ConfigSoundness.
Import ConfigSchema.

Ltac step_check H :=
  rewrite ConfigFacts.check_bind in H;
  match type of H with
  | (if ?b then _ else _) = _ => destruct b eqn:?; [|discriminate]
  end.


End ConfigSoundness.


(** ** [run_collection] *)

Section RunCollectionFacts.

Variables Token Wkt Gdf : Type.
Variable get_access_token : external Token.
Variable load_aoi_data : string -> external (option Wkt * option Gdf).
Variable build_odata_query : Wkt -> string -> string -> string -> external string.
Variable after_query :
  Token -> Gdf -> string -> list string * external CollectionResult.

(** The call of [build_odata_query] names its dates [start_date] and
    [end_date]; the parameters are [start_date_str] and [end_date_str]. *)
Lemma build_odata_query_call_fails :
  bind_arguments "build_odata_query" build_odata_query_signature 0
    ["aoi_wkt"; "start_date"; "end_date"; "product_level"]
  = RaisesException
      "build_odata_query() got an unexpected keyword argument 'start_date'".
Proof. vm_compute. reflexivity. Qed.

(** X23. [run_collection] never gets past its query. Whatever the token request,
    the AOI file and the rest of the function do: a call that returns
    reports failure, with an error, no product found, filtered or
    downloaded; no exception comes out of it; and once the token and the AOI
    are there, the result is the failure of the call of [build_odata_query],
    whose keywords [start_date] and [end_date] are no parameters of that
    function. Products are neither fetched nor selected. *)
Theorem run_collection_never_succeeds (aoi_path start_date end_date product_level : string) :
  let run :=
    run_collection Token Wkt Gdf get_access_token load_aoi_data build_odata_query
      after_query aoi_path start_date end_date product_level in
  (forall r, run = Returns r ->
     success r = false /\ downloaded_products r = [] /\ errors r <> [] /\
     total_products_found r = 0%nat /\ total_products_filtered r = 0%nat) /\
  (forall text, run <> RaisesException text) /\
  (forall token wkt gdf,
     get_access_token = Returns token ->
     load_aoi_data aoi_path = Returns (Some wkt, Some gdf) ->
     let error_msg :=
       "Collection failed: build_odata_query() got an unexpected keyword argument 'start_date'" in
     run = Returns (mkCollectionResult false [] [error_msg] error_msg 0 0)).
Proof.
  intros run. subst run. unfold run_collection.
  rewrite build_odata_query_call_fails. cbn [mbind external_bind].
  split; [|split].
  - intros r.
    destruct get_access_token as [token|text|code]; [| |discriminate].
    + destruct (load_aoi_data aoi_path) as [[[wkt|] [gdf|]]|text|code];
        try discriminate; intros [= <-]; cbn; repeat split; discriminate.
    + intros [= <-]. cbn. repeat split; discriminate.
  - intros text.
    destruct get_access_token as [token|text'|code]; [| |discriminate].
    + destruct (load_aoi_data aoi_path) as [[[wkt|] [gdf|]]|text'|code]; discriminate.
    + discriminate.
  - intros token wkt gdf -> ->. reflexivity.
Qed.

End RunCollectionFacts.

Lemma run_collection_never_succeeds_witness :
  run_collection string string unit (Returns "token")
    (fun _ => Returns (Some "POLYGON ((0 0, 0 1, 1 1, 0 0))", Some tt))
    (fun _ _ _ _ => Returns "query")
    (fun _ _ _ => (["S2A_MSIL2A_20240101"],
                   Returns (mkCollectionResult true ["S2A_MSIL2A_20240101"] []
                              "Downloaded 1 of 1 selected products" 1 1)))
    "aoi.geojson" "2024-01-01" "2024-01-31" "L2A"
  = Returns (mkCollectionResult false []
      ["Collection failed: build_odata_query() got an unexpected keyword argument 'start_date'"]
      "Collection failed: build_odata_query() got an unexpected keyword argument 'start_date'"
      0 0).
Proof.
  exact (proj2 (proj2 (run_collection_never_succeeds string string unit
                         (Returns "token")
                         (fun _ => Returns (Some "POLYGON ((0 0, 0 1, 1 1, 0 0))", Some tt))
                         (fun _ _ _ _ => Returns "query")
                         (fun _ _ _ => (["S2A_MSIL2A_20240101"],
                            Returns (mkCollectionResult true ["S2A_MSIL2A_20240101"] []
                                       "Downloaded 1 of 1 selected products" 1 1)))
                         "aoi.geojson" "2024-01-01" "2024-01-31" "L2A"))
           "token" "POLYGON ((0 0, 0 1, 1 1, 0 0))" tt eq_refl eq_refl).
Defined.

(** ** [get_utm_crs] *)

(** The two decimal digits of a zone number. *)
Definition two_digits (zone : Z) : string :=
  String (ascii_of_nat (48 + Z.to_nat (zone / 10)))
    (String (ascii_of_nat (48 + Z.to_nat (zone mod 10))) EmptyString).

Lemma zfill_zone (zone : Z) :
  (1 <= zone <= 60)%Z -> zfill 2 (pretty zone) = two_digits zone.
Proof.
  intros Hz.
  assert (Hn : exists n, (n < 60)%nat /\ zone = (Z.of_nat n + 1)%Z).
  { exists (Z.to_nat (zone - 1)). split; lia. }
  destruct Hn as (n & Hn & ->). clear Hz.
  do 60 (destruct n as [|n]; [vm_compute; reflexivity|]).
  lia.
Qed.

(** X24. For a longitude in [-180, 180) the function asks for the UTM zone of
    the longitude: the zone number is in 1-60, its six-degree band contains
    the longitude, and the code is 326 (north, latitude not negative) or 327
    (south) followed by the two digits of the zone. It returns that code, or
    EPSG:3857 when pyproj refuses it. *)
Theorem get_utm_crs_zone (crs_known : string -> bool) (lon lat : Q) :
  -180 <= lon -> lon < 180 ->
  let zone := (Qfloor ((lon + 180) / 6) + 1)%Z in
  let code :=
    "EPSG:" +:+ (if Qle_bool 0 lat then "326" else "327") +:+ two_digits zone in
  (1 <= zone <= 60)%Z /\
  inject_Z (6 * (zone - 1) - 180) <= lon /\ lon < inject_Z (6 * zone - 180) /\
  get_utm_crs crs_known lon lat = (if crs_known code then code else "EPSG:3857").
Proof.
  intros Hlo Hhi zone code.
  set (q := (lon + 180) / 6) in *.
  assert (Hq0 : 0 <= q).
  { unfold q. apply Qle_shift_div_l; [reflexivity|]. lra. }
  assert (Hq60 : q < 60).
  { unfold q. apply Qlt_shift_div_r; [reflexivity|]. lra. }
  pose proof (Qfloor_le q) as Hfl. pose proof (Qlt_floor q) as Hfu.
  assert (Hz1 : (0 <= Qfloor q)%Z).
  { change 0%Z with (Qfloor 0). now apply Qfloor_resp_le. }
  assert (Hz2 : (Qfloor q < 60)%Z).
  { apply Z.lt_nge. intros Hge.
    assert (inject_Z 60 <= inject_Z (Qfloor q)) by now rewrite <- Zle_Qle.
    apply (Qlt_irrefl q). eapply Qlt_le_trans; [exact Hq60|].
    eapply Qle_trans; [|exact Hfl]. exact H. }
  assert (Hlon : lon == 6 * q - 180) by (unfold q; field).
  assert (Hlower : inject_Z (6 * (zone - 1) - 180) == 6 * inject_Z (Qfloor q) - 180).
  { subst zone. replace (6 * (Qfloor q + 1 - 1) - 180)%Z
      with (6 * Qfloor q + - (180))%Z by lia.
    rewrite inject_Z_plus, inject_Z_mult, inject_Z_opp. reflexivity. }
  assert (Hupper : inject_Z (6 * zone - 180) == 6 * (inject_Z (Qfloor q) + 1) - 180).
  { subst zone. replace (6 * (Qfloor q + 1) - 180)%Z
      with (6 * (Qfloor q + 1) + - (180))%Z by lia.
    rewrite inject_Z_plus, inject_Z_mult, inject_Z_opp, inject_Z_plus. reflexivity. }
  assert (Hfu' : q < inject_Z (Qfloor q) + 1).
  { rewrite inject_Z_plus in Hfu. exact Hfu. }
  split; [subst zone; lia|]. split; [|split].
  - rewrite Hlower, Hlon. lra.
  - rewrite Hupper, Hlon. lra.
  - unfold get_utm_crs. fold q. fold zone.
    rewrite zfill_zone by (subst zone; lia).
    subst code. destruct (Qle_bool 0 lat); reflexivity.
Qed.

Lemma get_utm_crs_zone_witness :
  get_utm_crs (fun _ => true) (23 # 1) (38 # 1) = "EPSG:32634".
Proof.
  assert (Hlo : -180 <= 23 # 1) by discriminate.
  assert (Hhi : 23 # 1 < 180) by reflexivity.
  exact (proj2 (proj2 (proj2 (get_utm_crs_zone (fun _ => true) (23 # 1) (38 # 1)
                                Hlo Hhi)))).
Defined.

(** ** The coverage fraction, read geometrically *)

Lemma map_fmap {A B : Type} (f : A -> B) (l : list A) : map f l = f <$> l.
Proof. induction l as [|a l IH]; [reflexivity|]. simpl. now rewrite IH. Qed.

(** Counting the positions of a list whose element satisfies a test. *)
Lemma size_positions {A : Type} (test : A -> bool) (l : list A) (positions : gset nat) :
  (forall i, i ∈ positions <-> exists a, l !! i = Some a /\ test a = true) ->
  size positions = length (List.filter test l).
Proof.
  revert positions. induction l as [|a l IH] using rev_ind; intros positions Hpos.
  - simpl. apply size_empty_iff, elem_of_equiv_empty. intros i Hi. apply Hpos in Hi.
    destruct Hi as (a & Ha & _). discriminate.
  - rewrite List.filter_app, length_app. cbn [List.filter].
    assert (Hbelow : forall i, i ∈ positions ∖ {[length l]} <->
              exists b, l !! i = Some b /\ test b = true).
    { intros i. rewrite elem_of_difference, elem_of_singleton, Hpos. split.
      - intros [(b & Hb & Ht) Hne].
        apply lookup_app_Some in Hb. destruct Hb as [Hb|[Hge Hb]]; [eauto|].
        destruct (i - length l)%nat as [|n] eqn:E; [lia|discriminate].
      - intros (b & Hb & Ht). pose proof (lookup_lt_Some _ _ _ Hb).
        split; [|lia]. exists b. split; [|exact Ht].
        apply lookup_app_Some. now left. }
    specialize (IH _ Hbelow).
    destruct (test a) eqn:Ha; cbn [length].
    + assert (Hin : length l ∈ positions).
      { apply Hpos. exists a. split; [|exact Ha].
        rewrite lookup_app_r by lia. now rewrite Nat.sub_diag. }
      assert (Hsplit : positions = {[length l]} ∪ positions ∖ {[length l]}).
      { apply set_eq. intros i. rewrite elem_of_union, elem_of_difference,
          elem_of_singleton. destruct (decide (i = length l)); [subst|]; tauto. }
      rewrite Hsplit, size_union by set_solver. rewrite size_singleton, IH. lia.
    + assert (Hsame : positions ∖ {[length l]} = positions).
      { apply set_eq. intros i. rewrite elem_of_difference, elem_of_singleton.
        split; [tauto|]. intros Hi. split; [exact Hi|]. intros ->.
        apply Hpos in Hi. destruct Hi as (b & Hb & Ht).
        rewrite lookup_app_r in Hb by lia. rewrite Nat.sub_diag in Hb.
        simpl in Hb. congruence. }
      rewrite <- Hsame, IH. simpl. lia.
Qed.

Section CoverageGeometry.

Context {G : Type} `{Shapely G}.
Variable lib : Libraries.

(** Whether the footprint of the product at position [k] covers a point,
    as the coverage matrix decides it. *)
Definition footprint_covers (products : list (Product (G:=G))) (k : nat)
    (point : Point) : bool :=
  match products !! k with
  | Some product =>
      match p_footprint_geom_proj product with
      | Some fp => in_bbox fp point && covers fp point
      | None => false
      end
  | None => false
  end.

Definition covered_by_selection (products : list (Product (G:=G)))
    (selection : list nat) (point : Point) : bool :=
  existsb (fun k => footprint_covers products k point) selection.

Lemma attach_coverage_footprint (cands : list (CoverageCandidate (G:=G))) :
  forall covs cands',
    attach_coverage cands covs = Ok cands' ->
    footprint <$> cands' = footprint <$> cands.
Proof.
  induction cands as [|c cs IH]; intros covs cands' Hat; simpl in Hat.
  - now injection Hat as <-.
  - destruct covs as [|cov covs]; [discriminate|].
    destruct (attach_coverage cs covs) as [cs'|e] eqn:Hcs; simpl in Hat; [|discriminate].
    injection Hat as <-. simpl. f_equal. eauto.
Qed.

(** The positions in the candidate list behind a solver's result. *)
Lemma solver_positions (cands : list (CoverageCandidate (G:=G))) covs points
    area f cw qw timeout r :
  universe covs ⊆ set_range (length points) ->
  greedy_set_cover cands covs points area f cw qw = Ok r \/
  optimal_set_cover_milp lib cands covs points area f cw qw timeout = Ok (Some r) ->
  exists js,
    Forall (fun j => (j < length cands)%nat) js /\
    selected_indices r = index_at cands <$> js /\
    coverage_fraction r
    == Qlen (size (covered_by covs js)) / Qlen (length points).
Proof.
  intros Hrange [Hr|Hr].
  - destruct (greedy_set_cover_inv _ _ _ _ _ _ _ _ Hr)
      as (stf & share & indices & Hrun & Hdiv & Hcomp & ->).
    destruct (greedy_while_invariant cands covs points f cw qw
                (loop_inv cands covs points)
                (loop_inv_step cands covs points f cw qw)
                _ _ (loop_inv_initial cands covs points) Hrun) as [Hinv _].
    rewrite (py_comprehension_index cands _ (inv_bound _ _ _ _ Hinv)) in Hcomp.
    injection Hcomp as <-.
    assert (HM : (0 < length points)%nat).
    { unfold py_truediv in Hdiv.
      destruct (Nat.eq_dec (length points) 0%nat) as [E|]; [|lia].
      rewrite E in Hdiv. discriminate. }
    unfold py_truediv in Hdiv. rewrite (Qlen_nonzero _ HM) in Hdiv.
    injection Hdiv as <-.
    exists (picked stf). split.
    { apply Forall_forall. apply (inv_bound _ _ _ _ Hinv). }
    split; [reflexivity|]. cbn [coverage_fraction].
    rewrite (coverage_fraction_count _ _ _ _ Hinv HM).
    destruct (covered_count_spec _ _ _ _ Hinv) as [-> _].
    assert (Hcov : set_range (length points) ∩ covered_by covs (picked stf)
                   = covered_by covs (picked stf)).
    { pose proof (covered_by_universe covs (picked stf)). set_solver. }
    rewrite Hcov. reflexivity.
  - destruct (optimal_set_cover_milp_inv _ _ _ _ _ _ _ _ _ _ Hr)
      as (model & selected & covered & fraction & opt & _ & Hext & Hdiv & ->).
    destruct (extract_solution_chosen cands covs _ cands 0%nat _ _ _ _
                (fun i c Hi => Hi) Hext) as [-> ->].
    exists (chosen_from (snd (cbc_solve lib model)) 0 (length cands)). split.
    { apply Forall_forall. intros j Hj. unfold chosen_from in Hj.
      apply list_elem_of_In, filter_In in Hj. destruct Hj as [Hj _].
      apply in_seq in Hj. lia. }
    split; [reflexivity|]. cbn [coverage_fraction].
    assert (HM : (0 < length points)%nat).
    { unfold py_truediv in Hdiv.
      destruct (Nat.eq_dec (length points) 0%nat) as [E|]; [|lia].
      rewrite E in Hdiv. discriminate. }
    unfold py_truediv in Hdiv. rewrite (Qlen_nonzero _ HM) in Hdiv.
    injection Hdiv as <-.
    assert (Hempty : forall X : gset nat, ∅ ∪ X = X) by (intros; set_solver).
    rewrite Hempty. reflexivity.
Qed.


End CoverageGeometry.


(** ** Solvers without sample points *)

Section NoSamplePoints.

Context {G : Type} `{Shapely G}.
Variable lib : Libraries.

(** X9. Neither solver works on an instance without sample points: the greedy
    solver raises [ZeroDivisionError] whatever the candidates are, and the
    MILP driver returns no result. The dispatcher never hands them such an
    instance: it raises [ValueError] before. *)
Theorem solvers_need_sample_points (candidates : list (CoverageCandidate (G:=G)))
    (coverage_sets : list (gset nat))
    (aoi_area_m2 min_coverage_fraction cloud_weight quality_weight : Q)
    (time_limit_seconds : Z) :
  greedy_set_cover candidates coverage_sets [] aoi_area_m2 min_coverage_fraction
    cloud_weight quality_weight = Raise ZeroDivisionError /\
  (forall r,
     optimal_set_cover_milp lib candidates coverage_sets [] aoi_area_m2
       min_coverage_fraction cloud_weight quality_weight time_limit_seconds
     <> Ok (Some r)) /\
  (forall products aoi_geom target_crs grid_spacing_meters cands covs,
     coverage_instance lib products aoi_geom aoi_area_m2 target_crs
       min_coverage_fraction grid_spacing_meters <> Ok (cands, covs, [])).
Proof.
  split; [|split].
  - assert (Hsize : size (uncovered_points (initial_state [])) = 0%nat)
      by apply (size_set_range 0).
    assert (Ht : target_points [] min_coverage_fraction = 0%Z).
    { unfold target_points, py_int, Qlen. simpl. apply Z.quot_0_l. lia. }
    assert (Hpass : greedy_pass candidates coverage_sets [] min_coverage_fraction
                      cloud_weight quality_weight (initial_state []) = Ok None).
    { unfold greedy_pass, loop_test. rewrite Ht, Hsize. reflexivity. }
    unfold greedy_set_cover. rewrite greedy_while_eq, Hpass.
    cbn [mbind result_bind]. rewrite Hsize. reflexivity.
  - intros r Hr. apply optimal_set_cover_milp_inv in Hr.
    destruct Hr as (model & sel & cov & fraction & opt & _ & _ & Hdiv & _).
    discriminate.
  - intros products aoi_geom target_crs grid cands covs Hinst.
    apply coverage_instance_inv in Hinst. destruct Hinst as [Hne _].
    now apply Hne.
Qed.

End NoSamplePoints.
